(** * RTCM 3 decoder of BNC (go-ntrip): a shallow embedding

    The development follows [src/c/BNC/RTCM3Decoder.cpp]:

    - [CRC24], [GetMessage]: the CRC-24Q routine and the framer;
    - the bit cursor of [bits.h] (a header that is not part of the checked
      sources; it is modelled from section 4.1 of the specification);
    - [DecodeRTCM3GPS], [DecodeRTCM3GLONASS], [DecodeRTCM3MSM]: the
      observation decoders and the epoch accumulator;
    - the ephemeris and station decoders, and the entry point [Decode].

    Conventions.  Bytes and C integers are [Z] with the wrap-around written
    out where the source relies on it; buffer sizes and indices are [nat];
    C [double]s are idealised as exact rationals [Q] (no claim below is about
    rounding); Qt signals are recorded, in order, in the list [_signals]. *)

From Stdlib Require Import String Ascii ZArith QArith Qabs List Bool Lia.
Import ListNotations.

Local Open Scope Z_scope.

(** ** CRC-24Q  (RTCM3Decoder::CRC24) *)

Module Crc.

(** One turn of the inner [for (ii = 0; ii < 8; ii++)] loop on a
    [uint32_t]. *)
Definition crc_shift (crc : Z) : Z :=
  let crc := Z.shiftl crc 1 mod 2 ^ 32 in
  if Z.eqb (Z.land crc 0x1000000) 0 then crc else Z.lxor crc 0x01864cfb.

(** The body of [while (size--)] for one byte. *)
Definition crc_byte (crc b : Z) : Z :=
  Nat.iter 8 crc_shift (Z.lxor crc (Z.shiftl b 16)).

Definition CRC24 (size : nat) (buf : list Z) : Z :=
  fold_left crc_byte (firstn size buf) 0.

End Crc.
Export Crc.

(** ** The framer  (RTCM3Decoder::GetMessage) *)

Definition MESSAGE_BUFFER : nat := 2048.  (* sizeof(_Message) *)

Record Framer := mkFramer {
  _Message     : list Z;   (* unsigned char _Message[2048] *)
  _MessageSize : nat;
  _NeedBytes   : nat;
  _SkipBytes   : nat;
  _BlockSize   : nat
}.

(** [m[k]] for a pointer [m = _Message + off]. *)
Definition byte_at (msg : list Z) (off k : nat) : Z := nth (off + k) msg 0.

(** How the [while (e - m >= 3)] loop of [GetMessage] is left. *)
Inductive scan_exit := ScanFound | ScanNeed | ScanEnd.

(** [((m[1] & 3) << 8) | m[2]] *)
Definition block_length (msg : list Z) (m : nat) : nat :=
  Z.to_nat (Z.lor (Z.shiftl (Z.land (byte_at msg m 1) 3) 8) (byte_at msg m 2)).

(** The three bytes after the block, read as a big-endian number. *)
Definition block_crc (msg : list Z) (m bs : nat) : Z :=
  Z.lor (Z.lor (Z.shiftl (byte_at msg m (3 + bs)) 16)
               (Z.shiftl (byte_at msg m (3 + bs + 1)) 8))
        (byte_at msg m (3 + bs + 2)).

(** The scanning loop.  [rem] is [e - m], the loop's variant; the result is
    the final [m], the final [_BlockSize] and the way the loop ended. *)
Fixpoint scan (msg : list Z) (rem m bs : nat) {struct rem}
  : nat * nat * scan_exit :=
  match rem with
  | O => (m, bs, ScanEnd)
  | S rem' =>
      if (rem <? 3)%nat then (m, bs, ScanEnd)
      else if byte_at msg m 0 =? 0xD3 then
        let bs := block_length msg m in
        if (bs + 6 <=? rem)%nat then
          if block_crc msg m bs =? CRC24 (bs + 3) (skipn m msg)
          then (m, (bs + 6)%nat, ScanFound)
          else scan msg rem' (S m) bs
        else (m, bs, ScanNeed)
      else scan msg rem' (S m) bs
  end.

(** [memmove(_Message, m, n)] *)
Definition memmove_front (msg : list Z) (m n : nat) : list Z :=
  firstn n (skipn m msg) ++ skipn n msg.

Definition GetMessage (f : Framer) : Z * Framer :=
  let e := _MessageSize f in
  let '(m, bs, ex) :=
    scan (_Message f) (e - _SkipBytes f) (_SkipBytes f) (_BlockSize f) in
  let skip := match ex with ScanFound => bs | _ => O end in
  let need := match ex with ScanNeed => bs | _ => O end in
  let need := if (e - m <? 3)%nat then 3%nat else need in
  (* copy buffer to front *)
  let msg := if negb (m =? 0)%nat && (m <? e)%nat
             then memmove_front (_Message f) m (e - m)
             else _Message f in
  let id := if (need =? 0)%nat
            then Z.lor (Z.shiftl (nth 3 msg 0) 4) (Z.shiftr (nth 4 msg 0) 4)
            else 0 in
  (id, mkFramer msg (e - m) need skip bs).

(** *** Frames, for examples and statements *)

(** The three CRC bytes of a 24-bit value, most significant first. *)
Definition crc_bytes (c : Z) : list Z :=
  [Z.shiftr c 16 mod 256; Z.shiftr c 8 mod 256; c mod 256].

(** [0xD3 | 6 reserved bits + 10-bit length | payload | CRC-24Q]. *)
Definition frame_of (payload : list Z) : list Z :=
  let L := Z.of_nat (length payload) in
  let hp := 0xD3 :: Z.shiftr L 8 :: L mod 256 :: payload in
  hp ++ crc_bytes (CRC24 (length hp) hp).

(** ** The bit cursor  (bits.h) *)

Module Bits.

(** The most significant [n] bits first. *)
Fixpoint bits_of (n : nat) (v : Z) : list bool :=
  match n with
  | O => []
  | S n' => Z.testbit v (Z.of_nat n') :: bits_of n' v
  end.

Definition bits_of_bytes (l : list Z) : list bool :=
  flat_map (bits_of 8) l.

(** The number spelled by a list of bits, most significant first. *)
Definition value_of (l : list bool) : Z :=
  fold_left (fun acc (b : bool) => 2 * acc + (if b then 1 else 0)) l 0.

(** Two's complement reading of an [n]-bit field. *)
Definition signed_of (n : nat) (v : Z) : Z :=
  if Z.testbit v (Z.of_nat n - 1) then v - 2 ^ Z.of_nat n else v.

(** Sign and magnitude reading: the leading bit is the sign. *)
Definition signmag_of (n : nat) (v : Z) : Z :=
  let mag := v mod 2 ^ (Z.of_nat n - 1) in
  if Z.testbit v (Z.of_nat n - 1) then - mag else mag.

End Bits.
Export Bits.

(** ** Data model *)

(** Satellite identity: system letter and number ([t_prn::set]); the third
    field is the flag that [DecodeGalileoEphemeris] passes for I/NAV. *)
Record t_prn := mk_prn {
  prn_system : ascii;
  prn_number : Z;
  prn_flags  : Z
}.

(** Modelled from the spec: [bncTime] (bnctime.h is not among the sources).
    "A valid flag distinguishes unset from 0.  Equality compares the
    represented instant." *)
Record bncTime := mk_time {
  time_valid   : bool;
  time_instant : Z
}.

Definition time_reset : bncTime := mk_time false 0.
Definition time_ne (a b : bncTime) : bool :=
  negb (time_instant a =? time_instant b).

(** Modelled from the spec: [t_frqObs] (satObs.h is not among the sources):
    a two-character RINEX code and numeric fields, each with its validity
    bit; a fresh object has no code and no valid field. *)
Record t_frqObs := mk_frqObs {
  _rnxType2ch        : string;
  _code              : Q;   _codeValid     : bool;
  _phase             : Q;   _phaseValid    : bool;
  _doppler           : Q;   _dopplerValid  : bool;
  _snr               : Q;   _snrValid      : bool;
  _lockTime          : Q;   _lockTimeValid : bool;
  _lockTimeIndicator : Z
}.

Definition new_frqObs : t_frqObs :=
  mk_frqObs EmptyString 0 false 0 false 0 false 0 false 0 false 0.

Record t_satObs := mk_satObs {
  _prn  : t_prn;
  _time : bncTime;
  _type : Z;
  _obs  : list t_frqObs
}.

Definition new_satObs : t_satObs :=
  mk_satObs (mk_prn "?"%char 0 0) time_reset 0 [].

(** Ephemerides.  The decoder only fills the records and hands them to a
    signal; they are kept as the satellite, the navigation type and the
    scaled fields in the order of assignment. *)
Inductive e_navType := LNAV | FDMA | SBASL1 | INAF | FNAV | D1 | D2 | undefined.

Record t_eph := mk_eph {
  eph_prn     : t_prn;
  eph_navType : e_navType;
  eph_fields  : list (string * Q)
}.

Definition new_eph : t_eph := mk_eph (mk_prn "?"%char 0 0) undefined [].
Definition eph_set_prn (e : t_eph) (p : t_prn) : t_eph :=
  mk_eph p (eph_navType e) (eph_fields e).
Definition eph_set_navType (e : t_eph) (t : e_navType) : t_eph :=
  mk_eph (eph_prn e) t (eph_fields e).
Definition eph_set (e : t_eph) (name : string) (v : Q) : t_eph :=
  mk_eph (eph_prn e) (eph_navType e) (eph_fields e ++ [(name, v)]).

(** Station metadata ([t_antInfo], [t_recInfo], [t_antRefPoint]). *)
Record t_antInfo := mk_antInfo {
  ant_descriptor   : list Z;
  ant_serialnumber : list Z
}.

Record t_recInfo := mk_recInfo {
  rec_descriptor   : list Z;
  rec_firmware     : list Z;
  rec_serialnumber : list Z
}.

Record t_antRefPoint := mk_antRefPoint {
  arp_xx : Q; arp_yy : Q; arp_zz : Q;
  arp_height : option Q;      (* height, when height_f is set *)
  arp_message : Z
}.

(** What the decoder emits through Qt signals. *)
Inductive signal :=
| newMessage (staID : string) (block : Z)   (* "... Block %2 contain partial data! Ignored!" *)
| newGPSEph (eph : t_eph)
| newGlonassEph (eph : t_eph)
| newGalileoEph (eph : t_eph)
| newSBASEph (eph : t_eph)
| newBDSEph (eph : t_eph).

Definition is_eph_signal (s : signal) : bool :=
  match s with newMessage _ _ => false | _ => true end.

Inductive t_irc := failure | success | fatal.

(** ** Collaborators outside the decoder

    Functions that the decoder calls and whose code is elsewhere: the clock
    behind [bncTime::set], the tables of bncutils, and the decoder of the
    SSR messages. *)
Record Env := mk_env {
  time_of_gps : Z -> Z;        (* bncTime::set(msec): instant of a ms-of-week *)
  time_of_bds : Z -> Z;        (* bncTime::setBDS(msec) *)
  time_of_tk  : Z -> Z;        (* bncTime::setTk(msec) *)
  time_of_tod : Z -> Z;        (* bncTime::setTOD(msec) *)
  gpsw_of     : Z -> Z;        (* bncTime::set(msec) followed by gpsw() *)
  lti2sec     : Z -> Z -> Q;
  accuracyFromIndex   : Z -> ascii -> Q;
  fitIntervalFromFlag : Z -> Q -> ascii -> Q;
  qzss_ura    : Z -> Q;        (* ceil(10.0 * pow(2.0, ...)) / 10.0 *)
  gnumleap_at : Z -> Z;        (* civil_date of a time, then gnumleap *)
  rawFile_staID : option string;             (* _rawFile->staID() *)
  coDecode    : list Z -> bool               (* RTCM3coDecoder::Decode(block) == success *)
}.

(** ** The decoder object, apart from the framer *)

Definition RTCM3_MSM_NUMSIG   : Z := 32.
Definition RTCM3_MSM_NUMSAT   : Z := 64.
Definition RTCM3_MSM_NUMCELLS : Z := 96.

Record Core := mk_core {
  _staID          : string;
  _CurrentTime    : bncTime;
  _CurrentObsList : list t_satObs;
  _obsList        : list (list t_satObs);   (* one list per flushed epoch *)
  _typeList       : list Z;
  _antType        : list t_antInfo;
  _recType        : list t_recInfo;
  _antList        : list t_antRefPoint;
  GLOFreq         : list Z;                 (* static int GLOFreq[64] *)
  GLOFreq_wild    : list (Z * Z);           (* stores outside GLOFreq[0..63] *)
  _signals        : list signal
}.

Definition set_staID (c : Core) (v : string) : Core :=
  mk_core v (_CurrentTime c) (_CurrentObsList c) (_obsList c) (_typeList c)
          (_antType c) (_recType c) (_antList c) (GLOFreq c) (GLOFreq_wild c)
          (_signals c).
Definition set_CurrentTime (c : Core) (v : bncTime) : Core :=
  mk_core (_staID c) v (_CurrentObsList c) (_obsList c) (_typeList c)
          (_antType c) (_recType c) (_antList c) (GLOFreq c) (GLOFreq_wild c)
          (_signals c).
Definition set_CurrentObsList (c : Core) (v : list t_satObs) : Core :=
  mk_core (_staID c) (_CurrentTime c) v (_obsList c) (_typeList c)
          (_antType c) (_recType c) (_antList c) (GLOFreq c) (GLOFreq_wild c)
          (_signals c).
Definition set_obsList (c : Core) (v : list (list t_satObs)) : Core :=
  mk_core (_staID c) (_CurrentTime c) (_CurrentObsList c) v (_typeList c)
          (_antType c) (_recType c) (_antList c) (GLOFreq c) (GLOFreq_wild c)
          (_signals c).
Definition set_typeList (c : Core) (v : list Z) : Core :=
  mk_core (_staID c) (_CurrentTime c) (_CurrentObsList c) (_obsList c) v
          (_antType c) (_recType c) (_antList c) (GLOFreq c) (GLOFreq_wild c)
          (_signals c).
Definition set_antType (c : Core) (v : list t_antInfo) : Core :=
  mk_core (_staID c) (_CurrentTime c) (_CurrentObsList c) (_obsList c)
          (_typeList c) v (_recType c) (_antList c) (GLOFreq c)
          (GLOFreq_wild c) (_signals c).
Definition set_recType (c : Core) (v : list t_recInfo) : Core :=
  mk_core (_staID c) (_CurrentTime c) (_CurrentObsList c) (_obsList c)
          (_typeList c) (_antType c) v (_antList c) (GLOFreq c)
          (GLOFreq_wild c) (_signals c).
Definition set_antList (c : Core) (v : list t_antRefPoint) : Core :=
  mk_core (_staID c) (_CurrentTime c) (_CurrentObsList c) (_obsList c)
          (_typeList c) (_antType c) (_recType c) v (GLOFreq c)
          (GLOFreq_wild c) (_signals c).
Definition emit (c : Core) (s : signal) : Core :=
  mk_core (_staID c) (_CurrentTime c) (_CurrentObsList c) (_obsList c)
          (_typeList c) (_antType c) (_recType c) (_antList c) (GLOFreq c)
          (GLOFreq_wild c) (_signals c ++ [s]).

(** [GLOFreq[idx] = v].  The table has 64 entries; a store with another
    index is undefined behaviour in C: the model leaves the table alone and
    records the store in [GLOFreq_wild]. *)
Fixpoint list_set {A} (l : list A) (n : nat) (v : A) : list A :=
  match l, n with
  | [], _ => []
  | _ :: tl, O => v :: tl
  | x :: tl, S n' => x :: list_set tl n' v
  end.

Definition GLOFreq_store (c : Core) (idx v : Z) : Core :=
  if (0 <=? idx) && (idx <? RTCM3_MSM_NUMSAT)
  then mk_core (_staID c) (_CurrentTime c) (_CurrentObsList c) (_obsList c)
               (_typeList c) (_antType c) (_recType c) (_antList c)
               (list_set (GLOFreq c) (Z.to_nat idx) v) (GLOFreq_wild c)
               (_signals c)
  else mk_core (_staID c) (_CurrentTime c) (_CurrentObsList c) (_obsList c)
               (_typeList c) (_antType c) (_recType c) (_antList c)
               (GLOFreq c) (GLOFreq_wild c ++ [(idx, v)]) (_signals c).

Definition GLOFreq_load (c : Core) (idx : Z) : Z :=
  nth (Z.to_nat idx) (GLOFreq c) 0.

(** The state of a fresh decoder (static storage is zero). *)
Definition new_core (staID : string) : Core :=
  mk_core staID time_reset [] [] [] [] [] [] (repeat 0 64) [] [].

(** The constructor sets [_MessageSize], [_SkipBytes], [_BlockSize] and
    [_NeedBytes] to 0 and leaves the array [_Message] as the memory holds
    it. *)
Definition new_framer (memory : list Z) : Framer :=
  mkFramer memory 0 0 0 0.

(** One content of the array of a new decoder, for the examples. *)
Definition stale_memory : list Z := repeat 0xFF MESSAGE_BUFFER.

(** ** Decoder bodies as a small state and early-return monad

    A decoder body reads from the bit cursor, updates the decoder object
    and may leave the function early ([return false] in the source, and
    the [return false] hidden in the macros of bits.h when the message has
    no more bits).  Whatever was stored before an early return stays. *)

Inductive outcome (A : Type) :=
| Next (a : A) (rd : list bool) (c : Core)
| Return (b : bool) (c : Core).
Arguments Next {A} a rd c.
Arguments Return {A} b c.

Definition Dec (A : Type) : Type := list bool -> Core -> outcome A.

Definition ret {A} (a : A) : Dec A := fun rd c => Next a rd c.

Definition bind {A B} (m : Dec A) (k : A -> Dec B) : Dec B :=
  fun rd c =>
    match m rd c with
    | Next a rd' c' => k a rd' c'
    | Return b c' => Return b c'
    end.

Declare Scope dec_scope.
Delimit Scope dec_scope with dec.
Notation "x <- m ;; k" := (bind m (fun x => k))
  (at level 61, m at next level, right associativity) : dec_scope.
Notation "m ;; k" := (bind m (fun _ => k))
  (at level 61, right associativity) : dec_scope.
Notation "' p <- m ;; k" := (bind m (fun x => match x with p => k end))
  (at level 61, p pattern, m at next level, right associativity) : dec_scope.
Local Open Scope dec_scope.

(** [return b;] *)
Definition return_ {A} (b : bool) : Dec A := fun _ c => Return b c.
Definition get_core : Dec Core := fun rd c => Next c rd c.
Definition modify (f : Core -> Core) : Dec unit := fun rd c => Next tt rd (f c).

(** Modelled from the spec: the macros of bits.h (the header is not among
    the sources).  "A lazy MSB-first bit cursor over a byte array";
    "get_bits(n): consume next n bits"; "reading past end is a hard failure
    surfaced to the dispatcher (which discards the frame)": the decoder is
    left with [false].

    The cursor is the list of the bits not consumed yet.  The macros work
    on the variables [data], [size], [numbits] and [bitfield] of the
    calling function: they load whole bytes on demand and count [size] down
    for each byte loaded, so that between two macros fewer than 8 bits are
    buffered and [size] is the number of whole bytes among the bits left
    ([bytes_left]).  [DecodeGalileoEphemeris] tests [size] after its first
    read; it reads 502 bits of a message which it requires to have 61 bytes
    left after the first two. *)
Definition GETBITS (n : nat) : Dec Z :=
  fun rd c =>
    if (length rd <? n)%nat then Return false c
    else Next (value_of (firstn n rd)) (skipn n rd) c.

(** The value of [size] between two macros. *)
Definition bytes_left : Dec Z :=
  fun rd c => Next (Z.of_nat (length rd / 8)) rd c.

(** The 64-bit variant keeps what fits into a [uint64_t]. *)
Definition GETBITS64 (n : nat) : Dec Z :=
  v <- GETBITS n ;; ret (v mod 2 ^ 64).

Definition SKIPBITS (n : nat) : Dec unit :=
  _ <- GETBITS n ;; ret tt.

Definition GETBITSSIGN (n : nat) : Dec Z :=
  v <- GETBITS n ;; ret (signed_of n v).

Definition GETBITSFACTOR (n : nat) (f : Z) : Dec Z :=
  v <- GETBITS n ;; ret (v * f).

(** [GETBITS] into a variable of type [double]. *)
Definition GETBITS_double (n : nat) : Dec Q :=
  v <- GETBITS n ;; ret (inject_Z v).

Definition GETFLOAT (n : nat) (scale : Q) : Dec Q :=
  v <- GETBITS n ;; ret (inject_Z v * scale)%Q.

Definition GETFLOATSIGN (n : nat) (scale : Q) : Dec Q :=
  v <- GETBITSSIGN n ;; ret (inject_Z v * scale)%Q.

Definition GETFLOATSIGNM (n : nat) (scale : Q) : Dec Q :=
  v <- GETBITS n ;; ret (inject_Z (signmag_of n v) * scale)%Q.

(** [GETSTRING(b, s)]: an 8-bit length and that many characters. *)
Fixpoint GETCHARS (n : nat) : Dec (list Z) :=
  match n with
  | O => ret []
  | S n' => ch <- GETBITS 8 ;; tl <- GETCHARS n' ;; ret (ch :: tl)
  end.

Definition GETSTRING : Dec (Z * list Z) :=
  b <- GETBITS 8 ;; s <- GETCHARS (Z.to_nat b) ;; ret (b, s).

(** [data += 3; size -= 6;]: the cursor over the [size - 6] bytes behind the
    three header bytes.  [GetMessage] yields blocks of at least 6 bytes, or,
    when it stalls, a block size of 0: there [size - 6] is negative in C,
    and the model takes the payload to be empty. *)
Definition payload_bits (data : list Z) (size : Z) : list bool :=
  bits_of_bytes (firstn (Z.to_nat (size - 6)) (skipn 3 data)).

(** A decoder function: its body run to its [return]. *)
Definition run_body (body : Dec bool) (rd : list bool) (c : Core) : bool * Core :=
  match body rd c with
  | Next b _ c' => (b, c')
  | Return b c' => (b, c')
  end.

(** ** Constants of gnss.h *)

Module Gnss.
Local Open Scope Q_scope.

Definition LIGHTSPEED : Q := 2.99792458e8.
Definition GPS_FREQU_L1 : Q := 1575420000.0.
Definition GPS_FREQU_L2 : Q := 1227600000.0.
Definition GPS_FREQU_L5 : Q := 1176450000.0.
Definition GPS_WAVELENGTH_L1 : Q := LIGHTSPEED / GPS_FREQU_L1.
Definition GPS_WAVELENGTH_L2 : Q := LIGHTSPEED / GPS_FREQU_L2.
Definition GPS_WAVELENGTH_L5 : Q := LIGHTSPEED / GPS_FREQU_L5.

Definition GLO_FREQU_L1_BASE : Q := 1602000000.0.
Definition GLO_FREQU_L2_BASE : Q := 1246000000.0.
Definition GLO_FREQU_L1_STEP : Q := 562500.0.
Definition GLO_FREQU_L2_STEP : Q := 437500.0.
Definition GLO_FREQU_L1 (a : Z) : Q := GLO_FREQU_L1_BASE + inject_Z a * GLO_FREQU_L1_STEP.
Definition GLO_FREQU_L2 (a : Z) : Q := GLO_FREQU_L2_BASE + inject_Z a * GLO_FREQU_L2_STEP.
Definition GLO_FREQU_L1a : Q := 1600995000.0.
Definition GLO_FREQU_L2a : Q := 1248060000.0.
Definition GLO_FREQU_L3 : Q := 1202025000.0.
Definition GLO_WAVELENGTH_L1 (a : Z) : Q := LIGHTSPEED / GLO_FREQU_L1 a.
Definition GLO_WAVELENGTH_L2 (a : Z) : Q := LIGHTSPEED / GLO_FREQU_L2 a.
Definition GLO_WAVELENGTH_L1a : Q := LIGHTSPEED / GLO_FREQU_L1a.
Definition GLO_WAVELENGTH_L2a : Q := LIGHTSPEED / GLO_FREQU_L2a.
Definition GLO_WAVELENGTH_L3 : Q := LIGHTSPEED / GLO_FREQU_L3.

Definition GAL_WAVELENGTH_E1 : Q := LIGHTSPEED / 1575420000.0.
Definition GAL_WAVELENGTH_E5A : Q := LIGHTSPEED / 1176450000.0.
Definition GAL_WAVELENGTH_E5AB : Q := LIGHTSPEED / 1191795000.0.
Definition GAL_WAVELENGTH_E5B : Q := LIGHTSPEED / 1207140000.0.
Definition GAL_WAVELENGTH_E6 : Q := LIGHTSPEED / 1278750000.0.

Definition QZSS_WAVELENGTH_L6 : Q := LIGHTSPEED / 1278750000.0.

Definition BDS_WAVELENGTH_B1 : Q := LIGHTSPEED / 1561098000.0.
Definition BDS_WAVELENGTH_B2 : Q := LIGHTSPEED / 1207140000.0.
Definition BDS_WAVELENGTH_B3 : Q := LIGHTSPEED / 1268520000.0.
Definition BDS_WAVELENGTH_B1C : Q := LIGHTSPEED / 1575420000.0.
Definition BDS_WAVELENGTH_B2a : Q := LIGHTSPEED / 1176450000.0.
Definition BDS_WAVELENGTH_B2b : Q := LIGHTSPEED / 1207140000.0.

Definition IRNSS_WAVELENGTH_L5 : Q := LIGHTSPEED / 1176450000.0.
Definition IRNSS_WAVELENGTH_S : Q := LIGHTSPEED / 2492028000.0.

Definition R2R_PI : Q := 3.1415926535898.
End Gnss.
Export Gnss.

(** ** The epoch accumulator *)

(** [_obsList.append(_CurrentObsList); _CurrentObsList.clear();] with
    [decoded = true], when the epoch of the message is a new one. *)
Definition flush_on_new_epoch (CurrentObsTime : bncTime) : Dec bool :=
  c <- get_core ;;
  if time_valid (_CurrentTime c) && time_ne CurrentObsTime (_CurrentTime c)
  then modify (fun c => set_CurrentObsList
                          (set_obsList c (_obsList c ++ [_CurrentObsList c])) []) ;;
       ret true
  else ret false.

(** The tail of the three observation decoders:
    [if (!syncf) { decoded = true; _obsList.append(_CurrentObsList);
                   _CurrentTime.reset(); _CurrentObsList.clear(); }
     return decoded;] *)
Definition flush_unless_sync (syncf : Z) (decoded : bool) : Dec bool :=
  if syncf =? 0
  then modify (fun c => set_CurrentObsList
                          (set_CurrentTime
                             (set_obsList c (_obsList c ++ [_CurrentObsList c]))
                             time_reset) []) ;;
       ret true
  else ret decoded.

Definition push_CurrentObs (o : t_satObs) : Dec unit :=
  modify (fun c => set_CurrentObsList c (_CurrentObsList c ++ [o])).

(** Field updates of [t_frqObs]. *)
Definition frq_rnx (f : t_frqObs) (s : string) : t_frqObs :=
  mk_frqObs s (_code f) (_codeValid f) (_phase f) (_phaseValid f)
            (_doppler f) (_dopplerValid f) (_snr f) (_snrValid f)
            (_lockTime f) (_lockTimeValid f) (_lockTimeIndicator f).
Definition frq_code (f : t_frqObs) (v : Q) (ok : bool) : t_frqObs :=
  mk_frqObs (_rnxType2ch f) v ok (_phase f) (_phaseValid f)
            (_doppler f) (_dopplerValid f) (_snr f) (_snrValid f)
            (_lockTime f) (_lockTimeValid f) (_lockTimeIndicator f).
Definition frq_phase (f : t_frqObs) (v : Q) (ok : bool) : t_frqObs :=
  mk_frqObs (_rnxType2ch f) (_code f) (_codeValid f) v ok
            (_doppler f) (_dopplerValid f) (_snr f) (_snrValid f)
            (_lockTime f) (_lockTimeValid f) (_lockTimeIndicator f).
Definition frq_doppler (f : t_frqObs) (v : Q) (ok : bool) : t_frqObs :=
  mk_frqObs (_rnxType2ch f) (_code f) (_codeValid f) (_phase f) (_phaseValid f)
            v ok (_snr f) (_snrValid f)
            (_lockTime f) (_lockTimeValid f) (_lockTimeIndicator f).
Definition frq_snr (f : t_frqObs) (v : Q) (ok : bool) : t_frqObs :=
  mk_frqObs (_rnxType2ch f) (_code f) (_codeValid f) (_phase f) (_phaseValid f)
            (_doppler f) (_dopplerValid f) v ok
            (_lockTime f) (_lockTimeValid f) (_lockTimeIndicator f).
Definition frq_lock (f : t_frqObs) (ind : Z) (sec : Q) (ok : bool) : t_frqObs :=
  mk_frqObs (_rnxType2ch f) (_code f) (_codeValid f) (_phase f) (_phaseValid f)
            (_doppler f) (_dopplerValid f) (_snr f) (_snrValid f)
            sec ok ind.

Definition Qge0 (x : Q) : bool := Qle_bool 0 x.
Definition Qltb (x y : Q) : bool := negb (Qle_bool y x).

(** [(i & ((1 << n) - 1)) != sentinel] on a sign-extended field. *)
Definition not_sentinel (i : Z) (n : Z) (sentinel : Z) : bool :=
  negb (Z.land i (Z.shiftl 1 n - 1) =? sentinel).

Section Decoders.

Variable env : Env.

(** ** Legacy GPS observations  (RTCM3Decoder::DecodeRTCM3GPS) *)

(** The first block of the satellite loop: L1. *)
Definition gps_L1 (type : Z) : Dec (t_frqObs * Z * Z) :=
  let frqObs := new_frqObs in
  code <- GETBITS 1 ;;
  let frqObs := frq_rnx frqObs (if code =? 0 then "1C" else "1W") in
  l1range <- GETBITS 24 ;;
  i <- GETBITSSIGN 20 ;;
  let frqObs :=
    if not_sentinel i 20 0x80000
    then frq_phase (frq_code frqObs (inject_Z l1range * 0.02)%Q true)
           ((inject_Z l1range * 0.02 + inject_Z i * 0.0005) / GPS_WAVELENGTH_L1)%Q
           true
    else frqObs in
  lti <- GETBITS 7 ;;
  let frqObs := frq_lock frqObs lti (lti2sec env type lti)
                  (Qge0 (lti2sec env type lti) && _phaseValid frqObs) in
  if (type =? 1002) || (type =? 1004) then
    amb <- GETBITS 8 ;;
    let frqObs :=
      if amb =? 0 then frqObs
      else frq_phase
             (frq_code frqObs (_code frqObs + inject_Z amb * 299792.458)%Q
                       (_codeValid frqObs))
             (_phase frqObs + (inject_Z amb * 299792.458) / GPS_WAVELENGTH_L1)%Q
             (_phaseValid frqObs) in
    i <- GETBITS 8 ;;
    let frqObs :=
      if i =? 0 then frqObs else frq_snr frqObs (inject_Z i * 0.25)%Q true in
    ret (frqObs, l1range, amb)
  else ret (frqObs, l1range, 0).

(** The second block: L2, for 1003 and 1004. *)
Definition gps_L2 (type l1range amb : Z) : Dec t_frqObs :=
  let frqObs := new_frqObs in
  code <- GETBITS 2 ;;
  let frqObs :=
    if code =? 3 then frq_rnx frqObs "2W"
    else if code =? 2 then frq_rnx frqObs "2W"
    else if code =? 1 then frq_rnx frqObs "2P"
    else if code =? 0 then frq_rnx frqObs "2X"
    else frqObs in
  i <- GETBITSSIGN 14 ;;
  let frqObs :=
    if not_sentinel i 14 0x2000
    then frq_code frqObs
           (inject_Z l1range * 0.02 + inject_Z i * 0.02
            + inject_Z amb * 299792.458)%Q true
    else frqObs in
  i <- GETBITSSIGN 20 ;;
  let frqObs :=
    if not_sentinel i 20 0x80000
    then frq_phase frqObs
           ((inject_Z l1range * 0.02 + inject_Z i * 0.0005
             + inject_Z amb * 299792.458) / GPS_WAVELENGTH_L2)%Q true
    else frqObs in
  lti <- GETBITS 7 ;;
  let frqObs := frq_lock frqObs lti (lti2sec env type lti)
                  (Qge0 (lti2sec env type lti) && _phaseValid frqObs) in
  if type =? 1004 then
    i <- GETBITS 8 ;;
    ret (if i =? 0 then frqObs else frq_snr frqObs (inject_Z i * 0.25)%Q true)
  else ret frqObs.

(** [CurrentObs._prn] of the GPS decoder. *)
Definition gps_prn (sv : Z) : t_prn :=
  if sv <? 40 then mk_prn "G" sv 0 else mk_prn "S" (sv - 20) 0.

(** One turn of [while (numsats--)]. *)
Definition gps_sat (type : Z) (CurrentObsTime : bncTime) : Dec unit :=
  sv <- GETBITS 6 ;;
  let CurrentObs := mk_satObs (gps_prn sv) CurrentObsTime type [] in
  '(frqObs, l1range, amb) <- gps_L1 type ;;
  let CurrentObs := mk_satObs (_prn CurrentObs) (_time CurrentObs)
                              (_type CurrentObs) (_obs CurrentObs ++ [frqObs]) in
  if (type =? 1003) || (type =? 1004) then
    frqObs <- gps_L2 type l1range amb ;;
    push_CurrentObs (mk_satObs (_prn CurrentObs) (_time CurrentObs)
                               (_type CurrentObs) (_obs CurrentObs ++ [frqObs]))
  else push_CurrentObs CurrentObs.

Fixpoint repeat_dec (n : nat) (m : Dec unit) : Dec unit :=
  match n with
  | O => ret tt
  | S n' => m ;; repeat_dec n' m
  end.

Definition DecodeRTCM3GPS_body : Dec bool :=
  type <- GETBITS 12 ;;
  SKIPBITS 12 ;;
  i <- GETBITS 30 ;;
  let CurrentObsTime := mk_time true (time_of_gps env i) in
  decoded <- flush_on_new_epoch CurrentObsTime ;;
  modify (fun c => set_CurrentTime c CurrentObsTime) ;;
  syncf <- GETBITS 1 ;;
  numsats <- GETBITS 5 ;;
  SKIPBITS 4 ;;
  repeat_dec (Z.to_nat numsats) (gps_sat type CurrentObsTime) ;;
  flush_unless_sync syncf decoded.

Definition DecodeRTCM3GPS (data : list Z) (size : Z) (c : Core) : bool * Core :=
  run_body DecodeRTCM3GPS_body (payload_bits data size) c.

(** ** Legacy GLONASS observations  (RTCM3Decoder::DecodeRTCM3GLONASS) *)

Definition glo_L1 (type code freq : Z) : Dec (t_frqObs * Z * Z) :=
  let frqObs := new_frqObs in
  let frqObs := frq_rnx frqObs (if code =? 0 then "1C" else "1P") in
  l1range <- GETBITS 25 ;;
  i <- GETBITSSIGN 20 ;;
  let frqObs :=
    if not_sentinel i 20 0x80000
    then frq_phase (frq_code frqObs (inject_Z l1range * 0.02)%Q true)
           ((inject_Z l1range * 0.02 + inject_Z i * 0.0005)
            / GLO_WAVELENGTH_L1 (freq - 7))%Q
           true
    else frqObs in
  lti <- GETBITS 7 ;;
  let frqObs := frq_lock frqObs lti (lti2sec env type lti)
                  (Qge0 (lti2sec env type lti) && _phaseValid frqObs) in
  if (type =? 1010) || (type =? 1012) then
    amb <- GETBITS 7 ;;
    let frqObs :=
      if amb =? 0 then frqObs
      else frq_phase
             (frq_code frqObs (_code frqObs + inject_Z amb * 599584.916)%Q
                       (_codeValid frqObs))
             (_phase frqObs
              + (inject_Z amb * 599584.916) / GLO_WAVELENGTH_L1 (freq - 7))%Q
             (_phaseValid frqObs) in
    i <- GETBITS 8 ;;
    let frqObs :=
      if i =? 0 then frqObs else frq_snr frqObs (inject_Z i * 0.25)%Q true in
    ret (frqObs, l1range, amb)
  else ret (frqObs, l1range, 0).

Definition glo_L2 (type l1range amb freq : Z) : Dec t_frqObs :=
  let frqObs := new_frqObs in
  code <- GETBITS 2 ;;
  let frqObs :=
    if code =? 3 then frq_rnx frqObs "2P"
    else if code =? 2 then frq_rnx frqObs "2P"
    else if code =? 1 then frq_rnx frqObs "2P"
    else if code =? 0 then frq_rnx frqObs "2C"
    else frqObs in
  i <- GETBITSSIGN 14 ;;
  let frqObs :=
    if not_sentinel i 14 0x2000
    then frq_code frqObs
           (inject_Z l1range * 0.02 + inject_Z i * 0.02
            + inject_Z amb * 599584.916)%Q true
    else frqObs in
  i <- GETBITSSIGN 20 ;;
  let frqObs :=
    if not_sentinel i 20 0x80000
    then frq_phase frqObs
           ((inject_Z l1range * 0.02 + inject_Z i * 0.0005
             + inject_Z amb * 599584.916) / GLO_WAVELENGTH_L2 (freq - 7))%Q true
    else frqObs in
  lti <- GETBITS 7 ;;
  let frqObs := frq_lock frqObs lti (lti2sec env type lti)
                  (Qge0 (lti2sec env type lti) && _phaseValid frqObs) in
  if type =? 1012 then
    i <- GETBITS 8 ;;
    ret (if i =? 0 then frqObs else frq_snr frqObs (inject_Z i * 0.25)%Q true)
  else ret frqObs.

(** One turn of [while (numsats--)]. *)
Definition glo_sat (type : Z) (CurrentObsTime : bncTime) : Dec unit :=
  sv <- GETBITS 6 ;;
  let CurrentObs := mk_satObs (mk_prn "R" sv 0) CurrentObsTime type [] in
  code <- GETBITS 1 ;;
  freq <- GETBITS 5 ;;
  (* store frequency for other users (MSM) *)
  modify (fun c => GLOFreq_store c (sv - 1) (100 + freq - 7)) ;;
  '(frqObs, l1range, amb) <- glo_L1 type code freq ;;
  let CurrentObs := mk_satObs (_prn CurrentObs) (_time CurrentObs)
                              (_type CurrentObs) (_obs CurrentObs ++ [frqObs]) in
  if (type =? 1011) || (type =? 1012) then
    frqObs <- glo_L2 type l1range amb freq ;;
    push_CurrentObs (mk_satObs (_prn CurrentObs) (_time CurrentObs)
                               (_type CurrentObs) (_obs CurrentObs ++ [frqObs]))
  else push_CurrentObs CurrentObs.

Definition DecodeRTCM3GLONASS_body : Dec bool :=
  type <- GETBITS 12 ;;
  SKIPBITS 12 ;;
  i <- GETBITS 27 ;;
  let CurrentObsTime := mk_time true (time_of_tk env i) in
  decoded <- flush_on_new_epoch CurrentObsTime ;;
  modify (fun c => set_CurrentTime c CurrentObsTime) ;;
  syncf <- GETBITS 1 ;;
  numsats <- GETBITS 5 ;;
  SKIPBITS 4 ;;
  repeat_dec (Z.to_nat numsats) (glo_sat type CurrentObsTime) ;;
  flush_unless_sync syncf decoded.

Definition DecodeRTCM3GLONASS (data : list Z) (size : Z) (c : Core) : bool * Core :=
  run_body DecodeRTCM3GLONASS_body (payload_bits data size) c.

(** ** MSM observations  (RTCM3Decoder::DecodeRTCM3MSM) *)

(** [struct CodeData]: wavelength and RINEX code; a null code marks a
    reserved signal. *)
Record CodeData := mk_cd {
  wl   : Q;
  code : option string
}.

Definition gps : list CodeData :=
  [
    mk_cd (0.0) None;
    mk_cd GPS_WAVELENGTH_L1 (Some "1C"%string);
    mk_cd GPS_WAVELENGTH_L1 (Some "1P"%string);
    mk_cd GPS_WAVELENGTH_L1 (Some "1W"%string);
    mk_cd (0.0) None;
    mk_cd (0.0) None;
    mk_cd (0.0) None;
    mk_cd GPS_WAVELENGTH_L2 (Some "2C"%string);
    mk_cd GPS_WAVELENGTH_L2 (Some "2P"%string);
    mk_cd GPS_WAVELENGTH_L2 (Some "2W"%string);
    mk_cd (0.0) None;
    mk_cd (0.0) None;
    mk_cd (0.0) None;
    mk_cd (0.0) None;
    mk_cd GPS_WAVELENGTH_L2 (Some "2S"%string);
    mk_cd GPS_WAVELENGTH_L2 (Some "2L"%string);
    mk_cd GPS_WAVELENGTH_L2 (Some "2X"%string);
    mk_cd (0.0) None;
    mk_cd (0.0) None;
    mk_cd (0.0) None;
    mk_cd (0.0) None;
    mk_cd GPS_WAVELENGTH_L5 (Some "5I"%string);
    mk_cd GPS_WAVELENGTH_L5 (Some "5Q"%string);
    mk_cd GPS_WAVELENGTH_L5 (Some "5X"%string);
    mk_cd (0.0) None;
    mk_cd (0.0) None;
    mk_cd (0.0) None;
    mk_cd (0.0) None;
    mk_cd (0.0) None;
    mk_cd GPS_WAVELENGTH_L1 (Some "1S"%string);
    mk_cd GPS_WAVELENGTH_L1 (Some "1L"%string);
    mk_cd GPS_WAVELENGTH_L1 (Some "1X"%string)
  ].

Definition glo : list CodeData :=
  [
    mk_cd (0.0) None;
    mk_cd (0.0) (Some "1C"%string);
    mk_cd (0.0) (Some "1P"%string);
    mk_cd (0.0) None;
    mk_cd (0.0) None;
    mk_cd (0.0) None;
    mk_cd (0.0) None;
    mk_cd (1.0) (Some "2C"%string);
    mk_cd (1.0) (Some "2P"%string);
    mk_cd GLO_WAVELENGTH_L1a (Some "4A"%string);
    mk_cd GLO_WAVELENGTH_L1a (Some "4B"%string);
    mk_cd GLO_WAVELENGTH_L1a (Some "4X"%string);
    mk_cd GLO_WAVELENGTH_L2a (Some "6A"%string);
    mk_cd GLO_WAVELENGTH_L2a (Some "6B"%string);
    mk_cd GLO_WAVELENGTH_L2a (Some "6X"%string);
    mk_cd GLO_WAVELENGTH_L3 (Some "3I"%string);
    mk_cd GLO_WAVELENGTH_L3 (Some "3Q"%string);
    mk_cd GLO_WAVELENGTH_L3 (Some "3X"%string);
    mk_cd (0.0) None;
    mk_cd (0.0) None;
    mk_cd (0.0) None;
    mk_cd (0.0) None;
    mk_cd (0.0) None;
    mk_cd (0.0) None;
    mk_cd (0.0) None;
    mk_cd (0.0) None;
    mk_cd (0.0) None;
    mk_cd (0.0) None;
    mk_cd (0.0) None;
    mk_cd (0.0) None;
    mk_cd (0.0) None;
    mk_cd (0.0) None
  ].

Definition gal : list CodeData :=
  [
    mk_cd (0.0) None;
    mk_cd GAL_WAVELENGTH_E1 (Some "1C"%string);
    mk_cd GAL_WAVELENGTH_E1 (Some "1A"%string);
    mk_cd GAL_WAVELENGTH_E1 (Some "1B"%string);
    mk_cd GAL_WAVELENGTH_E1 (Some "1X"%string);
    mk_cd GAL_WAVELENGTH_E1 (Some "1Z"%string);
    mk_cd (0.0) None;
    mk_cd GAL_WAVELENGTH_E6 (Some "6C"%string);
    mk_cd GAL_WAVELENGTH_E6 (Some "6A"%string);
    mk_cd GAL_WAVELENGTH_E6 (Some "6B"%string);
    mk_cd GAL_WAVELENGTH_E6 (Some "6X"%string);
    mk_cd GAL_WAVELENGTH_E6 (Some "6Z"%string);
    mk_cd (0.0) None;
    mk_cd GAL_WAVELENGTH_E5B (Some "7I"%string);
    mk_cd GAL_WAVELENGTH_E5B (Some "7Q"%string);
    mk_cd GAL_WAVELENGTH_E5B (Some "7X"%string);
    mk_cd (0.0) None;
    mk_cd GAL_WAVELENGTH_E5AB (Some "8I"%string);
    mk_cd GAL_WAVELENGTH_E5AB (Some "8Q"%string);
    mk_cd GAL_WAVELENGTH_E5AB (Some "8X"%string);
    mk_cd (0.0) None;
    mk_cd GAL_WAVELENGTH_E5A (Some "5I"%string);
    mk_cd GAL_WAVELENGTH_E5A (Some "5Q"%string);
    mk_cd GAL_WAVELENGTH_E5A (Some "5X"%string);
    mk_cd (0.0) None;
    mk_cd (0.0) None;
    mk_cd (0.0) None;
    mk_cd (0.0) None;
    mk_cd (0.0) None;
    mk_cd (0.0) None;
    mk_cd (0.0) None;
    mk_cd (0.0) None
  ].

Definition qzss : list CodeData :=
  [
    mk_cd (0.0) None;
    mk_cd GPS_WAVELENGTH_L1 (Some "1C"%string);
    mk_cd (0.0) None;
    mk_cd (0.0) None;
    mk_cd (0.0) None;
    mk_cd (0.0) None;
    mk_cd (0.0) None;
    mk_cd (0.0) None;
    mk_cd QZSS_WAVELENGTH_L6 (Some "6S"%string);
    mk_cd QZSS_WAVELENGTH_L6 (Some "6L"%string);
    mk_cd QZSS_WAVELENGTH_L6 (Some "6X"%string);
    mk_cd (0.0) None;
    mk_cd (0.0) None;
    mk_cd (0.0) None;
    mk_cd GPS_WAVELENGTH_L2 (Some "2S"%string);
    mk_cd GPS_WAVELENGTH_L2 (Some "2L"%string);
    mk_cd GPS_WAVELENGTH_L2 (Some "2X"%string);
    mk_cd (0.0) None;
    mk_cd (0.0) None;
    mk_cd (0.0) None;
    mk_cd (0.0) None;
    mk_cd GPS_WAVELENGTH_L5 (Some "5I"%string);
    mk_cd GPS_WAVELENGTH_L5 (Some "5Q"%string);
    mk_cd GPS_WAVELENGTH_L5 (Some "5X"%string);
    mk_cd (0.0) None;
    mk_cd (0.0) None;
    mk_cd (0.0) None;
    mk_cd (0.0) None;
    mk_cd (0.0) None;
    mk_cd GPS_WAVELENGTH_L1 (Some "1S"%string);
    mk_cd GPS_WAVELENGTH_L1 (Some "1L"%string);
    mk_cd GPS_WAVELENGTH_L1 (Some "1X"%string)
  ].

Definition bds : list CodeData :=
  [
    mk_cd (0.0) None;
    mk_cd BDS_WAVELENGTH_B1 (Some "2I"%string);
    mk_cd BDS_WAVELENGTH_B1 (Some "2Q"%string);
    mk_cd BDS_WAVELENGTH_B1 (Some "2X"%string);
    mk_cd (0.0) None;
    mk_cd (0.0) None;
    mk_cd (0.0) None;
    mk_cd BDS_WAVELENGTH_B3 (Some "6I"%string);
    mk_cd BDS_WAVELENGTH_B3 (Some "6Q"%string);
    mk_cd BDS_WAVELENGTH_B3 (Some "6X"%string);
    mk_cd (0.0) None;
    mk_cd (0.0) None;
    mk_cd (0.0) None;
    mk_cd BDS_WAVELENGTH_B2 (Some "7I"%string);
    mk_cd BDS_WAVELENGTH_B2 (Some "7Q"%string);
    mk_cd BDS_WAVELENGTH_B2 (Some "7X"%string);
    mk_cd (0.0) None;
    mk_cd (0.0) None;
    mk_cd (0.0) None;
    mk_cd (0.0) None;
    mk_cd (0.0) None;
    mk_cd BDS_WAVELENGTH_B2a (Some "5D"%string);
    mk_cd BDS_WAVELENGTH_B2a (Some "5P"%string);
    mk_cd BDS_WAVELENGTH_B2a (Some "5X"%string);
    mk_cd BDS_WAVELENGTH_B2b (Some "7D"%string);
    mk_cd (0.0) None;
    mk_cd (0.0) None;
    mk_cd (0.0) None;
    mk_cd (0.0) None;
    mk_cd BDS_WAVELENGTH_B1C (Some "1D"%string);
    mk_cd BDS_WAVELENGTH_B1C (Some "1P"%string);
    mk_cd BDS_WAVELENGTH_B1C (Some "1X"%string)
  ].

Definition irn : list CodeData :=
  [
    mk_cd (0.0) None;
    mk_cd (0.0) None;
    mk_cd (0.0) None;
    mk_cd (0.0) None;
    mk_cd (0.0) None;
    mk_cd (0.0) None;
    mk_cd (0.0) None;
    mk_cd IRNSS_WAVELENGTH_S (Some "9A"%string);
    mk_cd (0.0) None;
    mk_cd (0.0) None;
    mk_cd (0.0) None;
    mk_cd (0.0) None;
    mk_cd (0.0) None;
    mk_cd (0.0) None;
    mk_cd (0.0) None;
    mk_cd (0.0) None;
    mk_cd (0.0) None;
    mk_cd (0.0) None;
    mk_cd (0.0) None;
    mk_cd (0.0) None;
    mk_cd (0.0) None;
    mk_cd IRNSS_WAVELENGTH_L5 (Some "5A"%string);
    mk_cd (0.0) None;
    mk_cd (0.0) None;
    mk_cd (0.0) None;
    mk_cd (0.0) None;
    mk_cd (0.0) None;
    mk_cd (0.0) None;
    mk_cd (0.0) None;
    mk_cd (0.0) None;
    mk_cd (0.0) None;
    mk_cd (0.0) None
  ].

(** The number of bits set among the lowest [n] (the source counts them
    with [x &= x - 1]). *)
Fixpoint popcount (n : nat) (v : Z) : Z :=
  match n with
  | O => 0
  | S n' => (if Z.testbit v (Z.of_nat n') then 1 else 0) + popcount n' v
  end.

(** The largest index below [j] whose bit is set in [mask], or [-1]: the
    loops [while (!(mask & (1 << --j)));]. *)
Fixpoint bit_below (mask : Z) (j : nat) : Z :=
  match j with
  | O => -1
  | S j' => if Z.testbit mask (Z.of_nat j') then Z.of_nat j'
            else bit_below mask j'
  end.

(** The constellation of an MSM message number. *)
Definition msm_sys (type : Z) : option ascii :=
  if (1131 <=? type) && (type <=? 1137) then Some "I"%char
  else if (1121 <=? type) && (type <=? 1127) then Some "C"%char
  else if (1111 <=? type) && (type <=? 1117) then Some "J"%char
  else if (1101 <=? type) && (type <=? 1007) then Some "S"%char
  else if (1091 <=? type) && (type <=? 1097) then Some "E"%char
  else if (1081 <=? type) && (type <=? 1087) then Some "R"%char
  else if (1071 <=? type) && (type <=? 1077) then Some "G"%char
  else None.

(** [for (int j = n; j--;) read(arr[j])]: the list is indexed like [arr]. *)
Fixpoint read_down {A} (n : nat) (m : Dec A) : Dec (list A) :=
  match n with
  | O => ret []
  | S n' => v <- m ;; tl <- read_down n' m ;; ret (tl ++ [v])
  end.

(** [for (int count = n; count--;) if (cellmask & (UINT64(1) << count))
      read(arr[count])]; entries that are not read are never looked at and
    are given the value [d].  [count] runs up to 95 while [cellmask] has 64
    bits: the shift of the compiled code takes its count modulo 64, so the
    cells 64 to 95 are tested against the bits 0 to 31. *)
Fixpoint read_cells {A} (d : A) (cellmask : Z) (n : nat) (m : Dec A)
  : Dec (list A) :=
  match n with
  | O => ret []
  | S n' =>
      v <- (if Z.testbit cellmask (Z.of_nat n' mod 64) then m else ret d) ;;
      tl <- read_cells d cellmask n' m ;;
      ret (tl ++ [v])
  end.

(** The arrays filled from one MSM message. *)
Record msm_arrays := mk_msm_arrays {
  rrmod  : list Q;   (* GNSS sat rough ranges modulo 1 millisecond *)
  rrint  : list Z;   (* number of integer msecs in GNSS sat rough ranges *)
  rdop   : list Z;   (* GNSS sat rough phase range rates *)
  extsat : list Z;   (* extended sat info; 15 where nothing was read *)
  ll     : list Z;   (* lock time indicator *)
  cnr    : list Q;   (* signal cnr *)
  cp     : list Q;   (* fine phase range data *)
  psr    : list Q;   (* fine psr *)
  dop    : list Q    (* fine phase range rates *)
}.

Definition arrQ (l : list Q) (k : Z) : Q := nth (Z.to_nat k) l 0%Q.
Definition arrZ (l : list Z) (k : Z) : Z := nth (Z.to_nat k) l 0.
Definition ext_at (a : msm_arrays) (k : Z) : Z := nth (Z.to_nat k) (extsat a) 15.

(** [switch (type % 10)] of the satellite data. *)
Definition msm_sat_data (sub : Z) (numsat : nat) : Dec msm_arrays :=
  if (sub =? 1) || (sub =? 2) || (sub =? 3) then
    rm <- read_down numsat (GETFLOAT 10 (1 / 1024)%Q) ;;
    ret (mk_msm_arrays rm [] [] [] [] [] [] [] [])
  else if (sub =? 4) || (sub =? 6) then
    ri <- read_down numsat (GETBITS 8) ;;
    rm <- read_down numsat (GETFLOAT 10 (1 / 1024)%Q) ;;
    ret (mk_msm_arrays rm ri [] [] [] [] [] [] [])
  else if (sub =? 5) || (sub =? 7) then
    ri <- read_down numsat (GETBITS 8) ;;
    ex <- read_down numsat (GETBITS 4) ;;
    rm <- read_down numsat (GETFLOAT 10 (1 / 1024)%Q) ;;
    rd <- read_down numsat (GETBITSSIGN 14) ;;
    ret (mk_msm_arrays rm ri rd ex [] [] [] [] [])
  else ret (mk_msm_arrays [] [] [] [] [] [] [] [] []).

Definition two_pow (n : Z) : Q := inject_Z (2 ^ n).

(** [switch (type % 10)] of the signal data. *)
Definition msm_sig_data (sub : Z) (cellmask : Z) (numcells : nat)
           (a : msm_arrays) : Dec msm_arrays :=
  let cells {A} (d : A) (m : Dec A) := read_cells d cellmask numcells m in
  let skip1 := cells tt (SKIPBITS 1) in
  if sub =? 1 then
    p <- cells 0%Q (GETFLOATSIGN 15 (1 / two_pow 24)%Q) ;;
    ret (mk_msm_arrays (rrmod a) (rrint a) (rdop a) (extsat a) [] [] [] p [])
  else if sub =? 2 then
    ph <- cells 0%Q (GETFLOATSIGN 22 (1 / two_pow 29)%Q) ;;
    l <- cells 0 (GETBITS 4) ;;
    _ <- skip1 ;;
    ret (mk_msm_arrays (rrmod a) (rrint a) (rdop a) (extsat a) l [] ph [] [])
  else if sub =? 3 then
    p <- cells 0%Q (GETFLOATSIGN 15 (1 / two_pow 24)%Q) ;;
    ph <- cells 0%Q (GETFLOATSIGN 22 (1 / two_pow 29)%Q) ;;
    l <- cells 0 (GETBITS 4) ;;
    _ <- skip1 ;;
    ret (mk_msm_arrays (rrmod a) (rrint a) (rdop a) (extsat a) l [] ph p [])
  else if sub =? 4 then
    p <- cells 0%Q (GETFLOATSIGN 15 (1 / two_pow 24)%Q) ;;
    ph <- cells 0%Q (GETFLOATSIGN 22 (1 / two_pow 29)%Q) ;;
    l <- cells 0 (GETBITS 4) ;;
    _ <- skip1 ;;
    cn <- cells 0%Q (GETBITS_double 6) ;;
    ret (mk_msm_arrays (rrmod a) (rrint a) (rdop a) (extsat a) l cn ph p [])
  else if sub =? 5 then
    p <- cells 0%Q (GETFLOATSIGN 15 (1 / two_pow 24)%Q) ;;
    ph <- cells 0%Q (GETFLOATSIGN 22 (1 / two_pow 29)%Q) ;;
    l <- cells 0 (GETBITS 4) ;;
    _ <- skip1 ;;
    cn <- cells 0%Q (GETFLOAT 6 1%Q) ;;
    dp <- cells 0%Q (GETFLOATSIGN 15 0.0001%Q) ;;
    ret (mk_msm_arrays (rrmod a) (rrint a) (rdop a) (extsat a) l cn ph p dp)
  else if sub =? 6 then
    p <- cells 0%Q (GETFLOATSIGN 20 (1 / two_pow 29)%Q) ;;
    ph <- cells 0%Q (GETFLOATSIGN 24 (1 / two_pow 31)%Q) ;;
    l <- cells 0 (GETBITS 10) ;;
    _ <- skip1 ;;
    cn <- cells 0%Q (GETFLOAT 10 (1 / two_pow 4)%Q) ;;
    ret (mk_msm_arrays (rrmod a) (rrint a) (rdop a) (extsat a) l cn ph p [])
  else if sub =? 7 then
    p <- cells 0%Q (GETFLOATSIGN 20 (1 / two_pow 29)%Q) ;;
    ph <- cells 0%Q (GETFLOATSIGN 24 (1 / two_pow 31)%Q) ;;
    l <- cells 0 (GETBITS 10) ;;
    _ <- skip1 ;;
    cn <- cells 0%Q (GETFLOAT 10 (1 / two_pow 4)%Q) ;;
    dp <- cells 0%Q (GETFLOATSIGN 15 0.0001%Q) ;;
    ret (mk_msm_arrays (rrmod a) (rrint a) (rdop a) (extsat a) l cn ph p dp)
  else ret a.

(** The wavelength and code of the signal at [j] for the satellite at [i]
    (the [switch (sys)] of the cell loop).  For GLONASS the frequency
    number is taken from [GLOFreq], or from the extended satellite
    information of MSM5/7, which is also stored into [GLOFreq]. *)
Definition msm_codedata (sys : ascii) (i j numsat : Z) (a : msm_arrays)
           (c : Core) : CodeData * Core :=
  let sig := Z.to_nat (RTCM3_MSM_NUMSIG - j - 1) in
  let cd0 := mk_cd 0.0 None in
  if Ascii.eqb sys "J" then (nth sig qzss cd0, c)
  else if Ascii.eqb sys "C" then (nth sig bds cd0, c)
  else if Ascii.eqb sys "G" || Ascii.eqb sys "S" then (nth sig gps cd0, c)
  else if Ascii.eqb sys "R" then
    let cd := nth sig glo cd0 in
    let k := GLOFreq_load c (RTCM3_MSM_NUMSAT - i - 1) in
    let '(k, c) :=
      if ext_at a numsat <? 14
      then (* channel number is available as extended info for MSM5/7 *)
           (100 + ext_at a numsat - 7,
            GLOFreq_store c (RTCM3_MSM_NUMSAT - i - 1) (100 + ext_at a numsat - 7))
      else (k, c) in
    if negb (k =? 0) then
      if Qeq_bool (wl cd) 0.0 then (mk_cd (GLO_WAVELENGTH_L1 (k - 100)) (code cd), c)
      else if Qeq_bool (wl cd) 1.0 then (mk_cd (GLO_WAVELENGTH_L2 (k - 100)) (code cd), c)
      else (cd, c)
    else if (k =? 0) && Qle_bool (wl cd) 1 then (mk_cd (wl cd) None, c)
    else (cd, c)
  else if Ascii.eqb sys "E" then (nth sig gal cd0, c)
  else if Ascii.eqb sys "I" then (nth sig irn cd0, c)
  else (cd0, c).

(** The observation of one cell ([switch (type % 10)] of the cell loop). *)
Definition msm_frqObs (type : Z) (cd : CodeData) (code2ch : string)
           (count numsat : Z) (a : msm_arrays) : t_frqObs :=
  let sub := type mod 10 in
  let frqObs := frq_rnx new_frqObs code2ch in
  let with_code (rough : Q) (f : t_frqObs) :=
    if Qltb (- (1 / two_pow 10)) (arrQ (psr a) count)
    then frq_code f (arrQ (psr a) count * LIGHTSPEED / 1000.0
                     + rough * LIGHTSPEED / 1000.0)%Q true
    else f in
  let with_phase (rough : Q) (f : t_frqObs) :=
    if Qltb (- (1 / two_pow 8)) (arrQ (cp a) count)
    then frq_lock
           (frq_phase f (arrQ (cp a) count * LIGHTSPEED / 1000.0 / wl cd
                         + rough * LIGHTSPEED / 1000.0 / wl cd)%Q true)
           (arrZ (ll a) count) (lti2sec env type (arrZ (ll a) count))
           (Qge0 (lti2sec env type (arrZ (ll a) count)))
    else f in
  let with_snr (f : t_frqObs) := frq_snr f (arrQ (cnr a) count) true in
  let with_doppler (f : t_frqObs) :=
    if Qltb (-1.6384) (arrQ (dop a) count)
    then frq_doppler f (- (arrQ (dop a) count + inject_Z (arrZ (rdop a) numsat))
                        / wl cd)%Q true
    else f in
  let partial := arrQ (rrmod a) numsat in
  let full := (arrQ (rrmod a) numsat + inject_Z (arrZ (rrint a) numsat))%Q in
  if sub =? 1 then with_code partial frqObs
  else if sub =? 2 then with_phase partial frqObs
  else if sub =? 3 then with_phase partial (with_code partial frqObs)
  else if sub =? 4 then with_snr (with_phase full (with_code full frqObs))
  else if sub =? 5 then
    with_doppler (with_snr (with_phase full (with_code full frqObs)))
  else if sub =? 6 then with_snr (with_phase full (with_code full frqObs))
  else if sub =? 7 then
    with_doppler (with_snr (with_phase full (with_code full frqObs)))
  else frqObs.

(** The roving variables of the cell loop. *)
Record msm_walk_state := mk_walk {
  w_i      : Z;          (* satellite bit, from 64 down *)
  w_j      : Z;          (* signal bit, from 32 down, -1 between satellites *)
  w_numsat : Z;          (* index into the satellite arrays *)
  w_obs    : t_satObs    (* CurrentObs *)
}.

Definition msm_prn (sys : ascii) (i : Z) : t_prn :=
  if Ascii.eqb sys "S" then mk_prn sys (20 - 1 + RTCM3_MSM_NUMSAT - i) 0
  else mk_prn sys (RTCM3_MSM_NUMSAT - i) 0.

(** The body of [for (int count = numcells; count--;)]. *)
Definition msm_cell (type : Z) (sys : ascii) (CurrentObsTime : bncTime)
           (satmask sigmask cellmask : Z) (a : msm_arrays)
           (count : nat) (w : msm_walk_state) (c : Core)
  : msm_walk_state * Core :=
  (* while (j >= 0 && !(sigmask & (1 << --j))); *)
  let j := if 0 <=? w_j w then bit_below sigmask (Z.to_nat (w_j w)) else w_j w in
  let '(w, c) :=
    if j <? 0 then
      (* next satellite *)
      let i := bit_below satmask (Z.to_nat (w_i w)) in
      let c := if (0 <? length (_obs (w_obs w)))%nat
               then set_CurrentObsList c (_CurrentObsList c ++ [w_obs w])
               else c in
      let CurrentObs := mk_satObs (msm_prn sys i) CurrentObsTime type [] in
      (mk_walk i (bit_below sigmask (Z.to_nat RTCM3_MSM_NUMSIG))
               (w_numsat w - 1) CurrentObs, c)
    else (mk_walk (w_i w) j (w_numsat w) (w_obs w), c) in
  (* cellmask & (UINT64(1) << count), the count taken modulo 64 *)
  if Z.testbit cellmask (Z.of_nat count mod 64) then
    let '(cd, c) := msm_codedata sys (w_i w) (w_j w) (w_numsat w) a c in
    match code cd with
    | Some code2ch =>
        let frqObs := msm_frqObs type cd code2ch (Z.of_nat count) (w_numsat w) a in
        (mk_walk (w_i w) (w_j w) (w_numsat w)
                 (mk_satObs (_prn (w_obs w)) (_time (w_obs w)) (_type (w_obs w))
                            (_obs (w_obs w) ++ [frqObs])), c)
    | None => (w, c)
    end
  else (w, c).

Fixpoint msm_cells (type : Z) (sys : ascii) (CurrentObsTime : bncTime)
         (satmask sigmask cellmask : Z) (a : msm_arrays)
         (count : nat) (w : msm_walk_state) (c : Core)
  : msm_walk_state * Core :=
  match count with
  | O => (w, c)
  | S count' =>
      let '(w, c) := msm_cell type sys CurrentObsTime satmask sigmask cellmask
                              a count' w c in
      msm_cells type sys CurrentObsTime satmask sigmask cellmask a count' w c
  end.

(** The cell loop with its initialisation and the final
    [if (CurrentObs._obs.size() > 0) _CurrentObsList.push_back(CurrentObs);] *)
Definition msm_walk (type : Z) (sys : ascii) (CurrentObsTime : bncTime)
           (satmask sigmask cellmask : Z) (numsat : Z) (numcells : nat)
           (a : msm_arrays) (c : Core) : Core :=
  let w0 := mk_walk RTCM3_MSM_NUMSAT (-1) numsat new_satObs in
  let '(w, c) := msm_cells type sys CurrentObsTime satmask sigmask cellmask
                           a numcells w0 c in
  if (0 <? length (_obs (w_obs w)))%nat
  then set_CurrentObsList c (_CurrentObsList c ++ [w_obs w])
  else c.

(** The block guarded by
    [type <= 1137 && (type % 10) >= 4 && (type % 10) <= 7]. *)
Definition msm_full (type : Z) (sys : ascii) (CurrentObsTime : bncTime)
  : Dec unit :=
  SKIPBITS (3 + 7 + 2 + 2 + 1 + 3) ;;
  satmask <- GETBITS64 64 ;;
  let numsat := popcount 64 satmask in
  sigmask <- GETBITS 32 ;;
  let numsig := popcount 32 sigmask in
  cellmask <- GETBITS64 (Z.to_nat (numsat * numsig)) ;;
  a <- msm_sat_data (type mod 10) (Z.to_nat numsat) ;;
  let numcells := numsat * numsig in
  (* Drop anything which exceeds our cell limit. *)
  if numcells <=? RTCM3_MSM_NUMCELLS then
    a <- msm_sig_data (type mod 10) cellmask (Z.to_nat numcells) a ;;
    modify (msm_walk type sys CurrentObsTime satmask sigmask cellmask
                     numsat (Z.to_nat numcells) a)
  else ret tt.

Definition DecodeRTCM3MSM_body : Dec bool :=
  type <- GETBITS 12 ;;
  SKIPBITS 12 ;;
  match msm_sys type with
  | None => return_ false
  | Some sys =>
      CurrentObsTime <-
        (if Ascii.eqb sys "C" then
           i <- GETBITS 30 ;; ret (mk_time true (time_of_bds env i))
         else if Ascii.eqb sys "R" then
           SKIPBITS 3 ;;
           i <- GETBITS 27 ;; ret (mk_time true (time_of_tk env i))
         else
           i <- GETBITS 30 ;; ret (mk_time true (time_of_gps env i))) ;;
      decoded <- flush_on_new_epoch CurrentObsTime ;;
      modify (fun c => set_CurrentTime c CurrentObsTime) ;;
      syncf <- GETBITS 1 ;;
      (if (type <=? 1137) && (4 <=? type mod 10) && (type mod 10 <=? 7)
       then msm_full type sys CurrentObsTime
       else if type mod 10 <? 4
       then modify (fun c => emit c (newMessage (_staID c) type))
       else ret tt) ;;
      flush_unless_sync syncf decoded
  end.

Definition DecodeRTCM3MSM (data : list Z) (size : Z) (c : Core) : bool * Core :=
  run_body DecodeRTCM3MSM_body (payload_bits data size) c.

(** ** Ephemeris decoders

    Each record field is entered under its name in the order of
    assignment.  The reception stamp ([_receptDateTime], [_receptStaID]) and
    the messages compiled in under [BNC_DEBUG_BCEP] are left out. *)

Definition fld (e : t_eph) (name : string) (m : Dec Q) : Dec t_eph :=
  v <- m ;; ret (eph_set e name v).

Definition fldZ (e : t_eph) (name : string) (m : Dec Z) : Dec t_eph :=
  v <- m ;; ret (eph_set e name (inject_Z v)).

Definition PI_30_13 : Q := (R2R_PI / two_pow 30 / two_pow 13)%Q.
Definition PI_30_1 : Q := (R2R_PI / two_pow 30 / two_pow 1)%Q.
Definition P2 (a b : Z) : Q := (1 / two_pow a / two_pow b)%Q.
Definition P1 (a : Z) : Q := (1 / two_pow a)%Q.

(** [eph._TOEweek > week + 1 || eph._TOEweek < week - 1] *)
Definition invalid_week (TOEweek week : Z) : bool :=
  (week + 1 <? TOEweek) || (TOEweek <? week - 1).

(** RTCM3Decoder::DecodeGPSEphemeris *)
Definition DecodeGPSEphemeris_body : Dec bool :=
  let eph := new_eph in
  SKIPBITS 12 ;;
  i <- GETBITS 6 ;;
  let eph := eph_set_prn eph (mk_prn "G" i 0) in
  week <- GETBITS 10 ;;
  i <- GETBITS 4 ;;
  let eph := eph_set eph "_ura" (accuracyFromIndex env i "G") in
  eph <- fldZ eph "_L2Codes" (GETBITS 2) ;;
  eph <- fld eph "_IDOT" (GETFLOATSIGN 14 PI_30_13) ;;
  eph <- fldZ eph "_IODE" (GETBITS 8) ;;
  i <- GETBITS 16 ;;
  let i := Z.shiftl i 4 in
  let eph := eph_set eph "_TOC" (inject_Z (time_of_gps env (i * 1000))) in
  eph <- fld eph "_clock_driftrate" (GETFLOATSIGN 8 (P2 30 25)) ;;
  eph <- fld eph "_clock_drift" (GETFLOATSIGN 16 (P2 30 13)) ;;
  eph <- fld eph "_clock_bias" (GETFLOATSIGN 22 (P2 30 1)) ;;
  IODC <- GETBITS 10 ;;
  let eph := eph_set eph "_IODC" (inject_Z IODC) in
  eph <- fld eph "_Crs" (GETFLOATSIGN 16 (P1 5)) ;;
  eph <- fld eph "_Delta_n" (GETFLOATSIGN 16 PI_30_13) ;;
  eph <- fld eph "_M0" (GETFLOATSIGN 32 PI_30_1) ;;
  eph <- fld eph "_Cuc" (GETFLOATSIGN 16 (P1 29)) ;;
  eph <- fld eph "_e" (GETFLOAT 32 (P2 30 3)) ;;
  eph <- fld eph "_Cus" (GETFLOATSIGN 16 (P1 29)) ;;
  sqrt_A <- GETFLOAT 32 (P1 19) ;;
  let eph := eph_set eph "_sqrt_A" sqrt_A in
  if Qltb sqrt_A 1000.0 then return_ false else
  i <- GETBITS 16 ;;
  let i := Z.shiftl i 4 in
  let eph := eph_set eph "_TOEsec" (inject_Z i) in
  let TOEweek := gpsw_of env (i * 1000) in
  let eph := eph_set eph "_TOEweek" (inject_Z TOEweek) in
  let numOfRollOvers := TOEweek / 1024 in
  let week := week + numOfRollOvers * 1024 in
  (* week from HOW, differs from TOC, TOE week, we use adapted value instead *)
  if invalid_week TOEweek week then return_ false else
  eph <- fld eph "_Cic" (GETFLOATSIGN 16 (P1 29)) ;;
  eph <- fld eph "_OMEGA0" (GETFLOATSIGN 32 PI_30_1) ;;
  eph <- fld eph "_Cis" (GETFLOATSIGN 16 (P1 29)) ;;
  eph <- fld eph "_i0" (GETFLOATSIGN 32 PI_30_1) ;;
  eph <- fld eph "_Crc" (GETFLOATSIGN 16 (P1 5)) ;;
  eph <- fld eph "_omega" (GETFLOATSIGN 32 PI_30_1) ;;
  eph <- fld eph "_OMEGADOT" (GETFLOATSIGN 24 PI_30_13) ;;
  eph <- fld eph "_TGD" (GETFLOATSIGN 8 (P2 30 1)) ;;
  eph <- fldZ eph "_health" (GETBITS 6) ;;
  eph <- fldZ eph "_L2PFlag" (GETBITS 1) ;;
  fitIntervalFalg <- GETBITS 1 ;;
  let eph := eph_set eph "_fitInterval"
               (fitIntervalFromFlag env fitIntervalFalg (inject_Z IODC) "G") in
  let eph := eph_set eph "_TOT" 0.9999e9 in
  let eph := eph_set_navType eph LNAV in
  modify (fun c => emit c (newGPSEph eph)) ;;
  ret true.

Definition DecodeGPSEphemeris (data : list Z) (size : Z) (c : Core) : bool * Core :=
  if size =? 67 then run_body DecodeGPSEphemeris_body (payload_bits data size) c
  else (false, c).

(** [NormFrobenius() < 1.0] of a three-vector, on the squares. *)
Definition norm_lt_1 (x y z : Q) : bool := Qltb (x * x + y * y + z * z) 1.

(** RTCM3Decoder::DecodeGLONASSEphemeris.  The string [_gloFrq], which the
    decoder sets next to the store into [GLOFreq], is read by nothing here
    and is left out. *)
Definition DecodeGLONASSEphemeris_body : Dec bool :=
  let eph := new_eph in
  SKIPBITS 12 ;;
  sv <- GETBITS 6 ;;
  let eph := eph_set_prn eph (mk_prn "R" sv 0) in
  i <- GETBITS 5 ;;
  let frequency_number := i - 7 in
  let eph := eph_set eph "_frequency_number" (inject_Z frequency_number) in
  eph <- fldZ eph "_almanac_health" (GETBITS 1) ;;
  avail <- GETBITS 1 ;;
  let eph := eph_set eph "_almanac_health_availablility_indicator" (inject_Z avail) in
  if avail =? 0 then return_ false else
  eph <- fldZ eph "_P1" (GETBITS 2) ;;
  i <- GETBITS 5 ;;
  let tk := i * 60 * 60 in
  i <- GETBITS 6 ;;
  let tk := tk + i * 60 in
  i <- GETBITS 1 ;;
  let tk := tk + i * 30 in
  let tki := tk - 3 * 60 * 60 in
  let eph := eph_set eph "_tki" (inject_Z (if tki <? 0 then tki + 86400 else tki)) in
  eph <- fldZ eph "_health" (GETBITS 1) ;;
  eph <- fldZ eph "_P2" (GETBITS 1) ;;
  i <- GETBITS 7 ;;
  let TOC := time_of_tk env (i * 15 * 60 * 1000) in
  let eph := eph_set eph "_TOC" (inject_Z TOC) in
  x_velocity <- GETFLOATSIGNM 24 (P1 20) ;;
  x_pos <- GETFLOATSIGNM 27 (P1 11) ;;
  x_acceleration <- GETFLOATSIGNM 5 (P1 30) ;;
  y_velocity <- GETFLOATSIGNM 24 (P1 20) ;;
  y_pos <- GETFLOATSIGNM 27 (P1 11) ;;
  y_acceleration <- GETFLOATSIGNM 5 (P1 30) ;;
  z_velocity <- GETFLOATSIGNM 24 (P1 20) ;;
  z_pos <- GETFLOATSIGNM 27 (P1 11) ;;
  z_acceleration <- GETFLOATSIGNM 5 (P1 30) ;;
  let eph := eph_set (eph_set (eph_set eph "_x_velocity" x_velocity)
                        "_x_pos" x_pos) "_x_acceleration" x_acceleration in
  let eph := eph_set (eph_set (eph_set eph "_y_velocity" y_velocity)
                        "_y_pos" y_pos) "_y_acceleration" y_acceleration in
  let eph := eph_set (eph_set (eph_set eph "_z_velocity" z_velocity)
                        "_z_pos" z_pos) "_z_acceleration" z_acceleration in
  eph <- fldZ eph "_P3" (GETBITS 1) ;;
  eph <- fld eph "_gamma" (GETFLOATSIGNM 11 (P2 30 10)) ;;
  eph <- fldZ eph "_M_P" (GETBITS 2) ;;
  eph <- fldZ eph "_M_l3" (GETBITS 1) ;;
  eph <- fld eph "_tau" (GETFLOATSIGNM 22 (P1 30)) ;;
  eph <- fld eph "_M_delta_tau" (GETFLOATSIGNM 5 (P1 30)) ;;
  eph <- fldZ eph "_E" (GETBITS 5) ;;
  eph <- fldZ eph "_M_P4" (GETBITS 1) ;;
  eph <- fldZ eph "_M_FT" (GETBITS 4) ;;
  M_NT <- GETBITS 11 ;;
  let eph := eph_set eph "_M_NT" (inject_Z M_NT) in
  if M_NT =? 0 then return_ false else
  eph <- fldZ eph "_M_M" (GETBITS 2) ;;
  additional <- GETBITS 1 ;;
  let eph := eph_set eph "_additional_data_availability" (inject_Z additional) in
  if additional =? 0 then return_ false else
  eph <- fldZ eph "_NA" (GETBITS 11) ;;
  eph <- fld eph "_tauC" (GETFLOATSIGNM 32 (P2 30 1)) ;;
  eph <- fldZ eph "_M_N4" (GETBITS 5) ;;
  eph <- fld eph "_M_tau_GPS" (GETFLOATSIGNM 22 (P1 30)) ;;
  eph <- fldZ eph "_M_l5" (GETBITS 1) ;;
  let eph := eph_set eph "_gps_utc" (inject_Z (gnumleap_at env TOC)) in
  let eph := eph_set eph "_tt" (inject_Z TOC) in
  let eph := eph_set (eph_set (eph_set eph "_xv(1)" (x_pos * 1000))
                        "_xv(2)" (y_pos * 1000)) "_xv(3)" (z_pos * 1000) in
  if norm_lt_1 (x_pos * 1000) (y_pos * 1000) (z_pos * 1000)
  then return_ false else
  let eph := eph_set (eph_set (eph_set eph "_xv(4)" (x_velocity * 1000))
                        "_xv(5)" (y_velocity * 1000)) "_xv(6)" (z_velocity * 1000) in
  if norm_lt_1 (x_velocity * 1000) (y_velocity * 1000) (z_velocity * 1000)
  then return_ false else
  (* store frequency for other users (MSM) *)
  modify (fun c => GLOFreq_store c (sv - 1) (100 + frequency_number)) ;;
  let eph := eph_set_navType eph FDMA in
  modify (fun c => emit c (newGlonassEph eph)) ;;
  ret true.

Definition DecodeGLONASSEphemeris (data : list Z) (size : Z) (c : Core) : bool * Core :=
  if size =? 51 then run_body DecodeGLONASSEphemeris_body (payload_bits data size) c
  else (false, c).

(** RTCM3Decoder::DecodeQZSSEphemeris *)
Definition DecodeQZSSEphemeris_body : Dec bool :=
  let eph := new_eph in
  SKIPBITS 12 ;;
  i <- GETBITS 4 ;;
  let eph := eph_set_prn eph (mk_prn "J" i 0) in
  i <- GETBITS 16 ;;
  let i := Z.shiftl i 4 in
  let eph := eph_set eph "_TOC" (inject_Z (time_of_gps env (i * 1000))) in
  eph <- fld eph "_clock_driftrate" (GETFLOATSIGN 8 (P2 30 25)) ;;
  eph <- fld eph "_clock_drift" (GETFLOATSIGN 16 (P2 30 13)) ;;
  eph <- fld eph "_clock_bias" (GETFLOATSIGN 22 (P2 30 1)) ;;
  eph <- fldZ eph "_IODE" (GETBITS 8) ;;
  eph <- fld eph "_Crs" (GETFLOATSIGN 16 (P1 5)) ;;
  eph <- fld eph "_Delta_n" (GETFLOATSIGN 16 PI_30_13) ;;
  eph <- fld eph "_M0" (GETFLOATSIGN 32 PI_30_1) ;;
  eph <- fld eph "_Cuc" (GETFLOATSIGN 16 (P1 29)) ;;
  eph <- fld eph "_e" (GETFLOAT 32 (P2 30 3)) ;;
  eph <- fld eph "_Cus" (GETFLOATSIGN 16 (P1 29)) ;;
  sqrt_A <- GETFLOAT 32 (P1 19) ;;
  let eph := eph_set eph "_sqrt_A" sqrt_A in
  if Qltb sqrt_A 1000.0 then return_ false else
  i <- GETBITS 16 ;;
  let i := Z.shiftl i 4 in
  let eph := eph_set eph "_TOEsec" (inject_Z i) in
  let TOEweek := gpsw_of env (i * 1000) in
  let eph := eph_set eph "_TOEweek" (inject_Z TOEweek) in
  eph <- fld eph "_Cic" (GETFLOATSIGN 16 (P1 29)) ;;
  eph <- fld eph "_OMEGA0" (GETFLOATSIGN 32 PI_30_1) ;;
  eph <- fld eph "_Cis" (GETFLOATSIGN 16 (P1 29)) ;;
  eph <- fld eph "_i0" (GETFLOATSIGN 32 PI_30_1) ;;
  eph <- fld eph "_Crc" (GETFLOATSIGN 16 (P1 5)) ;;
  eph <- fld eph "_omega" (GETFLOATSIGN 32 PI_30_1) ;;
  eph <- fld eph "_OMEGADOT" (GETFLOATSIGN 24 PI_30_13) ;;
  eph <- fld eph "_IDOT" (GETFLOATSIGN 14 PI_30_13) ;;
  eph <- fldZ eph "_L2Codes" (GETBITS 2) ;;
  week <- GETBITS 10 ;;
  let numOfRollOvers := TOEweek / 1024 in
  let week := week + numOfRollOvers * 1024 in
  (* week from HOW, differs from TOC, TOE week, we use adapted value instead *)
  if invalid_week TOEweek week then return_ false else
  i <- GETBITS 4 ;;
  let eph := eph_set eph "_ura" (qzss_ura env i) in
  eph <- fldZ eph "_health" (GETBITS 6) ;;
  eph <- fld eph "_TGD" (GETFLOATSIGN 8 (P2 30 1)) ;;
  IODC <- GETBITS 10 ;;
  let eph := eph_set eph "_IODC" (inject_Z IODC) in
  fitIntervalFalg <- GETBITS 1 ;;
  let eph := eph_set eph "_fitInterval"
               (fitIntervalFromFlag env fitIntervalFalg (inject_Z IODC) "J") in
  let eph := eph_set eph "_TOT" 0.9999e9 in
  let eph := eph_set_navType eph LNAV in
  modify (fun c => emit c (newGPSEph eph)) ;;
  ret true.

Definition DecodeQZSSEphemeris (data : list Z) (size : Z) (c : Core) : bool * Core :=
  if size =? 67 then run_body DecodeQZSSEphemeris_body (payload_bits data size) c
  else (false, c).

(** RTCM3Decoder::DecodeIRNSSEphemeris *)
Definition DecodeIRNSSEphemeris_body : Dec bool :=
  let eph := new_eph in
  SKIPBITS 12 ;;
  i <- GETBITS 6 ;;
  let eph := eph_set_prn eph (mk_prn "I" i 0) in
  week <- GETBITS 10 ;;
  eph <- fld eph "_clock_bias" (GETFLOATSIGN 22 (P2 30 1)) ;;
  eph <- fld eph "_clock_drift" (GETFLOATSIGN 16 (P2 30 13)) ;;
  eph <- fld eph "_clock_driftrate" (GETFLOATSIGN 8 (P2 30 25)) ;;
  i <- GETBITS 4 ;;
  let eph := eph_set eph "_ura" (accuracyFromIndex env i "I") in
  i <- GETBITS 16 ;;
  let i := Z.shiftl i 4 in
  let eph := eph_set eph "_TOC" (inject_Z (time_of_gps env (i * 1000))) in
  eph <- fld eph "_TGD" (GETFLOATSIGN 8 (P2 30 1)) ;;
  eph <- fld eph "_Delta_n" (GETFLOATSIGN 22 (R2R_PI / two_pow 30 / two_pow 11)%Q) ;;
  (* IODCE *)
  IODE <- GETBITS 8 ;;
  let eph := eph_set (eph_set eph "_IODE" (inject_Z IODE)) "_IODC" (inject_Z IODE) in
  SKIPBITS 10 ;;
  L5Flag <- GETBITS 1 ;;
  SFlag <- GETBITS 1 ;;
  let eph :=
    if (L5Flag =? 0) && (SFlag =? 0) then eph_set eph "_health" 0.0
    else if (L5Flag =? 0) && (SFlag =? 1) then eph_set eph "_health" 1.0
    else if (L5Flag =? 1) && (SFlag =? 0) then eph_set eph "_health" 2.0
    else if (L5Flag =? 1) && (SFlag =? 1) then eph_set eph "_health" 3.0
    else eph in
  eph <- fld eph "_Cuc" (GETFLOATSIGN 15 (P1 28)) ;;
  eph <- fld eph "_Cus" (GETFLOATSIGN 15 (P1 28)) ;;
  eph <- fld eph "_Cic" (GETFLOATSIGN 15 (P1 28)) ;;
  eph <- fld eph "_Cis" (GETFLOATSIGN 15 (P1 28)) ;;
  eph <- fld eph "_Crc" (GETFLOATSIGN 15 (P1 4)) ;;
  eph <- fld eph "_Crs" (GETFLOATSIGN 15 (P1 4)) ;;
  eph <- fld eph "_IDOT" (GETFLOATSIGN 14 PI_30_13) ;;
  SKIPBITS 2 ;;
  eph <- fld eph "_M0" (GETFLOATSIGN 32 PI_30_1) ;;
  i <- GETBITS 16 ;;
  let i := Z.shiftl i 4 in
  let eph := eph_set eph "_TOEsec" (inject_Z i) in
  let TOEweek := gpsw_of env (i * 1000) in
  let eph := eph_set eph "_TOEweek" (inject_Z TOEweek) in
  let numOfRollOvers := TOEweek / 1024 in
  let week := week + numOfRollOvers * 1024 in
  (* week from HOW, differs from TOC, TOE week, we use adapted value instead *)
  if invalid_week TOEweek week then return_ false else
  eph <- fld eph "_e" (GETFLOAT 32 (P2 30 3)) ;;
  sqrt_A <- GETFLOAT 32 (P1 19) ;;
  let eph := eph_set eph "_sqrt_A" sqrt_A in
  if Qltb sqrt_A 1000.0 then return_ false else
  eph <- fld eph "_OMEGA0" (GETFLOATSIGN 32 PI_30_1) ;;
  eph <- fld eph "_omega" (GETFLOATSIGN 32 PI_30_1) ;;
  eph <- fld eph "_OMEGADOT" (GETFLOATSIGN 22 (R2R_PI / two_pow 30 / two_pow 11)%Q) ;;
  eph <- fld eph "_i0" (GETFLOATSIGN 32 PI_30_1) ;;
  SKIPBITS 2 ;;
  let eph := eph_set eph "_TOT" 0.9999e9 in
  let eph := eph_set_navType eph LNAV in
  modify (fun c => emit c (newGPSEph eph)) ;;
  ret true.

Definition DecodeIRNSSEphemeris (data : list Z) (size : Z) (c : Core) : bool * Core :=
  if size =? 67 then run_body DecodeIRNSSEphemeris_body (payload_bits data size) c
  else (false, c).

(** RTCM3Decoder::DecodeSBASEphemeris *)
Definition DecodeSBASEphemeris_body : Dec bool :=
  let eph := new_eph in
  SKIPBITS 12 ;;
  i <- GETBITS 6 ;;
  let eph := eph_set_prn eph (mk_prn "S" (20 + i) 0) in
  eph <- fldZ eph "_IODN" (GETBITS 8) ;;
  i <- GETBITS 13 ;;
  let i := Z.shiftl i 4 in
  let eph := eph_set eph "_TOC" (inject_Z (time_of_tod env (i * 1000))) in
  i <- GETBITS 4 ;;
  let eph := eph_set eph "_ura" (accuracyFromIndex env i "S") in
  x_pos <- GETFLOATSIGN 30 0.08 ;;
  y_pos <- GETFLOATSIGN 30 0.08 ;;
  z_pos <- GETFLOATSIGN 25 0.4 ;;
  let eph := eph_set (eph_set (eph_set eph "_x_pos" x_pos) "_y_pos" y_pos)
                     "_z_pos" z_pos in
  if norm_lt_1 x_pos y_pos z_pos then return_ false else
  eph <- fld eph "_x_velocity" (GETFLOATSIGN 17 0.000625) ;;
  eph <- fld eph "_y_velocity" (GETFLOATSIGN 17 0.000625) ;;
  eph <- fld eph "_z_velocity" (GETFLOATSIGN 18 0.004) ;;
  eph <- fld eph "_x_acceleration" (GETFLOATSIGN 10 0.0000125) ;;
  eph <- fld eph "_y_acceleration" (GETFLOATSIGN 10 0.0000125) ;;
  eph <- fld eph "_z_acceleration" (GETFLOATSIGN 10 0.0000625) ;;
  eph <- fld eph "_agf0" (GETFLOATSIGN 12 (P2 30 1)) ;;
  eph <- fld eph "_agf1" (GETFLOATSIGN 8 (P2 30 10)) ;;
  let eph := eph_set eph "_TOT" 0.9999e9 in
  let eph := eph_set eph "_health" 0 in
  let eph := eph_set_navType eph SBASL1 in
  modify (fun c => emit c (newSBASEph eph)) ;;
  ret true.

Definition DecodeSBASEphemeris (data : list Z) (size : Z) (c : Core) : bool * Core :=
  if size =? 35 then run_body DecodeSBASEphemeris_body (payload_bits data size) c
  else (false, c).

Definition Qabs_gt (x eps : Q) : bool := Qltb eps (Qabs x).

(** RTCM3Decoder::DecodeGalileoEphemeris.  The test of [size] comes after
    the first read, which has loaded the two bytes of the message number. *)
Definition DecodeGalileoEphemeris_body : Dec bool :=
  i <- GETBITS 12 ;;
  size <- bytes_left ;;
  if ((i =? 1046) && (size =? 61)) || ((i =? 1045) && (size =? 60)) then
    let eph := new_eph in
    let inav := i =? 1046 in
    let fnav := i =? 1045 in
    i <- GETBITS 6 ;;
    let eph := eph_set_prn eph (mk_prn "E" i (if inav then 1 else 0)) in
    TOEweek <- GETBITS 12 ;; (* FIXME: roll-over after week 4095!! *)
    let eph := eph_set eph "_TOEweek" (inject_Z TOEweek) in
    eph <- fldZ eph "_IODnav" (GETBITS 10) ;;
    i <- GETBITS 8 ;;
    let eph := eph_set eph "_SISA" (accuracyFromIndex env i "E") in
    eph <- fld eph "_IDOT" (GETFLOATSIGN 14 PI_30_13) ;;
    i <- GETBITSFACTOR 14 60 ;;
    let eph := eph_set eph "_TOC" (inject_Z ((1024 + TOEweek) * 604800 + i)) in
    eph <- fld eph "_clock_driftrate" (GETFLOATSIGN 6 (P2 30 29)) ;;
    eph <- fld eph "_clock_drift" (GETFLOATSIGN 21 (P2 30 16)) ;;
    eph <- fld eph "_clock_bias" (GETFLOATSIGN 31 (P2 30 4)) ;;
    eph <- fld eph "_Crs" (GETFLOATSIGN 16 (P1 5)) ;;
    eph <- fld eph "_Delta_n" (GETFLOATSIGN 16 PI_30_13) ;;
    eph <- fld eph "_M0" (GETFLOATSIGN 32 PI_30_1) ;;
    eph <- fld eph "_Cuc" (GETFLOATSIGN 16 (P1 29)) ;;
    eph <- fld eph "_e" (GETFLOAT 32 (P2 30 3)) ;;
    eph <- fld eph "_Cus" (GETFLOATSIGN 16 (P1 29)) ;;
    sqrt_A <- GETFLOAT 32 (P1 19) ;;
    let eph := eph_set eph "_sqrt_A" sqrt_A in
    _ <- GETBITSFACTOR 14 60 ;;
    (* FIXME: overwrite value, copied from old code *)
    let eph := eph_set eph "_TOEsec" (inject_Z (i mod 604800)) in
    eph <- fld eph "_Cic" (GETFLOATSIGN 16 (P1 29)) ;;
    eph <- fld eph "_OMEGA0" (GETFLOATSIGN 32 PI_30_1) ;;
    eph <- fld eph "_Cis" (GETFLOATSIGN 16 (P1 29)) ;;
    eph <- fld eph "_i0" (GETFLOATSIGN 32 PI_30_1) ;;
    eph <- fld eph "_Crc" (GETFLOATSIGN 16 (P1 5)) ;;
    eph <- fld eph "_omega" (GETFLOATSIGN 32 PI_30_1) ;;
    eph <- fld eph "_OMEGADOT" (GETFLOATSIGN 24 PI_30_13) ;;
    BGD_1_5A <- GETFLOATSIGN 10 (P2 30 2) ;;
    let eph := eph_set eph "_BGD_1_5A" BGD_1_5A in
    eph <-
      (if inav then
         (* set unused F/NAV values *)
         let eph := eph_set (eph_set eph "_E5aHS" 0.0) "_e5aDataInValid" 0 in
         BGD_1_5B <- GETFLOATSIGN 10 (P2 30 2) ;;
         let eph := eph_set eph "_BGD_1_5B" BGD_1_5B in
         E5bHS <- GETBITS 2 ;;
         let eph := eph_set eph "_E5bHS" (inject_Z E5bHS) in
         eph <- fldZ eph "_e5bDataInValid" (GETBITS 1) ;;
         E1_bHS <- GETBITS 2 ;;
         let eph := eph_set eph "_E1_bHS" (inject_Z E1_bHS) in
         eph <- fldZ eph "_e1DataInValid" (GETBITS 1) ;;
         if negb (E5bHS =? E1_bHS) then return_ false else
         if (Qeq_bool BGD_1_5A 0.0 && Qabs_gt BGD_1_5B 1e-9)
            || (Qeq_bool BGD_1_5B 0.0 && Qabs_gt BGD_1_5A 1e-9)
         then return_ false else
         ret (eph_set_navType eph INAF)
       else
         (* set unused I/NAV values *)
         let eph := eph_set (eph_set (eph_set (eph_set (eph_set eph
                      "_BGD_1_5B" 0.0) "_E5bHS" 0.0) "_E1_bHS" 0.0)
                      "_e1DataInValid" 0) "_e5bDataInValid" 0 in
         eph <- fldZ eph "_E5aHS" (GETBITS 2) ;;
         eph <- fldZ eph "_e5aDataInValid" (GETBITS 1) ;;
         ret (eph_set_navType eph FNAV)) ;;
    let eph := eph_set eph "_TOT" 0.9999e9 in
    if Qltb sqrt_A 1000.0 then return_ false else
    modify (fun c => emit c (newGalileoEph eph)) ;;
    ret true
  else ret false.

Definition DecodeGalileoEphemeris (data : list Z) (size : Z) (c : Core) : bool * Core :=
  run_body DecodeGalileoEphemeris_body (payload_bits data size) c.

(** RTCM3Decoder::DecodeBDSEphemeris *)
Definition iMaxGEO : Q := (10.0 / 180.0 * 3.14159265358979323846)%Q.

Definition DecodeBDSEphemeris_body : Dec bool :=
  let eph := new_eph in
  SKIPBITS 12 ;;
  i <- GETBITS 6 ;;
  let eph := eph_set_prn eph (mk_prn "C" i 0) in
  BDTweek <- GETBITS 13 ;;
  let eph := eph_set eph "_BDTweek" (inject_Z BDTweek) in
  i <- GETBITS 4 ;;
  let eph := eph_set eph "_URA" (accuracyFromIndex env i "C") in
  eph <- fld eph "_IDOT" (GETFLOATSIGN 14 PI_30_13) ;;
  eph <- fldZ eph "_AODE" (GETBITS 5) ;;
  i <- GETBITS 17 ;;
  let i := Z.shiftl i 3 in
  let eph := eph_set eph "_TOC" (inject_Z (BDTweek * 604800 + i)) in
  eph <- fld eph "_clock_driftrate" (GETFLOATSIGN 11 (1 / two_pow 30 / two_pow 30 / two_pow 6)%Q) ;;
  eph <- fld eph "_clock_drift" (GETFLOATSIGN 22 (P2 30 20)) ;;
  eph <- fld eph "_clock_bias" (GETFLOATSIGN 24 (P2 30 3)) ;;
  eph <- fldZ eph "_AODC" (GETBITS 5) ;;
  eph <- fld eph "_Crs" (GETFLOATSIGN 18 (P1 6)) ;;
  eph <- fld eph "_Delta_n" (GETFLOATSIGN 16 PI_30_13) ;;
  eph <- fld eph "_M0" (GETFLOATSIGN 32 PI_30_1) ;;
  eph <- fld eph "_Cuc" (GETFLOATSIGN 18 (P2 30 1)) ;;
  eph <- fld eph "_e" (GETFLOAT 32 (P2 30 3)) ;;
  eph <- fld eph "_Cus" (GETFLOATSIGN 18 (P2 30 1)) ;;
  sqrt_A <- GETFLOAT 32 (P1 19) ;;
  let eph := eph_set eph "_sqrt_A" sqrt_A in
  if Qltb sqrt_A 1000.0 then return_ false else
  i <- GETBITS 17 ;;
  let i := Z.shiftl i 3 in
  let eph := eph_set eph "_TOEsec" (inject_Z i) in
  let eph := eph_set eph "_TOE" (inject_Z (BDTweek * 604800 + i)) in
  eph <- fld eph "_Cic" (GETFLOATSIGN 18 (P2 30 1)) ;;
  eph <- fld eph "_OMEGA0" (GETFLOATSIGN 32 PI_30_1) ;;
  eph <- fld eph "_Cis" (GETFLOATSIGN 18 (P2 30 1)) ;;
  i0 <- GETFLOATSIGN 32 PI_30_1 ;;
  let eph := eph_set eph "_i0" i0 in
  eph <- fld eph "_Crc" (GETFLOATSIGN 18 (P1 6)) ;;
  eph <- fld eph "_omega" (GETFLOATSIGN 32 PI_30_1) ;;
  eph <- fld eph "_OMEGADOT" (GETFLOATSIGN 24 PI_30_13) ;;
  eph <- fld eph "_TGD1" (GETFLOATSIGN 10 0.0000000001) ;;
  eph <- fld eph "_TGD2" (GETFLOATSIGN 10 0.0000000001) ;;
  eph <- fldZ eph "_SatH1" (GETBITS 1) ;;
  let eph := eph_set eph "_TOT" 0.9999e9 in
  let eph := eph_set_navType eph (if Qltb iMaxGEO i0 then D1 else D2) in
  modify (fun c => emit c (newBDSEph eph)) ;;
  ret true.

Definition DecodeBDSEphemeris (data : list Z) (size : Z) (c : Core) : bool * Core :=
  if size =? 70 then run_body DecodeBDSEphemeris_body (payload_bits data size) c
  else (false, c).

(** ** Station metadata *)

(** [strncmp(a, b, n) != 0] on NUL-terminated strings given without their
    terminator; bytes of the message buffer behind the payload are read as
    NUL. *)
Fixpoint strncmp_ne (n : nat) (a b : list Z) : bool :=
  match n with
  | O => false
  | S n' =>
      let x := hd 0 a in
      let y := hd 0 b in
      if x =? y then (if x =? 0 then false else strncmp_ne n' (tl a) (tl b))
      else true
  end.

(** The bytes from the cursor on (the string pointer of [GETSTRING]). *)
Fixpoint bytes_of_bits (n : nat) (rd : list bool) : list Z :=
  match n with
  | O => []
  | S n' => value_of (firstn 8 rd) :: bytes_of_bits n' (skipn 8 rd)
  end.

Definition peek_bytes : Dec (list Z) :=
  fun rd c => Next (bytes_of_bits (length rd / 8) rd) rd c.

Definition size_ok (n : Z) : bool := (-1 <? n) && (n <? 265).

Definition set_last {A} (l : list A) (f : A -> A) : list A :=
  match rev l with
  | [] => []
  | x :: tl => rev tl ++ [f x]
  end.

Definition last_descriptor (l : list t_antInfo) : list Z :=
  ant_descriptor (last l (mk_antInfo [] [])).

(** RTCM3Decoder::DecodeAntennaReceiver.  The first [strncmp] is given the
    length [recnum], which is still -1 there: it compares up to the end of
    the stored descriptor. *)
Definition DecodeAntennaReceiver_body : Dec bool :=
  type <- GETBITS 12 ;;
  SKIPBITS 12 ;; (* reference station ID *)
  here <- peek_bytes ;;
  '(antnum, antenna) <- GETSTRING ;;
  c <- get_core ;;
  (if size_ok antnum
      && (match _antType c with [] => true | _ => false end
          || strncmp_ne (S (length (last_descriptor (_antType c))))
                        (last_descriptor (_antType c)) (tl here))
   then modify (fun c => set_antType c (_antType c ++ [mk_antInfo antenna []]))
   else ret tt) ;;
  SKIPBITS 8 ;; (* antenna setup ID *)
  (if (type =? 1008) || (type =? 1033) then
     '(antsernum, antserialnum) <- GETSTRING ;;
     if size_ok antsernum
     then modify (fun c => set_antType c
                    (set_last (_antType c)
                       (fun a => mk_antInfo (ant_descriptor a) antserialnum)))
     else ret tt
   else ret tt) ;;
  (if type =? 1033 then
     '(recnum, receiver) <- GETSTRING ;;
     '(recfirnum, recfirmware) <- GETSTRING ;;
     '(recsernum, recserialnum) <- GETSTRING ;;
     c <- get_core ;;
     if size_ok recnum
        && (match _recType c with [] => true | _ => false end
            || strncmp_ne (Z.to_nat recnum)
                 (rec_descriptor (last (_recType c) (mk_recInfo [] [] [])))
                 receiver)
     then modify (fun c => set_recType c
                    (_recType c ++
                     [mk_recInfo receiver
                        (if size_ok recfirnum then recfirmware else [])
                        (if size_ok recsernum then recserialnum else [])]))
     else ret tt
   else ret tt) ;;
  ret true.

Definition DecodeAntennaReceiver (data : list Z) (size : Z) (c : Core) : bool * Core :=
  run_body DecodeAntennaReceiver_body (payload_bits data size) c.

Definition upd_antList (f : t_antRefPoint -> t_antRefPoint) : Dec unit :=
  modify (fun c => set_antList c (set_last (_antList c) f)).

(** RTCM3Decoder::DecodeAntennaPosition *)
Definition DecodeAntennaPosition_body : Dec bool :=
  type <- GETBITS 12 ;;
  modify (fun c => set_antList c (_antList c ++ [mk_antRefPoint 0 0 0 None 0])) ;;
  SKIPBITS 22 ;;
  x <- GETBITSSIGN 38 ;;
  upd_antList (fun p => mk_antRefPoint (inject_Z x * 1e-4) (arp_yy p) (arp_zz p)
                                       (arp_height p) (arp_message p)) ;;
  SKIPBITS 2 ;;
  y <- GETBITSSIGN 38 ;;
  upd_antList (fun p => mk_antRefPoint (arp_xx p) (inject_Z y * 1e-4) (arp_zz p)
                                       (arp_height p) (arp_message p)) ;;
  SKIPBITS 2 ;;
  z <- GETBITSSIGN 38 ;;
  upd_antList (fun p => mk_antRefPoint (arp_xx p) (arp_yy p) (inject_Z z * 1e-4)
                                       (arp_height p) (arp_message p)) ;;
  (if type =? 1006 then
     h <- GETBITS 16 ;;
     upd_antList (fun p => mk_antRefPoint (arp_xx p) (arp_yy p) (arp_zz p)
                                          (Some (inject_Z h * 1e-4)%Q)
                                          (arp_message p))
   else ret tt) ;;
  upd_antList (fun p => mk_antRefPoint (arp_xx p) (arp_yy p) (arp_zz p)
                                       (arp_height p) type) ;;
  ret true.

Definition DecodeAntennaPosition (data : list Z) (size : Z) (c : Core) : bool * Core :=
  run_body DecodeAntennaPosition_body (payload_bits data size) c.

(** ** The entry point  (RTCM3Decoder::Decode) *)

Definition is_ssr (id : Z) : bool :=
  ((1057 <=? id) && (id <=? 1068)) || ((1240 <=? id) && (id <=? 1270))
  || (id =? 4076).

(** The body of [while ((id = GetMessage()))] for the block [data] of
    [size] bytes ([_Message] and [_BlockSize]): what the message does to
    the decoder, and whether it sets [decoded].  The SSR decoders kept in
    [_coDecoders] are not part of the model; only their verdict on the block
    is. *)
Definition Decode_message (id : Z) (data : list Z) (size : nat) (c : Core)
  : bool * Core :=
  let bufLen := Z.of_nat size in
  (* reset station ID for file loading as it can change *)
  let c := match rawFile_staID env with
           | Some s => set_staID c s
           | None => c
           end in
  (* store the id into the list of loaded blocks *)
  let c := set_typeList c (_typeList c ++ [id]) in
  if is_ssr id then (coDecode env (firstn size data), c)
  else if (1070 <=? id) && (id <=? 1237) then DecodeRTCM3MSM data bufLen c
  else if (id =? 1001) || (id =? 1003)
  then (false, emit c (newMessage (_staID c) id))
  else if (id =? 1002) || (id =? 1004) then DecodeRTCM3GPS data bufLen c
  else if (id =? 1009) || (id =? 1011)
  then (false, emit c (newMessage (_staID c) id))
  else if (id =? 1010) || (id =? 1012) then DecodeRTCM3GLONASS data bufLen c
  else if id =? 1019 then DecodeGPSEphemeris data bufLen c
  else if id =? 1020 then DecodeGLONASSEphemeris data bufLen c
  else if id =? 1043 then DecodeSBASEphemeris data bufLen c
  else if id =? 1044 then DecodeQZSSEphemeris data bufLen c
  else if id =? 1041 then DecodeIRNSSEphemeris data bufLen c
  else if (id =? 1045) || (id =? 1046) then DecodeGalileoEphemeris data bufLen c
  else if id =? 1042 then DecodeBDSEphemeris data bufLen c
  else if (id =? 1007) || (id =? 1008) || (id =? 1033)
  then (false, snd (DecodeAntennaReceiver data bufLen c))
  else if (id =? 1005) || (id =? 1006)
  then (false, snd (DecodeAntennaPosition data bufLen c))
  else (false, c).

(** [while ((id = GetMessage())) { ... }].  The loop has no bound of its
    own; [None] is a run that is still going after [fuel] messages. *)
Fixpoint Decode_messages (fuel : nat) (f : Framer) (c : Core) (decoded : bool)
  : option (Framer * Core * bool) :=
  match fuel with
  | O => None
  | S fuel' =>
      let '(id, f) := GetMessage f in
      if id =? 0 then Some (f, c, decoded)
      else
        let '(d, c) := Decode_message id (_Message f) (_BlockSize f) c in
        Decode_messages fuel' f c (decoded || d)
  end.

(** [memcpy(_Message + _MessageSize, buffer, l); _MessageSize += l;] *)
Definition feed (f : Framer) (buffer : list Z) (l : nat) : Framer :=
  mkFramer (firstn (_MessageSize f) (_Message f) ++ firstn l buffer
            ++ skipn (_MessageSize f + l) (_Message f))
           (_MessageSize f + l) (_NeedBytes f) (_SkipBytes f) (_BlockSize f).

(** [while (bufLen && _MessageSize < sizeof(_Message))].  Every turn takes
    at least one byte of [buffer], so [S (length buffer)] turns are enough
    ([fuel]); the inner loop is given one turn per buffered byte and one
    more. *)
Fixpoint Decode_chunks (fuel : nat) (buffer : list Z) (f : Framer) (c : Core)
         (decoded : bool) : option (Framer * Core * bool) :=
  match fuel with
  | O => None
  | S fuel' =>
      if negb (length buffer =? 0)%nat && (_MessageSize f <? MESSAGE_BUFFER)%nat
      then
        let l := Nat.min (MESSAGE_BUFFER - _MessageSize f) (length buffer) in
        let f := feed f buffer l in
        match Decode_messages (S (_MessageSize f)) f c decoded with
        | None => None
        | Some (f, c, decoded) =>
            Decode_chunks fuel' (skipn l buffer) f c decoded
        end
      else Some (f, c, decoded)
  end.

Definition Decode (buffer : list Z) (f : Framer) (c : Core)
  : option (t_irc * Framer * Core) :=
  match Decode_chunks (S (length buffer)) buffer f c false with
  | None => None
  | Some (f, c, decoded) => Some (if decoded then success else failure, f, c)
  end.


End Decoders.

(** * Test vectors *)

(** A message body from a list of fields (width, value), padded with zero
    bits to a whole number of bytes. *)
Definition pack_bits (fields : list (Z * Z)) : list bool :=
  flat_map (fun '(n, v) => bits_of (Z.to_nat n) v) fields.

Definition pad_byte (l : list bool) : list bool :=
  l ++ repeat false ((8 - length l mod 8) mod 8).

Definition pack (fields : list (Z * Z)) : list Z :=
  let b := pad_byte (pack_bits fields) in
  bytes_of_bits (length b / 8) b.

(** A stand-in for the collaborators: times are taken as they are, every
    time lies in GPS week 2000, the SSR decoder accepts nothing. *)
Definition env0 : Env :=
  mk_env (fun x => x) (fun x => x) (fun x => x) (fun x => x) (fun _ => 2000)
         (fun _ _ => 1%Q) (fun _ _ => 0%Q) (fun _ _ _ => 0%Q) (fun _ => 0%Q)
         (fun _ => 18) None (fun _ => false).

(** The field of [n] bits at offset [off] of a cursor. *)
Definition field (rd : list bool) (off n : nat) : Z :=
  value_of (firstn n (skipn off rd)).

(** * Vocabulary of the statements

    Predicates on the decoder object and on byte streams, the frames
    used as examples, and the notions in which the theorems below are
    stated. *)

(** A band is valid when it carries a two-character RINEX code. *)
Definition valid_band (f : t_frqObs) : Prop :=
  String.length (_rnxType2ch f) = 2%nat.

Definition sat_wf (o : t_satObs) : Prop :=
  _obs o <> [] /\ Forall valid_band (_obs o).

Definition obs_wf (c : Core) : Prop :=
  Forall sat_wf (_CurrentObsList c) /\ Forall (Forall sat_wf) (_obsList c).

Definition code_ok (cd : CodeData) : Prop :=
  match code cd with
  | Some s => String.length s = 2%nat
  | None => True
  end.

(** The decoder went through: one ephemeris signal was emitted (and, for
    GLONASS, the frequency number stored). *)
Definition eph_emitted (c0 c' : Core) : Prop :=
  exists s, is_eph_signal s = true /\
            (c' = emit c0 s \/ exists i v, c' = emit (GLOFreq_store c0 i v) s).

Definition eph_post (c0 : Core) (b : bool) (c' : Core) : Prop :=
  (b = false /\ c' = c0) \/ (b = true /\ eph_emitted c0 c').

(** The ephemeris decoders. *)
Inductive eph_kind :=
| EphGPS | EphGLONASS | EphQZSS | EphIRNSS | EphSBAS | EphGalileo | EphBDS.

Definition eph_decoder (env : Env) (k : eph_kind)
  : list Z -> Z -> Core -> bool * Core :=
  match k with
  | EphGPS => DecodeGPSEphemeris env
  | EphGLONASS => DecodeGLONASSEphemeris env
  | EphQZSS => DecodeQZSSEphemeris env
  | EphIRNSS => DecodeIRNSSEphemeris env
  | EphSBAS => DecodeSBASEphemeris env
  | EphGalileo => DecodeGalileoEphemeris env
  | EphBDS => DecodeBDSEphemeris env
  end.

(** Nothing but the station lists has changed. *)
Definition quiet (c0 c : Core) : Prop :=
  _signals c = _signals c0 /\ _obsList c = _obsList c0 /\
  _CurrentObsList c = _CurrentObsList c0 /\ _CurrentTime c = _CurrentTime c0 /\
  _typeList c = _typeList c0 /\ GLOFreq c = GLOFreq c0 /\
  GLOFreq_wild c = GLOFreq_wild c0.

(** The three observation decoders. *)
Inductive obs_kind := ObsGPS | ObsGLONASS | ObsMSM.

Definition obs_body (env : Env) (k : obs_kind) : Dec bool :=
  match k with
  | ObsGPS => DecodeRTCM3GPS_body env
  | ObsGLONASS => DecodeRTCM3GLONASS_body env
  | ObsMSM => DecodeRTCM3MSM_body env
  end.

Definition obs_decoder (env : Env) (k : obs_kind)
  : list Z -> Z -> Core -> bool * Core :=
  match k with
  | ObsGPS => DecodeRTCM3GPS env
  | ObsGLONASS => DecodeRTCM3GLONASS env
  | ObsMSM => DecodeRTCM3MSM env
  end.

Record accumulator_invariant (Inv : bool -> Core -> Prop) : Prop := {
  inv_stage : forall d c o,
    sat_wf o -> Inv d c -> Inv d (set_CurrentObsList c (_CurrentObsList c ++ [o]));
  inv_store : forall d c i v, Inv d c -> Inv d (GLOFreq_store c i v);
  inv_time : forall d c t, Inv d c -> Inv d (set_CurrentTime c t);
  inv_message : forall d c s b, Inv d c -> Inv d (emit c (newMessage s b));
  inv_new_epoch : forall c,
    Inv false c ->
    Inv true (set_CurrentObsList (set_obsList c (_obsList c ++ [_CurrentObsList c])) []);
  inv_sync : forall d c,
    Inv d c ->
    Inv true (set_CurrentObsList
                (set_CurrentTime (set_obsList c (_obsList c ++ [_CurrentObsList c]))
                                 time_reset) []);
  inv_abort : forall d c, Inv d c -> Inv false c
}.

(** Ephemerides emitted, and epoch lists flushed, so far. *)
Definition n_eph (c : Core) : nat := length (filter is_eph_signal (_signals c)).

Definition n_epochs (c : Core) : nat := length (_obsList c).

(** Since the state [c0]: no ephemeris was emitted, no epoch list was
    taken back, and the flag is set only if an epoch list was added. *)
Definition flushed_since (c0 : Core) (d : bool) (c : Core) : Prop :=
  n_eph c = n_eph c0 /\ (n_epochs c0 <= n_epochs c)%nat /\
  (d = true -> (n_epochs c0 < n_epochs c)%nat).

(** The decoder object once the message is entered in [_typeList]. *)
Definition tagged (env : Env) (id : Z) (c : Core) : Core :=
  let c := match rawFile_staID env with
           | Some s => set_staID c s
           | None => c
           end in
  set_typeList c (_typeList c ++ [id]).

(** The ways a message acts on the decoder object. *)
Inductive message_effect (env : Env) (id : Z) (data : list Z) (size : nat)
          (c1 : Core) : bool -> Core -> Prop :=
| eff_ssr :
    is_ssr id = true ->
    message_effect env id data size c1 (coDecode env (firstn size data)) c1
| eff_obs k :
    is_ssr id = false ->
    message_effect env id data size c1
                   (fst (obs_decoder env k data (Z.of_nat size) c1))
                   (snd (obs_decoder env k data (Z.of_nat size) c1))
| eff_partial :
    is_ssr id = false ->
    message_effect env id data size c1 false (emit c1 (newMessage (_staID c1) id))
| eff_eph k :
    is_ssr id = false ->
    message_effect env id data size c1
                   (fst (eph_decoder env k data (Z.of_nat size) c1))
                   (snd (eph_decoder env k data (Z.of_nat size) c1))
| eff_station c' :
    is_ssr id = false ->
    quiet c1 c' -> message_effect env id data size c1 false c'.

(** What one message, or a whole call, has done when it leaves the decoder
    object [c] after starting from [c0] with the contribution [d] to
    [decoded]. *)
Definition call_summary (env : Env) (c0 : Core) (d : bool) (c : Core) : Prop :=
  (n_epochs c0 <= n_epochs c)%nat /\ (n_eph c0 <= n_eph c)%nat /\
  (d = true ->
   (n_epochs c0 < n_epochs c)%nat \/ (n_eph c0 < n_eph c)%nat
   \/ exists block, coDecode env block = true) /\
  ((n_eph c0 < n_eph c)%nat -> d = true).

(** The scanning loop on the bytes it may look at: the result is the
    number of bytes stepped over, the final [_BlockSize] and the way the
    loop ended. *)
Fixpoint scanw (w : list Z) (bs : nat) {struct w} : nat * nat * scan_exit :=
  match w with
  | [] => (O, bs, ScanEnd)
  | b :: tl =>
      if (length w <? 3)%nat then (O, bs, ScanEnd)
      else if b =? 0xD3 then
        let L := block_length w 0 in
        if (L + 6 <=? length w)%nat then
          if block_crc w 0 L =? CRC24 (L + 3) w then (O, (L + 6)%nat, ScanFound)
          else let '(k, bs', ex) := scanw tl L in (S k, bs', ex)
        else (O, L, ScanNeed)
      else let '(k, bs', ex) := scanw tl bs in (S k, bs', ex)
  end.

(** The sizes of the framer fit its buffer. *)
Definition framer_ok (f : Framer) : Prop :=
  (_SkipBytes f <= _MessageSize f)%nat /\ (_MessageSize f <= length (_Message f))%nat.

(** The bytes in the buffer, and those behind the block of the last call. *)
Definition buffered (f : Framer) : list Z := firstn (_MessageSize f) (_Message f).

Definition pending (f : Framer) : list Z := skipn (_SkipBytes f) (buffered f).

(** The message number in the first bytes of a block. *)
Definition msgid (block : list Z) : Z :=
  Z.lor (Z.shiftl (nth 3 block 0) 4) (Z.shiftr (nth 4 block 0) 4).

(** A frame of the wire format: the preamble, a length that is the length
    of the frame less header and CRC, and a CRC that fits; here also with a
    message number other than 0, the value by which [GetMessage] reports
    that it has no message. *)
Definition valid_frame (fr : list Z) : bool :=
  (nth 0 fr 0 =? 0xD3)
  && (length fr =? block_length fr 0 + 6)%nat
  && (block_crc fr 0 (block_length fr 0) =? CRC24 (block_length fr 0 + 3) fr)
  && negb (msgid fr =? 0).

(** Bytes that the scan steps over one by one when [rest] follows: none of
    them is a preamble whose block passes the CRC or reaches beyond the
    bytes at hand. *)
Fixpoint skipped (junk rest : list Z) : bool :=
  match junk with
  | [] => true
  | b :: tl =>
      let w := junk ++ rest in
      let L := block_length w 0 in
      (negb (b =? 0xD3)
       || ((L + 6 <=? length w)%nat
           && negb (block_crc w 0 L =? CRC24 (L + 3) w)))
      && skipped tl rest
  end.

(** The messages of a list of frames, dispatched one after the other. *)
Fixpoint Decode_frames (env : Env) (fs : list (list Z)) (c : Core) (d : bool)
  : Core * bool :=
  match fs with
  | [] => (c, d)
  | fr :: tl =>
      let '(d1, c1) := Decode_message env (msgid fr) fr (length fr) c in
      Decode_frames env tl c1 (d || d1)
  end.

Definition all_valid (fs : list (list Z)) : Prop :=
  Forall (fun fr => valid_frame fr = true) fs.

(** A block length that is not 0 and that the ten bits of the header can
    hold. *)
Definition block_size_ok (L : nat) : bool := (1 <=? L)%nat && (L <=? 1023)%nat.

(** Every preamble among [junk], read with [rest] behind it, announces
    such a block. *)
Fixpoint announced (junk rest : list Z) : bool :=
  match junk with
  | [] => true
  | b :: tl =>
      (negb (b =? 0xD3) || block_size_ok (block_length (junk ++ rest) 0))
      && announced tl rest
  end.

Definition no_empty_block (junk : list Z) (fs : list (list Z)) : Prop :=
  announced junk (concat fs) = true /\
  Forall (fun fr => block_size_ok (block_length fr 0) = true) fs.

(** The input fits the free part of the message buffer: [Decode] takes it
    in at once. *)
Definition one_load (f : Framer) (buffer : list Z) : Prop :=
  (length buffer <= MESSAGE_BUFFER - _MessageSize f)%nat.

(** The framer [f] finds the frames [fs] behind [junk]: the bytes it holds
    and [junk] are stepped over in front of the frames, and the input is
    taken in at once or no preamble in front of a frame, and no frame,
    announces an empty block. *)
Definition resyncs (f : Framer) (junk : list Z) (fs : list (list Z)) : Prop :=
  skipped (pending f ++ junk) (concat fs) = true /\
  (one_load f (junk ++ concat fs) \/ no_empty_block (pending f ++ junk) fs).

(** A 1004 message with one satellite: only its L1 block carries data. *)
Definition msg_1004 (tow sync sv amb cnr : Z) : list Z :=
  pack [(12, 1004); (12, 0); (30, tow); (1, sync); (5, 1); (4, 0);
        (6, sv); (1, 0); (24, 1000000); (20, 0); (7, 5); (8, amb); (8, cnr);
        (2, 0); (14, 0x2000); (20, 0x80000); (7, 0); (8, 0)].

(** Three bytes that open a block of 1023 bytes. *)
Definition long_header : list Z := [0xD3; 0x03; 0xFF].

(** Three bytes that are no preamble; behind a preamble the first two
    read as the length 1. *)
Definition noise : list Z := [0x00; 0x01; 0xFF].

(** The message numbers a call has entered in [_typeList]. *)
Definition types_after (r : option (t_irc * Framer * Core)) : option (list Z) :=
  match r with
  | Some (_, _, c) => Some (_typeList c)
  | None => None
  end.

(** No frame begins at one of the first [n] positions of [l], however
    long it is taken to be. *)
Definition no_frame_starts (n : nat) (l : list Z) : bool :=
  forallb (fun p =>
             forallb (fun len => negb (valid_frame (firstn len (skipn p l))))
                     (seq 0 (S (length l))))
          (seq 0 n).

(** [_CurrentTime.valid() && CurrentObsTime != _CurrentTime] *)
Definition new_epoch (T : bncTime) (c : Core) : bool :=
  time_valid (_CurrentTime c) && time_ne T (_CurrentTime c).






(** An extended GPS observation frame for one satellite, the last of its
    epoch. *)
Definition frame_1004 : list Z := frame_of (msg_1004 1000 0 5 0 40).

(** The body came to its end without an early [return]. *)
Definition completes {A} (o : outcome A) : bool :=
  match o with
  | Next _ _ _ => true
  | Return _ _ => false
  end.

(** A 1004 frame whose synchronous flag says that more of the epoch is to
    come, and the header of a 1004 message, flag 0, that announces a
    satellite and stops. *)
Definition frame_1004_first : list Z := frame_of (msg_1004 1000 1 5 0 40).


(** [_BlockSize] for a frame at the front of [_Message]. *)
Definition size_of (fr : list Z) : Z := Z.of_nat (length fr).

(** The bytes not yet looked at. *)
Definition remaining (f : Framer) : nat := (_MessageSize f - _SkipBytes f)%nat.

(** A framer on which [GetMessage] reports a message and changes nothing. *)
Definition stalled (f : Framer) : Prop :=
  fst (GetMessage f) <> 0 /\ snd (GetMessage f) = f.

(** The framer after [n] calls of [GetMessage]. *)
Fixpoint framer_after (n : nat) (f : Framer) : Framer :=
  match n with
  | O => f
  | S n' => framer_after n' (snd (GetMessage f))
  end.

(** The framer states a call of [Decode] can pass through: bytes of the
    buffer are taken in, [GetMessage] is called. *)
Inductive reaches : Framer -> list Z -> Framer -> Prop :=
| reaches_here f buf : reaches f buf f
| reaches_get f buf f1 :
    reaches (snd (GetMessage f)) buf f1 -> reaches f buf f1
| reaches_feed f buf l f1 :
    (l <= length buf)%nat ->
    reaches (feed f buf l) (skipn l buf) f1 -> reaches f buf f1.

Definition framer_inv (f : Framer) : Prop :=
  framer_ok f /\ length (_Message f) = MESSAGE_BUFFER.

(** Five bytes on which the loop over the messages does not end: a
    preamble with the length 0 and two bytes that read as message 1004. *)
Definition stall_bytes : list Z := [0xD3; 0x00; 0x00; 0x3E; 0xC0].

(** Bytes that hold no frame and put the five bytes above at the end of
    the first buffer load. *)
Definition stall_prefix : list Z :=
  repeat 0 2043 ++ stall_bytes ++ [0x00].

(** The framer a call has left. *)
Definition framer_of (r : option (t_irc * Framer * Core)) : Framer :=
  match r with
  | Some (_, f, _) => f
  | None => new_framer []
  end.

(** A framer that has yielded a frame and holds a preamble. *)
Definition busy_framer : Framer :=
  framer_of (Decode env0 (frame_1004 ++ [0xD3]) (new_framer stale_memory)
                    (new_core "X")).

(** A 1004 frame of the epoch 2000 that announces one satellite and stops
    behind its header. *)
Definition frame_1004_cut : list Z :=
  frame_of (pack [(12, 1004); (12, 0); (30, 2000); (1, 1); (5, 1); (4, 0)]).

(** The block sizes, header and CRC included, that the decoders accept;
    the Galileo decoder tells its two messages apart by the message
    number. *)
Definition accepted_size (k : eph_kind) (type size : Z) : bool :=
  match k with
  | EphGPS | EphQZSS | EphIRNSS => size =? 67
  | EphGLONASS => size =? 51
  | EphSBAS => size =? 35
  | EphBDS => size =? 70
  | EphGalileo => ((type =? 1046) && (size =? 69)) || ((type =? 1045) && (size =? 68))
  end.

(** An I/NAV message: satellite 3, week 1000, a square root of the
    semi-major axis of 1024; everything else 0. *)
Definition msg_1046 : list Z :=
  pack [(12, 1046); (6, 3); (12, 1000); (10, 1); (8, 0); (14, 0); (14, 0);
        (6, 0); (21, 0); (31, 0); (16, 0); (16, 0); (32, 0); (16, 0); (32, 0);
        (16, 0); (32, 0x20000000); (14, 0); (16, 0); (32, 0); (16, 0); (32, 0);
        (16, 0); (32, 0); (24, 0); (10, 0); (10, 0); (2, 0); (1, 0); (2, 0);
        (1, 0)].

Definition frame_1046 : list Z := frame_of msg_1046.

(** Every observation the decoder holds, flushed or staged. *)
Definition all_obs (c : Core) : list t_satObs :=
  concat (_obsList c) ++ _CurrentObsList c.

(** No observation and no signal more or less. *)
Definition same_obs (c c' : Core) : Prop :=
  all_obs c' = all_obs c /\ _signals c' = _signals c.

(** An MSM4 frame of GPS with ten satellites and ten signals, one hundred
    cells, and the satellite data that goes with them. *)
Definition frame_1074_wide : list Z :=
  frame_of (pack [(12, 1074); (12, 0); (30, 1000); (1, 1); (18, 0);
                  (64, 0x3FF); (32, 0x3FF); (100, 0); (80, 0); (100, 0)]).

(** An extended GLONASS observation message for one satellite, and an
    ephemeris message that passes every test of its decoder. *)
Definition msg_1012 (tk sync sv freq amb cnr : Z) : list Z :=
  pack [(12, 1012); (12, 0); (27, tk); (1, sync); (5, 1); (4, 0);
        (6, sv); (1, 0); (5, freq); (25, 1000000); (20, 0); (7, 5); (7, amb);
        (8, cnr); (2, 0); (14, 0x2000); (20, 0x80000); (7, 0); (8, 0)].

Definition msg_1020 (sv freq : Z) : list Z :=
  pack [(12, 1020); (6, sv); (5, freq); (1, 0); (1, 1); (2, 0); (5, 0); (6, 0);
        (1, 0); (1, 0); (1, 0); (7, 1); (24, 0x100000); (27, 0x100000); (5, 0);
        (24, 0); (27, 0); (5, 0); (24, 0); (27, 0); (5, 0); (1, 0); (11, 0);
        (2, 0); (1, 0); (22, 0); (5, 0); (5, 0); (1, 0); (4, 0); (11, 1);
        (2, 0); (1, 1); (11, 0); (32, 0); (5, 0); (22, 0); (1, 0); (7, 0)].

Definition frame_1012_sv0 : list Z := frame_of (msg_1012 1000 0 0 9 0 40).

Definition frame_1020_sv0 : list Z := frame_of (msg_1020 0 9).

(** A store at [idx] goes into the table. *)
Definition in_table (idx : Z) : bool :=
  match GLOFreq_wild (GLOFreq_store (new_core "X") idx 0) with
  | [] => true
  | _ :: _ => false
  end.





















(** * Reasoning about decoder bodies *)

Section Logic.

Context {A : Type}.

Definition outcome_sat (o : outcome A) (Q : A -> Core -> Prop)
           (E : bool -> Core -> Prop) : Prop :=
  match o with
  | Next a _ c => Q a c
  | Return b c => E b c
  end.

(** From a state satisfying [P], the body either goes on with a value and
    a state satisfying [Q], or leaves the function with [E]. *)
Definition hoare (P : Core -> Prop) (m : Dec A) (Q : A -> Core -> Prop)
           (E : bool -> Core -> Prop) : Prop :=
  forall rd c, P c -> outcome_sat (m rd c) Q E.

(** A step that only reads: the decoder object is left as it is, and the
    only way out of the function is the [return false] of the cursor. *)
Definition pure_read (m : Dec A) (Qv : A -> Prop) : Prop :=
  forall rd c,
    match m rd c with
    | Next a _ c' => c' = c /\ Qv a
    | Return b c' => b = false /\ c' = c
    end.

Lemma hoare_ret P (a : A) Q E :
  (forall c, P c -> Q a c) -> hoare P (ret a) Q E.
Proof. intros H rd c Hc. simpl. auto. Qed.

Lemma hoare_return P b Q E :
  (forall c, P c -> E b c) -> hoare P (return_ b : Dec A) Q E.
Proof. intros H rd c Hc. simpl. auto. Qed.

Lemma hoare_conseq (P P' : Core -> Prop) (m : Dec A) (Q Q' : A -> Core -> Prop)
      (E E' : bool -> Core -> Prop) :
  hoare P' m Q' E' ->
  (forall c, P c -> P' c) ->
  (forall a c, Q' a c -> Q a c) ->
  (forall b c, E' b c -> E b c) ->
  hoare P m Q E.
Proof.
  intros H HP HQ HE rd c Hc. specialize (H rd c (HP c Hc)).
  unfold outcome_sat in *. destruct (m rd c); auto.
Qed.

Lemma hoare_pure P (m : Dec A) Qv (Q : A -> Core -> Prop) E :
  pure_read m Qv ->
  (forall c, P c -> E false c) ->
  (forall a c, Qv a -> P c -> Q a c) ->
  hoare P m Q E.
Proof.
  intros Hm HE HQ rd c Hc. specialize (Hm rd c). unfold outcome_sat.
  destruct (m rd c) as [a rd' c'|b c'].
  - destruct Hm as [-> Ha]. auto.
  - destruct Hm as [-> ->]. auto.
Qed.

Lemma pure_ret (a : A) (Qv : A -> Prop) : Qv a -> pure_read (ret a) Qv.
Proof. intros H rd c. simpl. auto. Qed.

Lemma pure_weaken (m : Dec A) (Qv Qv' : A -> Prop) :
  pure_read m Qv -> (forall a, Qv a -> Qv' a) -> pure_read m Qv'.
Proof.
  intros H HQ rd c. specialize (H rd c). destruct (m rd c); intuition.
Qed.

End Logic.

Lemma hoare_bind {A B} P (m : Dec A) (k : A -> Dec B) Q R E :
  hoare P m Q E ->
  (forall a, hoare (Q a) (k a) R E) ->
  hoare P (bind m k) R E.
Proof.
  intros Hm Hk rd c Hc. specialize (Hm rd c Hc). unfold bind, outcome_sat in *.
  destruct (m rd c) as [a rd' c'|b c']; [apply (Hk a rd' c' Hm) | exact Hm].
Qed.

Lemma hoare_bind_pure {A B} P (m : Dec A) Qv (k : A -> Dec B) R
      (E : bool -> Core -> Prop) :
  pure_read m Qv ->
  (forall c, P c -> E false c) ->
  (forall a, Qv a -> hoare P (k a) R E) ->
  hoare P (bind m k) R E.
Proof.
  intros Hm HE Hk rd c Hc. specialize (Hm rd c). unfold bind, outcome_sat in *.
  destruct (m rd c) as [a rd' c'|b c'].
  - destruct Hm as [-> Ha]. apply (Hk a Ha rd' c Hc).
  - destruct Hm as [-> ->]. auto.
Qed.

Lemma pure_bind {A B} (m : Dec A) Qa (k : A -> Dec B) Qb :
  pure_read m Qa ->
  (forall a, Qa a -> pure_read (k a) Qb) ->
  pure_read (bind m k) Qb.
Proof.
  intros Hm Hk rd c. specialize (Hm rd c). unfold bind.
  destruct (m rd c) as [a rd' c'|b c'].
  - destruct Hm as [-> Ha]. apply (Hk a Ha).
  - exact Hm.
Qed.

Lemma hoare_modify P f (Q : unit -> Core -> Prop) E :
  (forall c, P c -> Q tt (f c)) -> hoare P (modify f) Q E.
Proof. intros H rd c Hc. simpl. auto. Qed.

Lemma hoare_get_core P (Q : Core -> Core -> Prop) E :
  (forall c, P c -> Q c c) -> hoare P get_core Q E.
Proof. intros H rd c Hc. simpl. auto. Qed.

(** ** The value of a field *)

Lemma value_of_acc l : forall acc,
  fold_left (fun a (b : bool) => 2 * a + (if b then 1 else 0)) l acc
  = acc * 2 ^ Z.of_nat (length l) + value_of l.
Proof.
  unfold value_of. induction l as [|b l IH]; intros acc.
  - simpl. lia.
  - cbn [fold_left length]. rewrite IH. rewrite (IH (2 * 0 + _)).
    rewrite Nat2Z.inj_succ, Z.pow_succ_r by lia. ring.
Qed.

Lemma value_of_range l : 0 <= value_of l < 2 ^ Z.of_nat (length l).
Proof.
  induction l as [|b l IH].
  - cbn. lia.
  - unfold value_of. cbn [fold_left length]. rewrite value_of_acc.
    rewrite Nat2Z.inj_succ, Z.pow_succ_r by lia.
    destruct b; lia.
Qed.

Lemma pure_GETBITS n :
  pure_read (GETBITS n) (fun v => 0 <= v < 2 ^ Z.of_nat n).
Proof.
  intros rd c. unfold GETBITS.
  destruct (Nat.ltb_spec (length rd) n); [auto|].
  split; [reflexivity|].
  pose proof (value_of_range (firstn n rd)) as Hr.
  rewrite firstn_length_le in Hr by lia. exact Hr.
Qed.

Lemma pure_GETBITS_any n : pure_read (GETBITS n) (fun _ => True).
Proof. eapply pure_weaken; [apply pure_GETBITS | auto]. Qed.

Lemma pure_bytes_left : pure_read bytes_left (fun _ => True).
Proof. intros rd c. cbn. auto. Qed.

Lemma pure_peek_bytes : pure_read peek_bytes (fun _ => True).
Proof. intros rd c. cbn. auto. Qed.

Create HintDb pure_db.
#[export] Hint Resolve pure_GETBITS_any pure_bytes_left pure_peek_bytes : pure_db.

Ltac pure_macro c :=
  intros; unfold c;
  eapply pure_bind; [solve [eauto with pure_db] | intros; apply pure_ret; exact I].

Lemma pure_GETBITS64 n : pure_read (GETBITS64 n) (fun _ => True).
Proof. pure_macro GETBITS64. Qed.
Lemma pure_SKIPBITS n : pure_read (SKIPBITS n) (fun _ => True).
Proof. pure_macro SKIPBITS. Qed.
Lemma pure_GETBITSSIGN n : pure_read (GETBITSSIGN n) (fun _ => True).
Proof. pure_macro GETBITSSIGN. Qed.
#[export] Hint Resolve pure_GETBITS64 pure_SKIPBITS pure_GETBITSSIGN : pure_db.
Lemma pure_GETBITSFACTOR n f : pure_read (GETBITSFACTOR n f) (fun _ => True).
Proof. pure_macro GETBITSFACTOR. Qed.
Lemma pure_GETBITS_double n : pure_read (GETBITS_double n) (fun _ => True).
Proof. pure_macro GETBITS_double. Qed.
Lemma pure_GETFLOAT n s : pure_read (GETFLOAT n s) (fun _ => True).
Proof. pure_macro GETFLOAT. Qed.
Lemma pure_GETFLOATSIGN n s : pure_read (GETFLOATSIGN n s) (fun _ => True).
Proof. pure_macro GETFLOATSIGN. Qed.
Lemma pure_GETFLOATSIGNM n s : pure_read (GETFLOATSIGNM n s) (fun _ => True).
Proof. pure_macro GETFLOATSIGNM. Qed.

Lemma pure_GETCHARS n : pure_read (GETCHARS n) (fun _ => True).
Proof.
  induction n as [|n IH]; cbn [GETCHARS].
  - apply pure_ret. exact I.
  - eapply pure_bind; [apply pure_GETBITS_any|]. intros.
    eapply pure_bind; [apply IH|]. intros. apply pure_ret. exact I.
Qed.

Lemma pure_GETSTRING : pure_read GETSTRING (fun _ => True).
Proof.
  unfold GETSTRING. eapply pure_bind; [apply pure_GETBITS_any|]. intros.
  eapply pure_bind; [apply pure_GETCHARS|]. intros. apply pure_ret. exact I.
Qed.

Lemma pure_fld e name m : pure_read m (fun _ => True) ->
  pure_read (fld e name m) (fun _ => True).
Proof.
  intros H. unfold fld. eapply pure_bind; [exact H|]. intros.
  apply pure_ret. exact I.
Qed.

Lemma pure_fldZ e name m : pure_read m (fun _ => True) ->
  pure_read (fldZ e name m) (fun _ => True).
Proof.
  intros H. unfold fldZ. eapply pure_bind; [exact H|]. intros.
  apply pure_ret. exact I.
Qed.

Lemma pure_read_down {A} n (m : Dec A) : pure_read m (fun _ => True) ->
  pure_read (read_down n m) (fun _ => True).
Proof.
  intros H. induction n as [|n IH]; cbn [read_down].
  - apply pure_ret. exact I.
  - eapply pure_bind; [exact H|]. intros.
    eapply pure_bind; [exact IH|]. intros. apply pure_ret. exact I.
Qed.

Lemma pure_read_cells {A} (d : A) mask n (m : Dec A) :
  pure_read m (fun _ => True) ->
  pure_read (read_cells d mask n m) (fun _ => True).
Proof.
  intros H. induction n as [|n IH]; cbn [read_cells].
  - apply pure_ret. exact I.
  - eapply pure_bind.
    + destruct (Z.testbit mask (Z.of_nat n mod 64));
        [exact H | apply pure_ret; exact I].
    + intros. eapply pure_bind; [exact IH|]. intros. apply pure_ret. exact I.
Qed.

#[export] Hint Resolve pure_GETBITSFACTOR pure_GETBITS_double pure_GETFLOAT pure_GETFLOATSIGN
  pure_GETFLOATSIGNM pure_GETSTRING pure_GETCHARS pure_fld pure_fldZ
  pure_read_down pure_read_cells : pure_db.

(** Stepping through a body whose steps are reads. *)
Ltac pure_step :=
  lazymatch goal with
  | |- pure_read (bind _ _) _ =>
      eapply pure_bind; [solve [eauto with pure_db] | intros ? _]
  | |- pure_read (ret _) _ => apply pure_ret
  | |- pure_read (if ?b then _ else _) _ => destruct b
  | |- pure_read (match ?x with (_, _) => _ end) _ => destruct x
  end.


(** ** Well-formed observations *)


Lemma valid_band_frq_code f v ok : valid_band (frq_code f v ok) <-> valid_band f.
Proof. reflexivity. Qed.
Lemma valid_band_frq_phase f v ok : valid_band (frq_phase f v ok) <-> valid_band f.
Proof. reflexivity. Qed.
Lemma valid_band_frq_snr f v ok : valid_band (frq_snr f v ok) <-> valid_band f.
Proof. reflexivity. Qed.
Lemma valid_band_frq_doppler f v ok : valid_band (frq_doppler f v ok) <-> valid_band f.
Proof. reflexivity. Qed.
Lemma valid_band_frq_lock f i s ok : valid_band (frq_lock f i s ok) <-> valid_band f.
Proof. reflexivity. Qed.

Ltac band_solve :=
  unfold valid_band;
  repeat match goal with
         | |- context [if ?b then _ else _] => destruct b
         end;
  reflexivity.

Lemma pure_gps_L1 env type :
  pure_read (gps_L1 env type) (fun r => valid_band (fst (fst r))).
Proof.
  unfold gps_L1. repeat pure_step; cbn [fst]; band_solve.
Qed.

Lemma two_bits v : 0 <= v < 2 ^ Z.of_nat 2 -> v = 0 \/ v = 1 \/ v = 2 \/ v = 3.
Proof. cbn. lia. Qed.

Lemma pure_gps_L2 env type l1range amb :
  pure_read (gps_L2 env type l1range amb) valid_band.
Proof.
  unfold gps_L2. eapply pure_bind; [apply pure_GETBITS|]. intros code Hc.
  apply two_bits in Hc.
  repeat pure_step;
    destruct Hc as [-> | [-> | [-> | ->]]]; cbn [Z.eqb Pos.eqb]; band_solve.
Qed.

Lemma pure_glo_L1 env type code freq :
  pure_read (glo_L1 env type code freq) (fun r => valid_band (fst (fst r))).
Proof.
  unfold glo_L1. repeat pure_step; cbn [fst]; band_solve.
Qed.

Lemma pure_glo_L2 env type l1range amb freq :
  pure_read (glo_L2 env type l1range amb freq) valid_band.
Proof.
  unfold glo_L2. eapply pure_bind; [apply pure_GETBITS|]. intros code Hc.
  apply two_bits in Hc.
  repeat pure_step;
    destruct Hc as [-> | [-> | [-> | ->]]]; cbn [Z.eqb Pos.eqb]; band_solve.
Qed.

(** *** MSM tables *)


Lemma nth_Forall {A} (P : A -> Prop) l d n : Forall P l -> P d -> P (nth n l d).
Proof.
  intros Hl Hd. destruct (Nat.lt_ge_cases n (length l)) as [H|H].
  - eapply Forall_forall; [exact Hl | apply nth_In, H].
  - rewrite nth_overflow by exact H. exact Hd.
Qed.

Ltac table_ok := repeat (apply Forall_cons; [exact I || reflexivity|]); apply Forall_nil.

Lemma gps_ok : Forall code_ok gps.  Proof. unfold gps. table_ok. Qed.
Lemma glo_ok : Forall code_ok glo.  Proof. unfold glo. table_ok. Qed.
Lemma gal_ok : Forall code_ok gal.  Proof. unfold gal. table_ok. Qed.
Lemma qzss_ok : Forall code_ok qzss.  Proof. unfold qzss. table_ok. Qed.
Lemma bds_ok : Forall code_ok bds.  Proof. unfold bds. table_ok. Qed.
Lemma irn_ok : Forall code_ok irn.  Proof. unfold irn. table_ok. Qed.

(** The table lookup touches nothing but [GLOFreq], and yields a
    two-character code or none. *)
Lemma msm_codedata_spec sys i j numsat a c :
  let r := msm_codedata sys i j numsat a c in
  (snd r = c \/ exists idx v, snd r = GLOFreq_store c idx v) /\ code_ok (fst r).
Proof.
  cbv zeta. unfold msm_codedata.
  set (cd0 := mk_cd 0.0 None).
  assert (H0 : code_ok cd0) by exact I.
  pose proof (nth_Forall code_ok glo cd0 (Z.to_nat (RTCM3_MSM_NUMSIG - j - 1)) glo_ok H0) as Hg.
  repeat match goal with
         | |- context [if Ascii.eqb ?x ?y then _ else _] => destruct (Ascii.eqb x y)
         | |- context [if orb ?x ?y then _ else _] => destruct (orb x y)
         end.
  all: try solve
    [ split;
      [ left; reflexivity
      | cbn [fst];
        first [ exact H0
              | apply nth_Forall;
                [ first [apply gps_ok | apply gal_ok | apply qzss_ok
                        | apply bds_ok | apply irn_ok]
                | exact H0 ] ] ] ].
  all: destruct (ext_at a numsat <? 14);
    (split;
     [ first [ left;
               repeat match goal with
                      | |- context [if ?b then _ else _] => destruct b
                      end; reflexivity
             | right; eexists _, _;
               repeat match goal with
                      | |- context [if ?b then _ else _] => destruct b
                      end; reflexivity ]
     | repeat match goal with
              | |- context [if ?b then _ else _] => destruct b
              end; cbn [fst]; try exact Hg; exact I ]).
Qed.

Lemma msm_frqObs_rnx env type cd s count numsat a :
  _rnxType2ch (msm_frqObs env type cd s count numsat a) = s.
Proof.
  unfold msm_frqObs. cbv zeta.
  repeat match goal with
         | |- context [if ?b then _ else _] => destruct b
         end; reflexivity.
Qed.

Lemma pure_msm_sat_data sub numsat :
  pure_read (msm_sat_data sub numsat) (fun _ => True).
Proof. unfold msm_sat_data. repeat pure_step; exact I. Qed.

Lemma pure_msm_sig_data sub cellmask numcells a :
  pure_read (msm_sig_data sub cellmask numcells a) (fun _ => True).
Proof. unfold msm_sig_data. cbv zeta. repeat pure_step; exact I. Qed.

#[export] Hint Resolve pure_msm_sat_data pure_msm_sig_data : pure_db.


(** ** Invariants of the epoch accumulator

    [Inv decoded c]: a property of the decoder object that may depend on the
    flag [decoded] of the running decoder.  Whatever is kept by staging
    well-formed observations, by storing into [GLOFreq], by setting the
    epoch, by a diagnostic and by the two flushes, is kept by the three
    observation decoders. *)

Section Accumulator.

Variable Inv : bool -> Core -> Prop.

Hypothesis I_stage : forall d c o,
  sat_wf o -> Inv d c -> Inv d (set_CurrentObsList c (_CurrentObsList c ++ [o])).
Hypothesis I_store : forall d c i v, Inv d c -> Inv d (GLOFreq_store c i v).
Hypothesis I_time : forall d c t, Inv d c -> Inv d (set_CurrentTime c t).
Hypothesis I_message : forall d c s b, Inv d c -> Inv d (emit c (newMessage s b)).
Hypothesis I_new_epoch : forall c,
  Inv false c ->
  Inv true (set_CurrentObsList (set_obsList c (_obsList c ++ [_CurrentObsList c])) []).
Hypothesis I_sync : forall d c,
  Inv d c ->
  Inv true (set_CurrentObsList
            (set_CurrentTime (set_obsList c (_obsList c ++ [_CurrentObsList c]))
                             time_reset) []).
Hypothesis I_abort : forall d c, Inv d c -> Inv false c.

(** The shape of the triples below: the invariant holds under the current
    flag, and a way out of the function returns [false]. *)
Definition aborts (b : bool) (c : Core) : Prop := b = false /\ Inv false c.

Ltac acc_read_step :=
  lazymatch goal with
  | |- hoare _ (bind _ _) _ _ =>
      eapply hoare_bind_pure;
      [solve [eauto with pure_db]
      | intros ? H; split; [reflexivity | exact (I_abort _ _ H)]
      | intros ? _]
  | |- hoare _ (ret _) _ _ => apply hoare_ret; intros ? H; exact H
  | |- hoare _ (if ?b then _ else _) _ _ => destruct b
  | |- hoare _ (match ?x with (_, _) => _ end) _ _ => destruct x
  end.

Lemma hoare_push d o :
  sat_wf o -> hoare (Inv d) (push_CurrentObs o) (fun _ => Inv d) aborts.
Proof.
  intros Ho. apply hoare_modify. intros c Hc. apply I_stage; assumption.
Qed.

Lemma sat_wf_bands l : l <> [] -> Forall valid_band l -> forall p t ty, sat_wf (mk_satObs p t ty l).
Proof. intros H1 H2 p t ty. split; assumption. Qed.

Lemma hoare_gps_sat env type T d :
  hoare (Inv d) (gps_sat env type T) (fun _ => Inv d) aborts.
Proof.
  unfold gps_sat. acc_read_step.
  eapply hoare_bind_pure;
    [apply pure_gps_L1
    | intros ? H; split; [reflexivity | exact (I_abort _ _ H)] |].
  intros [[f1 l1] amb] H1. cbn [fst] in H1.
  destruct ((type =? 1003) || (type =? 1004)).
  - eapply hoare_bind_pure;
      [apply pure_gps_L2
      | intros ? H; split; [reflexivity | exact (I_abort _ _ H)] |].
    intros f2 H2.
    apply hoare_push, sat_wf_bands; cbn;
      [discriminate | repeat (apply Forall_cons; [assumption|]); apply Forall_nil].
  - apply hoare_push, sat_wf_bands; cbn;
      [discriminate | repeat (apply Forall_cons; [assumption|]); apply Forall_nil].
Qed.

Lemma hoare_glo_sat env type T d :
  hoare (Inv d) (glo_sat env type T) (fun _ => Inv d) aborts.
Proof.
  unfold glo_sat. do 3 acc_read_step.
  eapply hoare_bind with (Q := fun _ => Inv d);
    [apply hoare_modify; intros c Hc; apply I_store, Hc|].
  intros ?.
  eapply hoare_bind_pure;
    [apply pure_glo_L1
    | intros ? H; split; [reflexivity | exact (I_abort _ _ H)] |].
  intros [[f1 l1] amb] H1. cbn [fst] in H1.
  destruct ((type =? 1011) || (type =? 1012)).
  - eapply hoare_bind_pure;
      [apply pure_glo_L2
      | intros ? H; split; [reflexivity | exact (I_abort _ _ H)] |].
    intros f2 H2.
    apply hoare_push, sat_wf_bands; cbn;
      [discriminate | repeat (apply Forall_cons; [assumption|]); apply Forall_nil].
  - apply hoare_push, sat_wf_bands; cbn;
      [discriminate | repeat (apply Forall_cons; [assumption|]); apply Forall_nil].
Qed.

Lemma hoare_repeat_dec (J : Core -> Prop) E n m :
  hoare J m (fun _ => J) E ->
  hoare J (repeat_dec n m) (fun _ => J) E.
Proof.
  intros H. induction n as [|n IH]; cbn [repeat_dec].
  - apply hoare_ret. auto.
  - eapply hoare_bind; [exact H | intros ?; exact IH].
Qed.

Lemma hoare_flush_on_new_epoch T :
  hoare (Inv false) (flush_on_new_epoch T) Inv aborts.
Proof.
  unfold flush_on_new_epoch.
  eapply hoare_bind with (Q := fun c0 c => c = c0 /\ Inv false c).
  - apply hoare_get_core. auto.
  - intros c0.
    destruct (time_valid (_CurrentTime c0) && time_ne T (_CurrentTime c0)).
    + eapply hoare_bind with (Q := fun _ => Inv true).
      * apply hoare_modify. intros c [-> H]. apply I_new_epoch, H.
      * intros ?. apply hoare_ret. auto.
    + apply hoare_ret. intros c [_ H]. exact H.
Qed.

Lemma hoare_flush_unless_sync syncf decoded :
  hoare (Inv decoded) (flush_unless_sync syncf decoded) Inv aborts.
Proof.
  unfold flush_unless_sync. destruct (syncf =? 0).
  - eapply hoare_bind with (Q := fun _ => Inv true).
    + apply hoare_modify. intros c H. eapply I_sync, H.
    + intros ?. apply hoare_ret. auto.
  - apply hoare_ret. auto.
Qed.

Lemma hoare_set_CurrentTime T d :
  hoare (Inv d) (modify (fun c => set_CurrentTime c T)) (fun _ => Inv d) aborts.
Proof. apply hoare_modify. intros c H. apply I_time, H. Qed.

Lemma DecodeRTCM3GPS_body_inv env :
  hoare (Inv false) (DecodeRTCM3GPS_body env) Inv aborts.
Proof.
  unfold DecodeRTCM3GPS_body. do 3 acc_read_step.
  eapply hoare_bind; [apply hoare_flush_on_new_epoch | intros decoded].
  eapply hoare_bind; [apply hoare_set_CurrentTime | intros ?].
  do 3 acc_read_step.
  eapply hoare_bind; [apply hoare_repeat_dec, hoare_gps_sat | intros ?].
  apply hoare_flush_unless_sync.
Qed.

Lemma DecodeRTCM3GLONASS_body_inv env :
  hoare (Inv false) (DecodeRTCM3GLONASS_body env) Inv aborts.
Proof.
  unfold DecodeRTCM3GLONASS_body. do 3 acc_read_step.
  eapply hoare_bind; [apply hoare_flush_on_new_epoch | intros decoded].
  eapply hoare_bind; [apply hoare_set_CurrentTime | intros ?].
  do 3 acc_read_step.
  eapply hoare_bind; [apply hoare_repeat_dec, hoare_glo_sat | intros ?].
  apply hoare_flush_unless_sync.
Qed.

Definition walk_ok (w : msm_walk_state) : Prop :=
  Forall valid_band (_obs (w_obs w)).

Lemma I_push_nonempty d c o :
  Inv d c -> Forall valid_band (_obs o) ->
  Inv d (if (0 <? length (_obs o))%nat
       then set_CurrentObsList c (_CurrentObsList c ++ [o]) else c).
Proof.
  intros Hc Ho. destruct (Nat.ltb_spec 0 (length (_obs o))); [|exact Hc].
  apply I_stage; [|exact Hc]. split; [|exact Ho].
  intros E. rewrite E in H. cbn in H. lia.
Qed.

Lemma msm_cell_inv env type sys T satmask sigmask cellmask a count w c d :
  Inv d c -> walk_ok w ->
  let r := msm_cell env type sys T satmask sigmask cellmask a count w c in
  Inv d (snd r) /\ walk_ok (fst r).
Proof.
  intros Hc Hw. cbv zeta. unfold msm_cell.
  set (j := if 0 <=? w_j w then _ else _).
  set (adv := if j <? 0 then _ else _).
  assert (Hadv : Inv d (snd adv) /\ walk_ok (fst adv)).
  { subst adv. destruct (j <? 0); cbn [fst snd].
    - split; [apply I_push_nonempty; assumption | apply Forall_nil].
    - split; assumption. }
  destruct adv as [w1 c1]. cbn [fst snd] in Hadv. destruct Hadv as [Hc1 Hw1].
  destruct (Z.testbit cellmask (Z.of_nat count mod 64)); [|split; assumption].
  pose proof (msm_codedata_spec sys (w_i w1) (w_j w1) (w_numsat w1) a c1) as Hcd.
  cbv zeta in Hcd.
  destruct (msm_codedata sys (w_i w1) (w_j w1) (w_numsat w1) a c1) as [cd c2].
  cbn [fst snd] in Hcd. destruct Hcd as [Hc2 Hcode].
  assert (Hc2' : Inv d c2).
  { destruct Hc2 as [-> | (idx & v & ->)]; [exact Hc1 | apply I_store, Hc1]. }
  unfold code_ok in Hcode. destruct (code cd) as [s|]; [|split; assumption].
  split; [exact Hc2'|]. unfold walk_ok. cbn [fst w_obs _obs].
  apply Forall_app. split; [exact Hw1|].
  apply Forall_cons; [|apply Forall_nil].
  unfold valid_band. rewrite msm_frqObs_rnx. exact Hcode.
Qed.

Lemma msm_cells_inv env type sys T satmask sigmask cellmask a count d :
  forall w c, Inv d c -> walk_ok w ->
  let r := msm_cells env type sys T satmask sigmask cellmask a count w c in
  Inv d (snd r) /\ walk_ok (fst r).
Proof.
  induction count as [|count IH]; intros w c Hc Hw; cbn [msm_cells].
  - cbn. split; assumption.
  - pose proof (msm_cell_inv env type sys T satmask sigmask cellmask a count w c d Hc Hw) as H.
    cbv zeta in H.
    destruct (msm_cell env type sys T satmask sigmask cellmask a count w c) as [w1 c1].
    cbn [fst snd] in H. destruct H as [Hc1 Hw1]. apply IH; assumption.
Qed.

Lemma msm_walk_inv env type sys T satmask sigmask cellmask numsat numcells a c d :
  Inv d c ->
  Inv d (msm_walk env type sys T satmask sigmask cellmask numsat numcells a c).
Proof.
  intros Hc. unfold msm_walk.
  pose proof (msm_cells_inv env type sys T satmask sigmask cellmask a numcells d
                (mk_walk RTCM3_MSM_NUMSAT (-1) numsat new_satObs) c Hc
                (Forall_nil _)) as H.
  cbv zeta in H.
  destruct (msm_cells env type sys T satmask sigmask cellmask a numcells _ c) as [w1 c1].
  cbn [fst snd] in H. destruct H as [Hc1 Hw1].
  apply I_push_nonempty; assumption.
Qed.

Lemma hoare_msm_full env type sys T d :
  hoare (Inv d) (msm_full env type sys T) (fun _ => Inv d) aborts.
Proof.
  unfold msm_full. repeat acc_read_step.
  apply hoare_modify. intros c Hc. apply msm_walk_inv, Hc.
Qed.

Lemma DecodeRTCM3MSM_body_inv env :
  hoare (Inv false) (DecodeRTCM3MSM_body env) Inv aborts.
Proof.
  unfold DecodeRTCM3MSM_body. do 2 acc_read_step.
  destruct (msm_sys a) as [sys|];
    [|apply hoare_return; intros c H; split; [reflexivity | exact H]].
  eapply hoare_bind_pure with (Qv := fun _ => True);
    [| intros ? H; split; [reflexivity | exact (I_abort _ _ H)] |].
  { repeat pure_step; exact Logic.I. }
  intros T _.
  eapply hoare_bind; [apply hoare_flush_on_new_epoch | intros decoded].
  eapply hoare_bind; [apply hoare_set_CurrentTime | intros ?].
  acc_read_step.
  eapply hoare_bind with (Q := fun _ => Inv decoded).
  - destruct ((a <=? 1137) && (4 <=? a mod 10) && (a mod 10 <=? 7)).
    + apply hoare_msm_full.
    + destruct (a mod 10 <? 4).
      * apply hoare_modify. intros c Hc. apply I_message, Hc.
      * apply hoare_ret. auto.
  - intros ?. apply hoare_flush_unless_sync.
Qed.

End Accumulator.

(** ** Ephemeris decoders: one record emitted, or nothing done *)


Ltac eph_step :=
  lazymatch goal with
  | |- hoare (eq ?c0) (bind (modify ?f) _) _ _ =>
      eapply hoare_bind with (Q := fun _ => eq (f c0));
      [apply hoare_modify; intros ? <-; reflexivity | intros ?]
  | |- hoare _ (bind _ _) _ _ =>
      eapply hoare_bind_pure;
      [solve [eauto with pure_db]
      | intros ? <-; left; split; reflexivity
      | intros ? _]
  | |- hoare _ (return_ false) _ _ =>
      apply hoare_return; intros ? <-; left; split; reflexivity
  | |- hoare _ (ret false) _ _ =>
      apply hoare_ret; intros ? <-; left; split; reflexivity
  | |- hoare _ (ret true) _ _ =>
      apply hoare_ret; intros ? <-; right; split; [reflexivity|];
      eexists; split; [|first [left; reflexivity | right; eexists _, _; reflexivity]];
      reflexivity
  | |- hoare _ (if ?b then _ else _) _ _ => destruct b
  | |- hoare _ (match ?x with (_, _) => _ end) _ _ => destruct x
  end.

Ltac eph_body := intros; repeat eph_step.

Lemma DecodeGPSEphemeris_body_post env c0 :
  hoare (eq c0) (DecodeGPSEphemeris_body env) (eph_post c0) (eph_post c0).
Proof. unfold DecodeGPSEphemeris_body. eph_body. Qed.

Lemma DecodeGLONASSEphemeris_body_post env c0 :
  hoare (eq c0) (DecodeGLONASSEphemeris_body env) (eph_post c0) (eph_post c0).
Proof. unfold DecodeGLONASSEphemeris_body. eph_body. Qed.

Lemma DecodeQZSSEphemeris_body_post env c0 :
  hoare (eq c0) (DecodeQZSSEphemeris_body env) (eph_post c0) (eph_post c0).
Proof. unfold DecodeQZSSEphemeris_body. eph_body. Qed.

Lemma DecodeIRNSSEphemeris_body_post env c0 :
  hoare (eq c0) (DecodeIRNSSEphemeris_body env) (eph_post c0) (eph_post c0).
Proof. unfold DecodeIRNSSEphemeris_body. eph_body. Qed.

Lemma DecodeSBASEphemeris_body_post env c0 :
  hoare (eq c0) (DecodeSBASEphemeris_body env) (eph_post c0) (eph_post c0).
Proof. unfold DecodeSBASEphemeris_body. eph_body. Qed.

Lemma DecodeBDSEphemeris_body_post env c0 :
  hoare (eq c0) (DecodeBDSEphemeris_body env) (eph_post c0) (eph_post c0).
Proof. unfold DecodeBDSEphemeris_body. eph_body. Qed.

Lemma pure_return_false {A} (Qv : A -> Prop) : pure_read (return_ false) Qv.
Proof. intros rd c. cbn. auto. Qed.

Lemma DecodeGalileoEphemeris_body_post env c0 :
  hoare (eq c0) (DecodeGalileoEphemeris_body env) (eph_post c0) (eph_post c0).
Proof.
  unfold DecodeGalileoEphemeris_body.
  repeat first
    [ eph_step
    | eapply hoare_bind_pure with (Qv := fun _ => True);
      [ repeat first [pure_step | apply pure_return_false]; exact I
      | intros ? <-; left; split; reflexivity
      | intros ? _ ] ].
Qed.

(** A decoder function in terms of its body. *)
Lemma run_body_hoare P body Q rd c :
  hoare P body Q Q -> P c ->
  Q (fst (run_body body rd c)) (snd (run_body body rd c)).
Proof.
  intros H Hc. specialize (H rd c Hc). unfold run_body, outcome_sat in *.
  destruct (body rd c); exact H.
Qed.


Lemma eph_decoder_post env k data size c :
  eph_post c (fst (eph_decoder env k data size c))
             (snd (eph_decoder env k data size c)).
Proof.
  destruct k; cbn [eph_decoder];
    unfold DecodeGPSEphemeris, DecodeGLONASSEphemeris, DecodeQZSSEphemeris,
           DecodeIRNSSEphemeris, DecodeSBASEphemeris, DecodeGalileoEphemeris,
           DecodeBDSEphemeris;
    try match goal with
        | |- context [if ?b then _ else _] =>
            destruct b; [|left; split; reflexivity]
        end;
    eapply run_body_hoare;
    eauto using DecodeGPSEphemeris_body_post, DecodeGLONASSEphemeris_body_post,
                DecodeQZSSEphemeris_body_post, DecodeIRNSSEphemeris_body_post,
                DecodeSBASEphemeris_body_post, DecodeGalileoEphemeris_body_post,
                DecodeBDSEphemeris_body_post.
Qed.

(** ** Station decoders: nothing but the station lists changes *)


Lemma quiet_refl c : quiet c c.
Proof. repeat split. Qed.

Ltac quiet_step :=
  lazymatch goal with
  | |- hoare (quiet ?c0) (bind get_core _) _ _ =>
      eapply hoare_bind with (Q := fun _ => quiet c0);
      [apply hoare_get_core; intros ? H; exact H | intros ?]
  | |- hoare (quiet ?c0) (bind (modify _) _) _ _ =>
      eapply hoare_bind with (Q := fun _ => quiet c0);
      [apply hoare_modify; intros ? H; exact H | intros ?]
  | |- hoare (quiet ?c0) (bind (upd_antList _) _) _ _ =>
      eapply hoare_bind with (Q := fun _ => quiet c0);
      [apply hoare_modify; intros ? H; exact H | intros ?]
  | |- hoare (quiet ?c0) (bind (if ?b then _ else _) _) _ _ =>
      eapply hoare_bind with (Q := fun _ => quiet c0); [destruct b | intros ?]
  | |- hoare _ (bind _ _) _ _ =>
      eapply hoare_bind_pure;
      [solve [eauto with pure_db] | intros ? H; exact H | intros ? _]
  | |- hoare _ (modify _) _ _ => apply hoare_modify; intros ? H; exact H
  | |- hoare _ (upd_antList _) _ _ => apply hoare_modify; intros ? H; exact H
  | |- hoare _ (ret _) _ _ => apply hoare_ret; intros ? H; exact H
  | |- hoare _ (if ?b then _ else _) _ _ => destruct b
  | |- hoare _ (match ?x with (_, _) => _ end) _ _ => destruct x
  end.

Lemma DecodeAntennaReceiver_body_quiet c0 :
  hoare (quiet c0) DecodeAntennaReceiver_body (fun _ => quiet c0) (fun _ => quiet c0).
Proof. unfold DecodeAntennaReceiver_body. repeat quiet_step. Qed.

Lemma DecodeAntennaPosition_body_quiet c0 :
  hoare (quiet c0) DecodeAntennaPosition_body (fun _ => quiet c0) (fun _ => quiet c0).
Proof. unfold DecodeAntennaPosition_body. repeat quiet_step. Qed.


Lemma obs_decoder_inv env Inv k data size c :
  accumulator_invariant Inv ->
  Inv false c ->
  Inv (fst (obs_decoder env k data size c)) (snd (obs_decoder env k data size c)).
Proof.
  intros [H1 H2 H3 H4 H5 H6 H7] Hc.
  assert (Hb : hoare (Inv false) (obs_body env k) Inv (aborts Inv)).
  { destruct k; cbn [obs_body].
    - apply DecodeRTCM3GPS_body_inv; assumption.
    - apply DecodeRTCM3GLONASS_body_inv; assumption.
    - apply DecodeRTCM3MSM_body_inv; assumption. }
  specialize (Hb (payload_bits data size) c Hc).
  assert (E : obs_decoder env k data size c
              = run_body (obs_body env k) (payload_bits data size) c)
    by (destruct k; reflexivity).
  rewrite E. unfold run_body, outcome_sat in *.
  destruct (obs_body env k (payload_bits data size) c) as [b rd c'|b c'];
    cbn [fst snd]; [exact Hb|].
  destruct Hb as [-> Hb]. exact Hb.
Qed.

(** *** Well-formed observations are an invariant *)

Lemma obs_wf_invariant : accumulator_invariant (fun _ => obs_wf).
Proof.
  split; unfold obs_wf; cbn; intros; auto.
  - destruct H0 as [Ha Hb]. split; [|exact Hb].
    apply Forall_app. split; [exact Ha | apply Forall_cons; [exact H | apply Forall_nil]].
  - unfold GLOFreq_store.
    destruct ((0 <=? i) && (i <? RTCM3_MSM_NUMSAT)); cbn; exact H.
  - destruct H as [Ha Hb]. split; [apply Forall_nil|].
    apply Forall_app. split; [exact Hb | apply Forall_cons; [exact Ha | apply Forall_nil]].
  - destruct H as [Ha Hb]. split; [apply Forall_nil|].
    apply Forall_app. split; [exact Hb | apply Forall_cons; [exact Ha | apply Forall_nil]].
Qed.

(** *** What a call contributes to the result *)


Lemma flushed_since_invariant c0 : accumulator_invariant (flushed_since c0).
Proof.
  split; unfold flushed_since, n_eph, n_epochs; cbn; intros.
  - exact H0.
  - unfold GLOFreq_store.
    destruct ((0 <=? i) && (i <? RTCM3_MSM_NUMSAT)); cbn; exact H.
  - exact H.
  - rewrite filter_app, length_app. cbn. rewrite Nat.add_0_r. exact H.
  - rewrite length_app. cbn. destruct H as (Ha & Hb & Hc).
    repeat split; [exact Ha | lia | intros _; lia].
  - rewrite length_app. cbn. destruct H as (Ha & Hb & Hc).
    repeat split; [exact Ha | lia | intros _; lia].
  - destruct H as (Ha & Hb & Hc). repeat split; [exact Ha | exact Hb | discriminate].
Qed.

(** ** One message *)


Lemma surjective_pairing' {A B} (p : A * B) : p = (fst p, snd p).
Proof. destruct p; reflexivity. Qed.

Lemma Decode_message_effect env id data size c :
  message_effect env id data size (tagged env id c)
                 (fst (Decode_message env id data size c))
                 (snd (Decode_message env id data size c)).
Proof.
  unfold Decode_message. cbv zeta. fold (tagged env id c).
  set (c1 := tagged env id c).
  destruct (is_ssr id) eqn:Hssr; [apply eff_ssr; exact Hssr|].
  destruct ((1070 <=? id) && (id <=? 1237)); [apply (eff_obs env id data size c1 ObsMSM Hssr)|].
  destruct ((id =? 1001) || (id =? 1003)); [apply eff_partial; exact Hssr|].
  destruct ((id =? 1002) || (id =? 1004)); [apply (eff_obs env id data size c1 ObsGPS Hssr)|].
  destruct ((id =? 1009) || (id =? 1011)); [apply eff_partial; exact Hssr|].
  destruct ((id =? 1010) || (id =? 1012)); [apply (eff_obs env id data size c1 ObsGLONASS Hssr)|].
  destruct (id =? 1019); [apply (eff_eph env id data size c1 EphGPS Hssr)|].
  destruct (id =? 1020); [apply (eff_eph env id data size c1 EphGLONASS Hssr)|].
  destruct (id =? 1043); [apply (eff_eph env id data size c1 EphSBAS Hssr)|].
  destruct (id =? 1044); [apply (eff_eph env id data size c1 EphQZSS Hssr)|].
  destruct (id =? 1041); [apply (eff_eph env id data size c1 EphIRNSS Hssr)|].
  destruct ((id =? 1045) || (id =? 1046)); [apply (eff_eph env id data size c1 EphGalileo Hssr)|].
  destruct (id =? 1042); [apply (eff_eph env id data size c1 EphBDS Hssr)|].
  destruct ((id =? 1007) || (id =? 1008) || (id =? 1033)).
  { cbn [fst snd]. apply eff_station; [exact Hssr|].
    unfold DecodeAntennaReceiver.
    apply (run_body_hoare (quiet c1) DecodeAntennaReceiver_body (fun _ => quiet c1));
      [apply DecodeAntennaReceiver_body_quiet | apply quiet_refl]. }
  destruct ((id =? 1005) || (id =? 1006)).
  { cbn [fst snd]. apply eff_station; [exact Hssr|].
    unfold DecodeAntennaPosition.
    apply (run_body_hoare (quiet c1) DecodeAntennaPosition_body (fun _ => quiet c1));
      [apply DecodeAntennaPosition_body_quiet | apply quiet_refl]. }
  cbn [fst snd]. apply eff_station; [exact Hssr | apply quiet_refl].
Qed.

Lemma obs_wf_tagged env id c : obs_wf c -> obs_wf (tagged env id c).
Proof. unfold tagged, obs_wf. destruct (rawFile_staID env); cbn; auto. Qed.

Lemma eph_post_obs_wf c b c' : eph_post c b c' -> obs_wf c -> obs_wf c'.
Proof.
  intros [[_ ->] | [_ (s & _ & [-> | (i & v & ->)])]] H; [exact H | exact H |].
  unfold obs_wf, GLOFreq_store in *.
  destruct ((0 <=? i) && (i <? RTCM3_MSM_NUMSAT)); cbn; exact H.
Qed.

Lemma quiet_obs_wf c c' : quiet c c' -> obs_wf c -> obs_wf c'.
Proof.
  intros (_ & H1 & H2 & _) [Ha Hb]. split; [rewrite H2 | rewrite H1]; assumption.
Qed.

Lemma Decode_message_wf env id data size c :
  obs_wf c -> obs_wf (snd (Decode_message env id data size c)).
Proof.
  intros Hc. apply (obs_wf_tagged env id) in Hc.
  destruct (Decode_message_effect env id data size c).
  - exact Hc.
  - apply (obs_decoder_inv env (fun _ => obs_wf)); [apply obs_wf_invariant | exact Hc].
  - exact Hc.
  - eapply eph_post_obs_wf; [apply eph_decoder_post | exact Hc].
  - eapply quiet_obs_wf; eassumption.
Qed.

Lemma Decode_messages_wf env fuel : forall f c d f' c' d',
  obs_wf c ->
  Decode_messages env fuel f c d = Some (f', c', d') -> obs_wf c'.
Proof.
  induction fuel as [|fuel IH]; intros f c d f' c' d' Hc H; cbn [Decode_messages] in H.
  - discriminate.
  - destruct (GetMessage f) as [id f1].
    destruct (id =? 0); [injection H as <- <- <-; exact Hc|].
    pose proof (Decode_message_wf env id (_Message f1) (_BlockSize f1) c Hc) as H1.
    destruct (Decode_message env id (_Message f1) (_BlockSize f1) c) as [d1 c1].
    eapply IH; [exact H1 | exact H].
Qed.

Lemma Decode_chunks_wf env fuel : forall buffer f c d f' c' d',
  obs_wf c ->
  Decode_chunks env fuel buffer f c d = Some (f', c', d') -> obs_wf c'.
Proof.
  induction fuel as [|fuel IH]; intros buffer f c d f' c' d' Hc H;
    cbn [Decode_chunks] in H.
  - discriminate.
  - destruct (negb (length buffer =? 0)%nat && (_MessageSize f <? MESSAGE_BUFFER)%nat);
      [|injection H as <- <- <-; exact Hc].
    match type of H with
    | match ?x with _ => _ end = _ => destruct x as [[[f1 c1] d1]|] eqn:E; [|discriminate]
    end.
    eapply IH; [|exact H]. eapply Decode_messages_wf; [exact Hc | exact E].
Qed.

(** ** The result of a call *)


Lemma n_eph_tagged env id c : n_eph (tagged env id c) = n_eph c.
Proof. unfold tagged, n_eph. destruct (rawFile_staID env); reflexivity. Qed.

Lemma n_epochs_tagged env id c : n_epochs (tagged env id c) = n_epochs c.
Proof. unfold tagged, n_epochs. destruct (rawFile_staID env); reflexivity. Qed.

Lemma n_eph_emit c s :
  n_eph (emit c s) = (n_eph c + (if is_eph_signal s then 1 else 0))%nat.
Proof.
  unfold n_eph. cbn. rewrite filter_app, length_app. cbn.
  destruct (is_eph_signal s); reflexivity.
Qed.

Lemma n_eph_GLOFreq_store c i v : n_eph (GLOFreq_store c i v) = n_eph c.
Proof.
  unfold GLOFreq_store, n_eph.
  destruct ((0 <=? i) && (i <? RTCM3_MSM_NUMSAT)); reflexivity.
Qed.

Lemma n_epochs_GLOFreq_store c i v : n_epochs (GLOFreq_store c i v) = n_epochs c.
Proof.
  unfold GLOFreq_store, n_epochs.
  destruct ((0 <=? i) && (i <? RTCM3_MSM_NUMSAT)); reflexivity.
Qed.

Lemma n_epochs_emit c s : n_epochs (emit c s) = n_epochs c.
Proof. reflexivity. Qed.

Lemma message_summary env id data size c :
  call_summary env c (fst (Decode_message env id data size c))
               (snd (Decode_message env id data size c)).
Proof.
  pose proof (n_eph_tagged env id c) as He.
  pose proof (n_epochs_tagged env id c) as Ho.
  destruct (Decode_message_effect env id data size c) as [Hs|k Hs|Hs|k Hs|c' Hs Hq];
    unfold call_summary.
  - rewrite He, Ho. repeat split; try lia.
    intros E. right. right. eexists. exact E.
  - pose proof (obs_decoder_inv env (flushed_since (tagged env id c)) k data
                  (Z.of_nat size) (tagged env id c)
                  (flushed_since_invariant _)) as H.
    destruct H as (H1 & H2 & H3).
    { repeat split; [lia | discriminate]. }
    rewrite He in H1. rewrite Ho in H2, H3.
    repeat split; try lia. intros E. left. apply H3, E.
  - rewrite n_eph_emit, n_epochs_emit, He, Ho. cbn [is_eph_signal].
    repeat split; first [lia | discriminate].
  - destruct (eph_decoder_post env k data (Z.of_nat size) (tagged env id c))
      as [[E1 E2] | [E1 (s & Hsig & [E2 | (i & v & E2)])]];
      rewrite E1, E2.
    + rewrite He, Ho. repeat split; first [lia | discriminate].
    + rewrite n_eph_emit, n_epochs_emit, Hsig, He, Ho.
      repeat split; first [lia | intros _; right; left; lia].
    + rewrite n_eph_emit, n_epochs_emit, Hsig, n_eph_GLOFreq_store,
        n_epochs_GLOFreq_store, He, Ho.
      repeat split; first [lia | intros _; right; left; lia].
  - destruct Hq as (H1 & H2 & _). unfold n_eph, n_epochs in *.
    rewrite H1, H2. repeat split; first [lia | discriminate].
Qed.

Lemma call_summary_refl env c : call_summary env c false c.
Proof. repeat split; first [lia | discriminate]. Qed.

Lemma call_summary_trans env c0 d c d1 c1 :
  call_summary env c0 d c -> call_summary env c d1 c1 ->
  call_summary env c0 (d || d1) c1.
Proof.
  intros (A1 & A2 & A3 & A4) (B1 & B2 & B3 & B4). repeat split; try lia.
  - intros E. apply orb_true_iff in E. destruct E as [E|E].
    + destruct (A3 E) as [H|[H|H]]; [left; lia | right; left; lia | right; right; exact H].
    + destruct (B3 E) as [H|[H|H]]; [left; lia | right; left; lia | right; right; exact H].
  - intros H. apply orb_true_iff.
    destruct (Nat.lt_ge_cases (n_eph c0) (n_eph c)) as [L|L];
      [left; apply A4, L | right; apply B4; lia].
Qed.

Lemma Decode_messages_summary env c0 fuel : forall f c d f' c' d',
  call_summary env c0 d c ->
  Decode_messages env fuel f c d = Some (f', c', d') ->
  call_summary env c0 d' c'.
Proof.
  induction fuel as [|fuel IH]; intros f c d f' c' d' Hc H; cbn [Decode_messages] in H.
  - discriminate.
  - destruct (GetMessage f) as [id f1].
    destruct (id =? 0); [injection H as <- <- <-; exact Hc|].
    pose proof (message_summary env id (_Message f1) (_BlockSize f1) c) as H1.
    destruct (Decode_message env id (_Message f1) (_BlockSize f1) c) as [d1 c1].
    cbn [fst snd] in H1.
    eapply IH; [|exact H]. eapply call_summary_trans; eassumption.
Qed.

Lemma Decode_chunks_summary env c0 fuel : forall buffer f c d f' c' d',
  call_summary env c0 d c ->
  Decode_chunks env fuel buffer f c d = Some (f', c', d') ->
  call_summary env c0 d' c'.
Proof.
  induction fuel as [|fuel IH]; intros buffer f c d f' c' d' Hc H;
    cbn [Decode_chunks] in H.
  - discriminate.
  - destruct (negb (length buffer =? 0)%nat && (_MessageSize f <? MESSAGE_BUFFER)%nat);
      [|injection H as <- <- <-; exact Hc].
    match type of H with
    | match ?x with _ => _ end = _ => destruct x as [[[f1 c1] d1]|] eqn:E; [|discriminate]
    end.
    eapply IH; [|exact H]. eapply Decode_messages_summary; [exact Hc | exact E].
Qed.

(** * The framer *)

(** ** The scan, on the bytes it looks at

    [scan] reads the buffer between [m] and [e] only; [scanw] is the same
    loop on that window, with the offset from its start as result. *)

Lemma byte_at_window msg m rem k :
  (k < rem)%nat ->
  byte_at msg m k = nth k (firstn rem (skipn m msg)) 0.
Proof.
  intros H. unfold byte_at. rewrite nth_firstn, nth_skipn.
  replace (k <? rem)%nat with true by (symmetry; apply Nat.ltb_lt, H).
  reflexivity.
Qed.

Lemma block_length_window msg m rem :
  (3 <= rem)%nat ->
  block_length msg m = block_length (firstn rem (skipn m msg)) 0.
Proof.
  intros H. unfold block_length.
  rewrite (byte_at_window msg m rem 1), (byte_at_window msg m rem 2) by lia.
  reflexivity.
Qed.

Lemma block_crc_window msg m rem bs :
  (bs + 6 <= rem)%nat ->
  block_crc msg m bs = block_crc (firstn rem (skipn m msg)) 0 bs.
Proof.
  intros H. unfold block_crc.
  rewrite (byte_at_window msg m rem (3 + bs)),
          (byte_at_window msg m rem (3 + bs + 1)),
          (byte_at_window msg m rem (3 + bs + 2)) by lia.
  reflexivity.
Qed.

Lemma CRC24_window n l rem :
  (n <= rem)%nat -> CRC24 n l = CRC24 n (firstn rem l).
Proof.
  intros H. unfold CRC24. rewrite firstn_firstn.
  replace (Nat.min n rem) with n by lia. reflexivity.
Qed.

Lemma window_step msg m rem :
  (m + S rem <= length msg)%nat ->
  firstn (S rem) (skipn m msg) = nth m msg 0 :: firstn rem (skipn (S m) msg).
Proof.
  revert msg. induction m as [|m IH]; intros msg H.
  - destruct msg as [|x msg]; [cbn in H; lia | reflexivity].
  - destruct msg as [|x msg]; [cbn in H; lia|].
    cbn [skipn nth]. apply IH. cbn in H. lia.
Qed.

Lemma scan_scanw msg : forall rem m bs,
  (m + rem <= length msg)%nat ->
  scan msg rem m bs =
  let '(k, bs', ex) := scanw (firstn rem (skipn m msg)) bs in ((m + k)%nat, bs', ex).
Proof.
  induction rem as [|rem IH]; intros m bs H.
  - cbn. rewrite Nat.add_0_r. reflexivity.
  - cbn [scan].
    assert (Hlen : length (firstn (S rem) (skipn m msg)) = S rem).
    { rewrite length_firstn, length_skipn. lia. }
    destruct (Nat.ltb_spec (S rem) 3) as [H3|H3].
    { rewrite (window_step msg m rem H). cbn [scanw].
      rewrite <- (window_step msg m rem H), Hlen.
      replace (S rem <? 3)%nat with true by (symmetry; apply Nat.ltb_lt, H3).
      rewrite Nat.add_0_r. reflexivity. }
    rewrite (block_length_window msg m (S rem)) by lia.
    set (L := block_length (firstn (S rem) (skipn m msg)) 0).
    assert (Estep : forall bs0,
      scanw (firstn (S rem) (skipn m msg)) bs0 =
      if nth m msg 0 =? 211 then
        if (L + 6 <=? S rem)%nat then
          if block_crc (firstn (S rem) (skipn m msg)) 0 L
             =? CRC24 (L + 3) (firstn (S rem) (skipn m msg))
          then (O, (L + 6)%nat, ScanFound)
          else let '(k, bs', ex) := scanw (firstn rem (skipn (S m) msg)) L in
               (S k, bs', ex)
        else (O, L, ScanNeed)
      else let '(k, bs', ex) := scanw (firstn rem (skipn (S m) msg)) bs0 in
           (S k, bs', ex)).
    { intros bs0. subst L. rewrite (window_step msg m rem H). cbn [scanw].
      rewrite <- (window_step msg m rem H), Hlen.
      replace (S rem <? 3)%nat with false by (symmetry; apply Nat.ltb_ge, H3).
      reflexivity. }
    rewrite Estep.
    assert (Eb : byte_at msg m 0 = nth m msg 0).
    { unfold byte_at. rewrite Nat.add_0_r. reflexivity. }
    rewrite Eb.
    destruct (nth m msg 0 =? 211).
    + destruct (Nat.leb_spec (L + 6) (S rem)) as [HL|HL].
      * rewrite (block_crc_window msg m (S rem)) by lia.
        rewrite (CRC24_window (L + 3) (skipn m msg) (S rem)) by lia.
        destruct (block_crc (firstn (S rem) (skipn m msg)) 0 L
                  =? CRC24 (L + 3) (firstn (S rem) (skipn m msg))).
        -- rewrite Nat.add_0_r. reflexivity.
        -- rewrite IH by lia.
           destruct (scanw (firstn rem (skipn (S m) msg)) L) as [[k bs'] ex].
           rewrite Nat.add_succ_r. reflexivity.
      * rewrite Nat.add_0_r. reflexivity.
    + rewrite IH by lia.
      destruct (scanw (firstn rem (skipn (S m) msg)) bs) as [[k bs'] ex].
      rewrite Nat.add_succ_r. reflexivity.
Qed.

(** ** [GetMessage] on the buffered bytes *)


Lemma scanw_bounds w : forall bs k n ex,
  scanw w bs = (k, n, ex) ->
  (k <= length w)%nat /\
  match ex with
  | ScanFound => (6 <= n)%nat /\ (k + n <= length w)%nat
  | ScanNeed => (3 <= length w - k)%nat
  | ScanEnd => (length w - k < 3)%nat
  end.
Proof.
  induction w as [|b tl IH]; intros bs k n ex H; cbn [scanw] in H.
  - injection H as <- <- <-. cbn. lia.
  - destruct (Nat.ltb_spec (length (b :: tl)) 3) as [H3|H3].
    { injection H as <- <- <-. cbn in *. lia. }
    destruct (b =? 211).
    + set (L := block_length (b :: tl) 0) in *.
      destruct (Nat.leb_spec (L + 6) (length (b :: tl))) as [HL|HL].
      * destruct (block_crc (b :: tl) 0 L =? CRC24 (L + 3) (b :: tl)).
        -- injection H as <- <- <-. cbn in *. lia.
        -- destruct (scanw tl L) as [[k' n'] ex'] eqn:E.
           injection H as <- <- <-. apply IH in E. cbn [length].
           destruct E as [E1 E2]. split; [lia|]. destruct ex'; lia.
      * injection H as <- <- <-. cbn in *. lia.
    + destruct (scanw tl bs) as [[k' n'] ex'] eqn:E.
      injection H as <- <- <-. apply IH in E. cbn [length].
      destruct E as [E1 E2]. split; [lia|]. destruct ex'; lia.
Qed.

Lemma pending_window f :
  pending f = firstn (_MessageSize f - _SkipBytes f) (skipn (_SkipBytes f) (_Message f)).
Proof. unfold pending, buffered. apply skipn_firstn_comm. Qed.

Lemma length_pending f :
  framer_ok f -> length (pending f) = (_MessageSize f - _SkipBytes f)%nat.
Proof.
  intros [H1 H2]. rewrite pending_window, length_firstn, length_skipn. lia.
Qed.

(** What a call of [GetMessage] does, read off the scan of the pending
    bytes. *)
Lemma GetMessage_spec f :
  framer_ok f ->
  forall k n ex, scanw (pending f) (_BlockSize f) = (k, n, ex) ->
  let f' := snd (GetMessage f) in
  buffered f' = skipn k (pending f) /\
  _MessageSize f' = (length (pending f) - k)%nat /\
  _SkipBytes f' = match ex with ScanFound => n | _ => O end /\
  _BlockSize f' = n /\
  _NeedBytes f' = match ex with ScanFound => O | ScanNeed => n | ScanEnd => 3%nat end /\
  length (_Message f') = length (_Message f) /\
  fst (GetMessage f) = if (_NeedBytes f' =? 0)%nat then msgid (_Message f') else 0.
Proof.
  intros Hok k n ex Hs. pose proof Hok as [H1 H2].
  pose proof (scanw_bounds _ _ _ _ _ Hs) as [Hk Hex].
  pose proof (length_pending f Hok) as Hlen. rewrite Hlen in *.
  unfold GetMessage. rewrite scan_scanw by lia. rewrite <- pending_window, Hs.
  cbv zeta. cbn [fst snd _MessageSize _SkipBytes _BlockSize _NeedBytes _Message].
  set (e := _MessageSize f) in *. set (s := _SkipBytes f) in *.
  set (msg := _Message f) in *.
  assert (Hneed : (if (e - (s + k) <? 3)%nat then 3%nat
                   else match ex with ScanNeed => n | _ => O end)
                  = match ex with ScanFound => O | ScanNeed => n | ScanEnd => 3%nat end).
  { destruct ex.
    - destruct (Nat.ltb_spec (e - (s + k)) 3); [lia | reflexivity].
    - destruct (Nat.ltb_spec (e - (s + k)) 3); [lia | reflexivity].
    - destruct (Nat.ltb_spec (e - (s + k)) 3); [reflexivity | lia]. }
  rewrite Hneed.
  set (msg' := if negb (s + k =? 0)%nat && (s + k <? e)%nat
               then memmove_front msg (s + k) (e - (s + k)) else msg).
  assert (Hbuf : firstn (e - (s + k)) msg' = skipn k (pending f)).
  { rewrite pending_window. fold e s msg.
    rewrite skipn_firstn_comm, skipn_skipn.
    replace (e - s - k)%nat with (e - (s + k))%nat by lia.
    replace (k + s)%nat with (s + k)%nat by lia.
    subst msg'.
    destruct (Nat.eqb_spec (s + k) 0) as [E0|E0]; cbn [negb andb].
    - rewrite E0. rewrite Nat.sub_0_r. reflexivity.
    - destruct (Nat.ltb_spec (s + k) e) as [Hlt|Hge].
      + unfold memmove_front. rewrite firstn_app.
        rewrite firstn_firstn, Nat.min_id.
        rewrite length_firstn, length_skipn.
        replace (e - (s + k) - Nat.min (e - (s + k)) (length msg - (s + k)))%nat
          with O by lia.
        cbn [firstn]. apply app_nil_r.
      + replace (e - (s + k))%nat with O by lia. reflexivity. }
  assert (Hlm : length msg' = length msg).
  { subst msg'. destruct (negb (s + k =? 0)%nat && (s + k <? e)%nat) eqn:E; [|reflexivity].
    apply andb_true_iff in E. destruct E as [_ E]. apply Nat.ltb_lt in E.
    unfold memmove_front. rewrite length_app, length_firstn, !length_skipn. lia. }
  unfold buffered. cbn [_MessageSize _Message].
  repeat split; try assumption; try reflexivity; try lia.
Qed.

Lemma GetMessage_ok f : framer_ok f -> framer_ok (snd (GetMessage f)).
Proof.
  intros Hok.
  destruct (scanw (pending f) (_BlockSize f)) as [[k n] ex] eqn:Hs.
  pose proof (GetMessage_spec f Hok k n ex Hs) as (Hb & Hm & Hsk & _ & _ & Hl & _).
  pose proof (scanw_bounds _ _ _ _ _ Hs) as [Hk Hex].
  pose proof (length_pending f Hok) as Hlen. destruct Hok as [H1 H2].
  split; rewrite ?Hm, ?Hsk, ?Hl; destruct ex; lia.
Qed.

(** ** Frames and bytes between frames *)


Lemma nth_app_l {A} (l l' : list A) d n :
  (n < length l)%nat -> nth n (l ++ l') d = nth n l d.
Proof. apply app_nth1. Qed.

Lemma valid_frame_length fr :
  valid_frame fr = true -> length fr = (block_length fr 0 + 6)%nat.
Proof.
  unfold valid_frame. intros H. repeat (apply andb_true_iff in H; destruct H as [H ?]).
  apply Nat.eqb_eq. assumption.
Qed.

Lemma scanw_frame fr rest bs :
  valid_frame fr = true ->
  scanw (fr ++ rest) bs = (O, length fr, ScanFound).
Proof.
  intros Hv. pose proof (valid_frame_length fr Hv) as Hlen.
  unfold valid_frame in Hv.
  apply andb_true_iff in Hv. destruct Hv as [Hv Hid].
  apply andb_true_iff in Hv. destruct Hv as [Hv Hcrc0].
  apply andb_true_iff in Hv. destruct Hv as [Hpre _].
  destruct fr as [|b fr']; [cbn in Hlen; lia|].
  cbn [app scanw]. change (b :: fr' ++ rest) with ((b :: fr') ++ rest).
  set (fr := b :: fr') in *.
  assert (Hb : (b =? 211) = true) by exact Hpre.
  assert (HL : block_length (fr ++ rest) 0 = block_length fr 0).
  { unfold block_length, byte_at. cbn [Nat.add].
    rewrite !nth_app_l by lia. reflexivity. }
  assert (Hc : block_crc (fr ++ rest) 0 (block_length fr 0)
               = block_crc fr 0 (block_length fr 0)).
  { unfold block_crc, byte_at. cbn [Nat.add].
    rewrite !nth_app_l by lia. reflexivity. }
  assert (Hcrc : CRC24 (block_length fr 0 + 3) (fr ++ rest)
                 = CRC24 (block_length fr 0 + 3) fr).
  { unfold CRC24. rewrite firstn_app.
    replace (block_length fr 0 + 3 - length fr)%nat with O by lia.
    cbn [firstn]. rewrite app_nil_r. reflexivity. }
  rewrite length_app.
  destruct (Nat.ltb_spec (length fr + length rest) 3); [lia|].
  rewrite Hb, HL.
  destruct (Nat.leb_spec (block_length fr 0 + 6) (length fr + length rest)); [|lia].
  rewrite Hc, Hcrc, Hcrc0, Hlen. reflexivity.
Qed.

Lemma scanw_cons b tl bs :
  scanw (b :: tl) bs =
  if (length (b :: tl) <? 3)%nat then (O, bs, ScanEnd)
  else if b =? 0xD3 then
    let L := block_length (b :: tl) 0 in
    if (L + 6 <=? length (b :: tl))%nat then
      if block_crc (b :: tl) 0 L =? CRC24 (L + 3) (b :: tl)
      then (O, (L + 6)%nat, ScanFound)
      else let '(k, bs', ex) := scanw tl L in (S k, bs', ex)
    else (O, L, ScanNeed)
  else let '(k, bs', ex) := scanw tl bs in (S k, bs', ex).
Proof. reflexivity. Qed.

Lemma skipped_cons b tl rest :
  skipped (b :: tl) rest =
  (negb (b =? 0xD3)
   || ((block_length (b :: tl ++ rest) 0 + 6 <=? length (b :: tl ++ rest))%nat
       && negb (block_crc (b :: tl ++ rest) 0 (block_length (b :: tl ++ rest) 0)
                =? CRC24 (block_length (b :: tl ++ rest) 0 + 3) (b :: tl ++ rest))))
  && skipped tl rest.
Proof. reflexivity. Qed.

Lemma scanw_skipped junk : forall fr rest bs,
  skipped junk (fr ++ rest) = true ->
  valid_frame fr = true ->
  scanw (junk ++ fr ++ rest) bs = (length junk, length fr, ScanFound).
Proof.
  induction junk as [|b tl IH]; intros fr rest bs Hj Hv.
  - cbn [app length]. apply scanw_frame, Hv.
  - rewrite skipped_cons in Hj. apply andb_true_iff in Hj. destruct Hj as [Hb Htl].
    pose proof (valid_frame_length fr Hv) as Hlen.
    change ((b :: tl) ++ fr ++ rest) with (b :: tl ++ fr ++ rest).
    rewrite scanw_cons.
    set (w := b :: tl ++ fr ++ rest) in *.
    destruct (Nat.ltb_spec (length w) 3) as [H3|H3].
    { subst w. cbn [length] in H3. rewrite !length_app in H3. lia. }
    cbv zeta.
    destruct (b =? 211); cbn [negb orb] in Hb.
    + apply andb_true_iff in Hb. destruct Hb as [Hb1 Hb2].
      rewrite Hb1. apply negb_true_iff in Hb2. rewrite Hb2.
      rewrite (IH fr rest _ Htl Hv). reflexivity.
    + rewrite (IH fr rest _ Htl Hv). reflexivity.
Qed.

(** ** A message is decoded from its block alone *)

Lemma payload_bits_block data size :
  payload_bits (firstn size data) (Z.of_nat size) = payload_bits data (Z.of_nat size).
Proof.
  unfold payload_bits. f_equal.
  rewrite skipn_firstn_comm, firstn_firstn. f_equal. lia.
Qed.

Lemma Decode_message_block env id data size c :
  Decode_message env id (firstn size data) size c
  = Decode_message env id data size c.
Proof.
  unfold Decode_message, DecodeRTCM3MSM, DecodeRTCM3GPS, DecodeRTCM3GLONASS,
    DecodeGPSEphemeris, DecodeGLONASSEphemeris, DecodeSBASEphemeris,
    DecodeQZSSEphemeris, DecodeIRNSSEphemeris, DecodeGalileoEphemeris,
    DecodeBDSEphemeris, DecodeAntennaReceiver, DecodeAntennaPosition.
  rewrite payload_bits_block, firstn_firstn, Nat.min_id. reflexivity.
Qed.

(** ** A stream of frames *)


Lemma skipn_app_length {A} (l1 l2 : list A) : skipn (length l1) (l1 ++ l2) = l2.
Proof.
  rewrite skipn_app, skipn_all, Nat.sub_diag. reflexivity.
Qed.

Lemma firstn_app_length {A} (l1 l2 : list A) : firstn (length l1) (l1 ++ l2) = l1.
Proof.
  rewrite firstn_app, firstn_all, Nat.sub_diag. cbn. apply app_nil_r.
Qed.

Lemma nth_firstn_eq {A} n (l fr : list A) d i :
  firstn n l = fr -> (i < n)%nat -> nth i l d = nth i fr d.
Proof.
  intros <- H. rewrite nth_firstn.
  replace (i <? n)%nat with true by (symmetry; apply Nat.ltb_lt, H).
  reflexivity.
Qed.

Lemma valid_frame_msgid fr : valid_frame fr = true -> msgid fr <> 0.
Proof.
  unfold valid_frame. intros H. apply andb_true_iff in H. destruct H as [_ H].
  apply negb_true_iff, Z.eqb_neq in H. exact H.
Qed.

Lemma length_concat_valid fs :
  all_valid fs -> (length fs <= length (concat fs))%nat.
Proof.
  induction 1 as [|fr fs Hv _ IH]; cbn [concat length]; [lia|].
  rewrite length_app. apply valid_frame_length in Hv. lia.
Qed.

Lemma framer_inv_feed f buf l :
  framer_inv f -> (l <= length buf)%nat -> (_MessageSize f + l <= MESSAGE_BUFFER)%nat ->
  framer_inv (feed f buf l).
Proof.
  intros [[H1 H2] Hl] Hb Hs. unfold framer_inv, framer_ok, feed.
  cbn [_SkipBytes _MessageSize _Message].
  rewrite !length_app, !length_firstn, length_skipn. lia.
Qed.

Lemma announced_cons b tl rest :
  announced (b :: tl) rest =
  (negb (b =? 0xD3) || block_size_ok (block_length (b :: tl ++ rest) 0))
  && announced tl rest.
Proof. reflexivity. Qed.

Lemma block_size_ok_spec L :
  block_size_ok L = true -> (1 <= L <= 1023)%nat.
Proof.
  unfold block_size_ok. intros H. apply andb_true_iff in H.
  destruct H as [H1 H2]. apply Nat.leb_le in H1, H2. lia.
Qed.

Lemma block_length_firstn n w :
  (3 <= n)%nat -> block_length (firstn n w) 0 = block_length w 0.
Proof.
  intros H. unfold block_length, byte_at. cbn [Nat.add].
  rewrite !nth_firstn.
  replace (1 <? n)%nat with true by (symmetry; apply Nat.ltb_lt; lia).
  replace (2 <? n)%nat with true by (symmetry; apply Nat.ltb_lt; lia).
  reflexivity.
Qed.

Lemma block_crc_firstn n w L :
  (L + 6 <= n)%nat -> block_crc (firstn n w) 0 L = block_crc w 0 L.
Proof.
  intros H. unfold block_crc, byte_at.
  rewrite !nth_firstn.
  replace (0 + (3 + L) <? n)%nat with true by (symmetry; apply Nat.ltb_lt; lia).
  replace (0 + (3 + L + 1) <? n)%nat with true by (symmetry; apply Nat.ltb_lt; lia).
  replace (0 + (3 + L + 2) <? n)%nat with true by (symmetry; apply Nat.ltb_lt; lia).
  reflexivity.
Qed.

Lemma CRC24_firstn n w L :
  (L + 6 <= n)%nat -> CRC24 (L + 3) (firstn n w) = CRC24 (L + 3) w.
Proof.
  intros H. unfold CRC24. rewrite firstn_firstn. f_equal. f_equal. lia.
Qed.

Lemma firstn_all_le {A} n (l : list A) : (length l <= n)%nat -> firstn n l = l.
Proof. intros H. apply firstn_all2, H. Qed.

(** The scan of the bytes loaded so far: it finds the first frame, or
    waits for the rest of a block that is not empty, or has fewer than
    three bytes left. *)
Lemma scanw_prefix junk : forall fs n bs,
  skipped junk (concat fs) = true ->
  all_valid fs ->
  (length (junk ++ concat fs) <= n)%nat \/ no_empty_block junk fs ->
  exists k bs' ex,
    scanw (firstn n (junk ++ concat fs)) bs = (k, bs', ex) /\
    (k <= length junk)%nat /\
    match ex with
    | ScanFound => k = length junk /\
                   exists fr fs', fs = fr :: fs' /\ bs' = length fr
    | ScanNeed => (1 <= bs' <= 1023)%nat
    | ScanEnd => True
    end.
Proof.
  induction junk as [|b tl IH]; intros fs n bs Hj Hv Hd.
  - cbn [app length]. destruct fs as [|fr fs'].
    + cbn [concat]. rewrite firstn_nil. cbn [scanw]. exists O, bs, ScanEnd. auto.
    + cbn [concat]. inversion Hv as [|? ? Hfr Hfs]; subst.
      pose proof (valid_frame_length fr Hfr) as Hlen.
      destruct (Nat.le_gt_cases (length fr) n) as [Hn|Hn].
      * rewrite firstn_app, (firstn_all_le n fr Hn).
        rewrite (scanw_frame fr _ bs Hfr).
        exists O, (length fr), ScanFound. repeat split; eauto.
      * rewrite firstn_app. replace (n - length fr)%nat with O by lia.
        cbn [firstn]. rewrite app_nil_r.
        assert (Hne : (1 <= block_length fr 0 <= 1023)%nat).
        { destruct Hd as [Hd|[_ Hd]].
          - cbn [app concat] in Hd. rewrite length_app in Hd. lia.
          - inversion Hd; subst. apply block_size_ok_spec. assumption. }
        unfold valid_frame in Hfr.
        apply andb_true_iff in Hfr. destruct Hfr as [Hfr _].
        apply andb_true_iff in Hfr. destruct Hfr as [Hfr _].
        apply andb_true_iff in Hfr. destruct Hfr as [Hpre _].
        destruct fr as [|b fr']; [cbn in Hlen; lia|].
        destruct n as [|n'].
        { cbn [firstn scanw]. exists O, bs, ScanEnd. cbn; auto with arith. }
        cbn [firstn]. rewrite scanw_cons.
        change (b :: firstn n' fr') with (firstn (S n') (b :: fr')).
        rewrite length_firstn.
        replace (Nat.min (S n') (length (b :: fr'))) with (S n') by lia.
        destruct (Nat.ltb_spec (S n') 3) as [H3|H3].
        { exists O, bs, ScanEnd. cbn; auto with arith. }
        assert (Hb : (b =? 211) = true) by exact Hpre.
        rewrite Hb. cbv zeta. rewrite block_length_firstn by lia.
        replace (block_length (b :: fr') 0 + 6 <=? S n')%nat with false
          by (symmetry; apply Nat.leb_gt; lia).
        exists O, (block_length (b :: fr') 0), ScanNeed.
        split; [reflexivity|]. split; [cbn; lia | exact Hne].
  - rewrite skipped_cons in Hj. apply andb_true_iff in Hj. destruct Hj as [Hb Htl].
    assert (Hd' : (length (tl ++ concat fs) <= pred n)%nat \/ no_empty_block tl fs).
    { destruct Hd as [Hd|[Hd1 Hd2]].
      - left. cbn [app length] in Hd. lia.
      - right. rewrite announced_cons in Hd1. apply andb_true_iff in Hd1.
        split; [apply Hd1 | exact Hd2]. }
    change ((b :: tl) ++ concat fs) with (b :: tl ++ concat fs) in *.
    set (W' := tl ++ concat fs) in *.
    destruct n as [|n'].
    { cbn [firstn scanw]. exists O, bs, ScanEnd. cbn; auto with arith. }
    cbn [pred] in Hd'.
    cbn [firstn]. rewrite scanw_cons.
    change (b :: firstn n' W') with (firstn (S n') (b :: W')).
    destruct (Nat.ltb_spec (length (firstn (S n') (b :: W'))) 3) as [H3|H3].
    { exists O, bs, ScanEnd. cbn; auto with arith. }
    assert (Hn3 : (3 <= S n')%nat).
    { rewrite length_firstn in H3. lia. }
    cbv zeta. rewrite block_length_firstn by exact Hn3.
    set (L := block_length (b :: W') 0) in *.
    destruct (b =? 211) eqn:Eb; cbn [negb orb] in Hb.
    + apply andb_true_iff in Hb. destruct Hb as [Hb1 Hb2].
      apply Nat.leb_le in Hb1. apply negb_true_iff in Hb2.
      destruct (Nat.leb_spec (L + 6) (length (firstn (S n') (b :: W')))) as [HL|HL].
      * rewrite length_firstn in HL.
        rewrite block_crc_firstn, CRC24_firstn by lia. rewrite Hb2.
        change (firstn (S n') (b :: W')) with (b :: firstn n' W').
        destruct (IH fs n' L Htl Hv Hd') as (k & bs' & ex & E & Hk & Hex).
        fold W' in E.
        assert (E' : scanw (firstn n' W') L = (k, bs', ex)) by exact E.
        exists (S k), bs', ex.
        split.
        { cbn [firstn]. rewrite E'. reflexivity. }
        split; [cbn [length]; lia|].
        destruct ex; auto. destruct Hex as [-> Hex]. split; [reflexivity|exact Hex].
      * exists O, L, ScanNeed. split; [reflexivity|]. split; [cbn; lia|].
        rewrite length_firstn in HL.
        destruct Hd as [Hd|[Hd1 _]].
        -- cbn [length] in Hd, Hb1, HL. lia.
        -- rewrite announced_cons in Hd1. apply andb_true_iff in Hd1.
           destruct Hd1 as [Hd1 _]. rewrite Eb in Hd1. cbn [negb orb] in Hd1.
           apply block_size_ok_spec in Hd1. exact Hd1.
    + destruct (IH fs n' bs Htl Hv Hd') as (k & bs' & ex & E & Hk & Hex).
      exists (S k), bs', ex.
      split.
      { change (firstn (S n') (b :: W')) with (b :: firstn n' W').
        fold W' in E. rewrite E. reflexivity. }
      split; [cbn [length]; lia|].
      destruct ex; auto. destruct Hex as [-> Hex]. split; [reflexivity|exact Hex].
Qed.

Lemma skipn_app_le {A} k (l1 l2 : list A) :
  (k <= length l1)%nat -> skipn k (l1 ++ l2) = skipn k l1 ++ l2.
Proof.
  intros H. rewrite skipn_app. replace (k - length l1)%nat with O by lia.
  reflexivity.
Qed.

Lemma skipped_skipn junk rest : forall k,
  skipped junk rest = true -> skipped (skipn k junk) rest = true.
Proof.
  induction junk as [|b tl IH]; intros k H.
  - rewrite skipn_nil. reflexivity.
  - destruct k as [|k]; [exact H|]. cbn [skipn]. apply IH.
    rewrite skipped_cons in H. apply andb_true_iff in H. apply H.
Qed.

Lemma announced_skipn junk rest : forall k,
  announced junk rest = true -> announced (skipn k junk) rest = true.
Proof.
  induction junk as [|b tl IH]; intros k H.
  - rewrite skipn_nil. reflexivity.
  - destruct k as [|k]; [exact H|]. cbn [skipn]. apply IH.
    rewrite announced_cons in H. apply andb_true_iff in H. apply H.
Qed.

Lemma scanw_need_bound w : forall bs k n,
  scanw w bs = (k, n, ScanNeed) -> (length w - k < n + 6)%nat.
Proof.
  induction w as [|b tl IH]; intros bs k n H; cbn [scanw] in H.
  - discriminate.
  - destruct (Nat.ltb_spec (length (b :: tl)) 3) as [H3|H3]; [discriminate|].
    destruct (b =? 211).
    + set (L := block_length (b :: tl) 0) in *.
      destruct (Nat.leb_spec (L + 6) (length (b :: tl))) as [HL|HL].
      * destruct (block_crc (b :: tl) 0 L =? CRC24 (L + 3) (b :: tl)); [discriminate|].
        destruct (scanw tl L) as [[k' n'] ex'] eqn:E.
        injection H as <- <- ->. apply IH in E. cbn [length]. lia.
      * injection H as <- <-. lia.
    + destruct (scanw tl bs) as [[k' n'] ex'] eqn:E.
      injection H as <- <- ->. apply IH in E. cbn [length]. lia.
Qed.

(** The loop over the messages on the bytes loaded so far, [more] being
    the input not yet taken in: it dispatches the frames that are
    complete and stops to wait, nothing of a frame lost. *)
Lemma Decode_messages_load env : forall fuel fs junk f c d more,
  framer_ok f ->
  pending f ++ more = junk ++ concat fs ->
  skipped junk (concat fs) = true ->
  all_valid fs ->
  more = [] \/ no_empty_block junk fs ->
  (length (pending f) < fuel)%nat ->
  exists f' c' d' junk' fs',
    Decode_messages env fuel f c d = Some (f', c', d') /\
    Decode_frames env fs' c' d' = Decode_frames env fs c d /\
    framer_ok f' /\ length (_Message f') = length (_Message f) /\
    (_MessageSize f' < 1029)%nat /\
    pending f' ++ more = junk' ++ concat fs' /\
    skipped junk' (concat fs') = true /\
    all_valid fs' /\
    (more = [] \/ no_empty_block junk' fs') /\
    (more = [] -> fs' = []).
Proof.
  induction fuel as [|fuel IH]; intros fs junk f c d more Hok Hp Hj Hv Hd Hfuel;
    [lia|].
  set (n := length (pending f)) in *.
  assert (Hw : firstn n (junk ++ concat fs) = pending f).
  { rewrite <- Hp. apply firstn_app_length. }
  assert (Hd' : (length (junk ++ concat fs) <= n)%nat \/ no_empty_block junk fs).
  { destruct Hd as [->|Hd]; [left|right; exact Hd].
    rewrite app_nil_r in Hp. rewrite <- Hp. subst n. lia. }
  destruct (scanw_prefix junk fs n (_BlockSize f) Hj Hv Hd')
    as (k & bs' & ex & Hs & Hk & Hex).
  rewrite Hw in Hs.
  pose proof (GetMessage_spec f Hok _ _ _ Hs) as (Hb & Hm & Hsk & Hbs & Hn & Hl & Hid).
  pose proof (GetMessage_ok f Hok) as Hok1.
  pose proof (scanw_bounds _ _ _ _ _ Hs) as [Hkn Hbd].
  fold n in Hkn, Hbd, Hm.
  cbn [Decode_messages].
  destruct (GetMessage f) as [id f1]. cbn [fst snd] in *.
  assert (Hrest : skipn k (pending f) ++ more = skipn k junk ++ concat fs).
  { rewrite <- (skipn_app_le k (pending f) more) by (fold n; lia).
    rewrite Hp. apply skipn_app_le. exact Hk. }
  destruct ex.
  - (* a frame *)
    destruct Hex as (-> & fr & fs' & -> & ->).
    pose proof (Forall_inv Hv) as Hfr. pose proof (Forall_inv_tail Hv) as Hfs.
    cbv beta in Hfr.
    rewrite skipn_all, app_nil_l in Hrest. cbn [concat] in Hrest.
    destruct Hbd as [_ Hbd].
    assert (Hfront : firstn (length fr) (_Message f1) = fr).
    { rewrite <- (firstn_app_length fr (concat fs')) at 2. rewrite <- Hrest.
      rewrite firstn_app.
      replace (length fr - length (skipn (length junk) (pending f)))%nat with O
        by (rewrite length_skipn; fold n; lia).
      cbn [firstn]. rewrite app_nil_r. rewrite <- Hb.
      unfold buffered. rewrite firstn_firstn. f_equal. lia. }
    assert (Hmsgid : msgid (_Message f1) = msgid fr).
    { pose proof (valid_frame_length fr Hfr) as Hlen. unfold msgid.
      rewrite (nth_firstn_eq (length fr) (_Message f1) fr 0 3 Hfront) by lia.
      rewrite (nth_firstn_eq (length fr) (_Message f1) fr 0 4 Hfront) by lia.
      reflexivity. }
    rewrite Hn in Hid. cbn [Nat.eqb] in Hid. rewrite Hmsgid in Hid. subst id.
    pose proof (valid_frame_msgid fr Hfr) as Hne.
    apply Z.eqb_neq in Hne. rewrite Hne. rewrite Hbs.
    rewrite <- (Decode_message_block env (msgid fr) (_Message f1) (length fr) c).
    rewrite Hfront. cbn [Decode_frames].
    destruct (Decode_message env (msgid fr) fr (length fr) c) as [d1 c1].
    assert (Hp1 : pending f1 = skipn (length fr) (skipn (length junk) (pending f))).
    { unfold pending at 1. rewrite Hsk, Hb. reflexivity. }
    assert (Hp1' : pending f1 ++ more = [] ++ concat fs').
    { rewrite Hp1, <- (skipn_app_le (length fr) _ more)
        by (rewrite length_skipn; fold n; lia).
      rewrite Hrest. apply skipn_app_length. }
    assert (Hd1 : more = [] \/ no_empty_block [] fs').
    { destruct Hd as [Hd|[_ Hd]]; [left; exact Hd|right].
      split; [reflexivity|]. exact (Forall_inv_tail Hd). }
    destruct (IH fs' [] f1 c1 (d || d1) more Hok1 Hp1' eq_refl Hfs Hd1)
      as (f' & c' & d' & junk' & fs'' & E & Hdf & Hok' & Hl' & Hsz & Hp' & Hj' & Hv' & Hd'' & He).
    { rewrite Hp1, !length_skipn. fold n.
      pose proof (valid_frame_length fr Hfr). lia. }
    exists f', c', d', junk', fs''. rewrite E.
    split; [reflexivity|]. split; [exact Hdf|]. split; [exact Hok'|].
    split; [congruence|]. auto 10.
  - (* a block that is not complete *)
    rewrite Hn in Hid.
    replace (bs' =? 0)%nat with false in Hid by (symmetry; apply Nat.eqb_neq; lia).
    subst id. cbn [Z.eqb].
    pose proof (scanw_need_bound _ _ _ _ Hs) as Hnb. fold n in Hnb.
    exists f1, c, d, (skipn k junk), fs.
    assert (Hp1 : pending f1 = skipn k (pending f)).
    { unfold pending at 1. rewrite Hsk. exact Hb. }
    split; [reflexivity|]. split; [reflexivity|]. split; [exact Hok1|].
    split; [exact Hl|]. split; [lia|].
    split; [rewrite Hp1; exact Hrest|].
    split; [apply skipped_skipn, Hj|]. split; [exact Hv|].
    split.
    { destruct Hd as [Hd|[Hd1 Hd2]]; [left; exact Hd|right].
      split; [apply announced_skipn, Hd1 | exact Hd2]. }
    intros ->. destruct fs as [|fr fs']; [reflexivity|exfalso].
    rewrite app_nil_r in Hp. pose proof (Forall_inv Hv) as Hfr.
    cbv beta in Hfr. cbn [concat] in Hp.
    pose proof (scanw_skipped junk fr (concat fs') (_BlockSize f) Hj Hfr) as Hs'.
    rewrite <- Hp in Hs'. congruence.
  - (* fewer than three bytes *)
    rewrite Hn in Hid. cbn [Nat.eqb] in Hid. subst id. cbn [Z.eqb].
    exists f1, c, d, (skipn k junk), fs.
    assert (Hp1 : pending f1 = skipn k (pending f)).
    { unfold pending at 1. rewrite Hsk. exact Hb. }
    split; [reflexivity|]. split; [reflexivity|]. split; [exact Hok1|].
    split; [exact Hl|]. split; [lia|].
    split; [rewrite Hp1; exact Hrest|].
    split; [apply skipped_skipn, Hj|]. split; [exact Hv|].
    split.
    { destruct Hd as [Hd|[Hd1 Hd2]]; [left; exact Hd|right].
      split; [apply announced_skipn, Hd1 | exact Hd2]. }
    intros ->. destruct fs as [|fr fs']; [reflexivity|exfalso].
    rewrite app_nil_r in Hp. pose proof (Forall_inv Hv) as Hfr.
    cbv beta in Hfr. cbn [concat] in Hp.
    pose proof (scanw_skipped junk fr (concat fs') (_BlockSize f) Hj Hfr) as Hs'.
    rewrite <- Hp in Hs'. congruence.
Qed.

Lemma feed_pending f buffer l :
  framer_inv f -> (l <= length buffer)%nat ->
  (_MessageSize f + l <= MESSAGE_BUFFER)%nat ->
  pending (feed f buffer l) = pending f ++ firstn l buffer /\
  _MessageSize (feed f buffer l) = (_MessageSize f + l)%nat.
Proof.
  intros [[H1 H2] Hl] Hb Hs. split; [|reflexivity].
  unfold pending, buffered, feed. cbn [_MessageSize _SkipBytes _Message].
  rewrite app_assoc, firstn_app.
  rewrite length_app, !length_firstn.
  replace (_MessageSize f + l
           - (Nat.min (_MessageSize f) (length (_Message f))
              + Nat.min l (length buffer)))%nat with O by lia.
  cbn [firstn]. rewrite app_nil_r.
  rewrite firstn_all2 by (rewrite length_app, !length_firstn; lia).
  apply skipn_app_le. rewrite length_firstn. lia.
Qed.

Lemma all_valid_nil fs : all_valid fs -> concat fs = [] -> fs = [].
Proof.
  intros Hv H. pose proof (length_concat_valid fs Hv) as Hl.
  rewrite H in Hl. destruct fs; [reflexivity | cbn in Hl; lia].
Qed.

(** The loop over the buffer loads. *)
Lemma Decode_chunks_parse env : forall fuel buffer f c d junk fs,
  framer_inv f ->
  (_MessageSize f < MESSAGE_BUFFER)%nat ->
  pending f ++ buffer = junk ++ concat fs ->
  skipped junk (concat fs) = true ->
  all_valid fs ->
  one_load f buffer \/ no_empty_block junk fs ->
  (buffer = [] -> fs = []) ->
  (length buffer < fuel)%nat ->
  exists f',
    Decode_chunks env fuel buffer f c d
    = Some (f', fst (Decode_frames env fs c d), snd (Decode_frames env fs c d)).
Proof.
  induction fuel as [|fuel IH]; intros buffer f c d junk fs Hinv Hroom Hp Hj Hv Hd He Hfuel;
    [lia|].
  cbn [Decode_chunks].
  destruct buffer as [|b0 buffer0].
  { cbn [length Nat.eqb negb andb]. rewrite (He eq_refl). cbn. eauto. }
  set (buffer := b0 :: buffer0) in *.
  replace (negb (length buffer =? 0)%nat && (_MessageSize f <? MESSAGE_BUFFER)%nat)
    with true
    by (symmetry; apply andb_true_iff; split;
        [reflexivity | apply Nat.ltb_lt; exact Hroom]).
  set (l := Nat.min (MESSAGE_BUFFER - _MessageSize f) (length buffer)).
  assert (Hl : (1 <= l <= length buffer)%nat) by (subst l buffer; cbn [length]; lia).
  assert (Hinv1 : framer_inv (feed f buffer l)).
  { apply framer_inv_feed; [exact Hinv | lia | subst l; lia]. }
  destruct (feed_pending f buffer l Hinv) as [Hp1 Hsz1]; [lia | subst l; lia |].
  set (f1 := feed f buffer l) in *.
  assert (Hw : pending f1 ++ skipn l buffer = junk ++ concat fs).
  { rewrite Hp1, <- app_assoc, firstn_skipn. exact Hp. }
  assert (Hd1 : skipn l buffer = [] \/ no_empty_block junk fs).
  { destruct Hd as [Hd|Hd]; [left|right; exact Hd].
    unfold one_load in Hd. apply skipn_all2. subst l. lia. }
  destruct (Decode_messages_load env (S (_MessageSize f1)) fs junk f1 c d
              (skipn l buffer) (proj1 Hinv1) Hw Hj Hv Hd1)
    as (f' & c' & d' & junk' & fs' & E & Hdf & Hok' & Hl' & Hsz & Hp' & Hj' & Hv' & Hd' & He').
  { rewrite (length_pending f1 (proj1 Hinv1)). lia. }
  rewrite E.
  destruct (IH (skipn l buffer) f' c' d' junk' fs') as (f'' & E').
  - split; [exact Hok'|]. rewrite Hl'. apply Hinv1.
  - unfold MESSAGE_BUFFER. lia.
  - exact Hp'.
  - exact Hj'.
  - exact Hv'.
  - destruct Hd' as [Hd'|Hd']; [left|right; exact Hd'].
    unfold one_load. rewrite Hd'. cbn [length]. lia.
  - exact He'.
  - rewrite length_skipn. lia.
  - exists f''. rewrite E', Hdf. reflexivity.
Qed.

(** [Decode] on an input that the framer can parse. *)
Lemma Decode_parse env buffer f c junk fs :
  framer_inv f ->
  (_MessageSize f < MESSAGE_BUFFER)%nat ->
  pending f ++ buffer = junk ++ concat fs ->
  skipped junk (concat fs) = true ->
  all_valid fs ->
  one_load f buffer \/ no_empty_block junk fs ->
  (buffer = [] -> fs = []) ->
  exists f',
    Decode env buffer f c
    = Some (if snd (Decode_frames env fs c false) then success else failure,
            f', fst (Decode_frames env fs c false)).
Proof.
  intros Hinv Hroom Hp Hj Hv Hd He. unfold Decode.
  destruct (Decode_chunks_parse env (S (length buffer)) buffer f c false junk fs
              Hinv Hroom Hp Hj Hv Hd He) as (f' & ->); [lia|].
  eauto.
Qed.

Lemma Decode_full env buffer f c :
  (MESSAGE_BUFFER <= _MessageSize f)%nat ->
  Decode env buffer f c = Some (failure, f, c).
Proof.
  intros H. unfold Decode. cbn [Decode_chunks].
  replace (_MessageSize f <? MESSAGE_BUFFER)%nat with false
    by (symmetry; apply Nat.ltb_ge, H).
  rewrite andb_false_r. reflexivity.
Qed.

(** On a CRC mismatch the scan goes on one byte further. *)
Lemma scan_crc_mismatch msg rem m bs :
  (3 <= S rem)%nat ->
  byte_at msg m 0 = 0xD3 ->
  (block_length msg m + 6 <= S rem)%nat ->
  block_crc msg m (block_length msg m)
  <> CRC24 (block_length msg m + 3) (skipn m msg) ->
  scan msg (S rem) m bs = scan msg rem (S m) (block_length msg m).
Proof.
  intros H3 Hb HL Hc. cbn [scan].
  destruct (Nat.ltb_spec (S rem) 3); [lia|].
  rewrite Hb. cbn [Z.eqb Pos.eqb].
  destruct (Nat.leb_spec (block_length msg m + 6) (S rem)); [|lia].
  apply Z.eqb_neq in Hc. rewrite Hc. reflexivity.
Qed.

(** A call that yields a message leaves [_SkipBytes] at the size of the
    block: the next call starts behind it, whatever the decoder did. *)
Lemma GetMessage_consumes f :
  framer_ok f ->
  fst (GetMessage f) <> 0 ->
  _SkipBytes (snd (GetMessage f)) = _BlockSize (snd (GetMessage f)) /\
  (_BlockSize (snd (GetMessage f)) <= _MessageSize (snd (GetMessage f)))%nat.
Proof.
  intros Hok Hid.
  destruct (scanw (pending f) (_BlockSize f)) as [[k n] ex] eqn:Hs.
  pose proof (GetMessage_spec f Hok k n ex Hs) as (_ & Hm & Hsk & Hbs & Hn & _ & Hi).
  pose proof (scanw_bounds _ _ _ _ _ Hs) as [Hk Hex].
  cbv zeta in *. rewrite Hsk, Hbs, Hm. rewrite Hn in Hi.
  destruct ex.
  - split; [reflexivity | lia].
  - destruct n as [|n]; [split; [reflexivity | lia]|].
    cbn in Hi. contradiction.
  - cbn in Hi. contradiction.
Qed.

(** ** Running a body step by step *)






Lemma field_skipn rd off k n : field (skipn off rd) k n = field rd (k + off) n.
Proof. unfold field. rewrite skipn_skipn. reflexivity. Qed.


Lemma flush_on_new_epoch_run T rd c :
  flush_on_new_epoch T rd c =
  Next (new_epoch T c) rd
       (if new_epoch T c
        then set_CurrentObsList (set_obsList c (_obsList c ++ [_CurrentObsList c])) []
        else c).
Proof.
  unfold flush_on_new_epoch, new_epoch, bind, get_core, modify, ret.
  destruct (time_valid (_CurrentTime c) && time_ne T (_CurrentTime c)); reflexivity.
Qed.

Lemma flush_unless_sync_run syncf decoded rd c :
  flush_unless_sync syncf decoded rd c =
  Next ((syncf =? 0) || decoded) rd
       (if syncf =? 0
        then set_CurrentObsList
               (set_CurrentTime (set_obsList c (_obsList c ++ [_CurrentObsList c]))
                                time_reset) []
        else c).
Proof.
  unfold flush_unless_sync, bind, modify, ret.
  destruct (syncf =? 0); reflexivity.
Qed.

(** ** What a frame stages *)









(** ** The epoch of a frame and its synchronous flag *)










(** * The framer finds its way back *)


(** C1 (amended): resynchronisation of the framer.  Let the stream be a
    concatenation of valid frames, and let the bytes that the framer still
    holds, alone and with the bytes [junk] behind them, be stepped over in
    front of that stream: each of them is no preamble, or heads a block
    that lies within the input and fails the CRC.  Let the input be taken
    in at once, or let no preamble in front of a frame, and no frame,
    announce an empty block.  Then [Decode] gives the same result and the
    same decoder state with [junk] in front of the stream as without, and,
    unless the message buffer was full already, these are the result and
    the state of dispatching the frames of the stream one after the
    other.  The step behind it: where the CRC computed over the header and
    the block differs from the three bytes that follow, the scan goes on at
    the next byte. *)
Theorem framer_resync env f c junk fs :
  framer_inv f ->
  all_valid fs ->
  resyncs f [] fs ->
  resyncs f junk fs ->
  (exists r f1 f2 c',
      Decode env (concat fs) f c = Some (r, f1, c') /\
      Decode env (junk ++ concat fs) f c = Some (r, f2, c') /\
      ((_MessageSize f < MESSAGE_BUFFER)%nat ->
       c' = fst (Decode_frames env fs c false) /\
       r = (if snd (Decode_frames env fs c false) then success else failure)))
  /\
  (forall msg rem m bs,
      (3 <= S rem)%nat ->
      byte_at msg m 0 = 0xD3 ->
      (block_length msg m + 6 <= S rem)%nat ->
      block_crc msg m (block_length msg m)
      <> CRC24 (block_length msg m + 3) (skipn m msg) ->
      scan msg (S rem) m bs = scan msg rem (S m) (block_length msg m)).
Proof.
  intros Hinv Hv [Hj0 Hd0] [Hj Hd]. split.
  - destruct (Nat.lt_ge_cases (_MessageSize f) MESSAGE_BUFFER) as [Hroom|Hfull].
    + rewrite app_nil_r in Hj0, Hd0. cbn [app] in Hd0.
      destruct (Decode_parse env (concat fs) f c (pending f) fs
                  Hinv Hroom eq_refl Hj0 Hv Hd0) as (f1 & E1).
      { apply all_valid_nil, Hv. }
      destruct (Decode_parse env (junk ++ concat fs) f c (pending f ++ junk) fs
                  Hinv Hroom) as (f2 & E2);
        [apply app_assoc | exact Hj | exact Hv | exact Hd | |].
      { intros H. apply app_eq_nil in H. apply all_valid_nil; [exact Hv | apply H]. }
      eauto 10.
    + rewrite !Decode_full by exact Hfull.
      exists failure, f, f, c. split; [reflexivity|]. split; [reflexivity|]. lia.
  - intros msg rem m bs. apply scan_crc_mismatch.
Qed.

(** Seventy frames, more than the message buffer holds, for a framer that
    holds a preamble; and the scan at a preamble with the length 0 and a
    CRC that does not fit. *)
Lemma framer_resync_witness :
  (_MessageSize busy_framer < MESSAGE_BUFFER)%nat /\
  pending busy_framer = [0xD3] /\
  (MESSAGE_BUFFER < length (concat (repeat frame_1004 70)))%nat /\
  (exists r f1 f2 c',
      Decode env0 (concat (repeat frame_1004 70)) busy_framer (new_core "X")
      = Some (r, f1, c') /\
      Decode env0 (noise ++ concat (repeat frame_1004 70)) busy_framer
             (new_core "X")
      = Some (r, f2, c') /\
      ((_MessageSize busy_framer < MESSAGE_BUFFER)%nat ->
       c' = fst (Decode_frames env0 (repeat frame_1004 70) (new_core "X") false) /\
       r = (if snd (Decode_frames env0 (repeat frame_1004 70) (new_core "X") false)
            then success else failure))) /\
  scan (stall_bytes ++ [0x00]) 6 0 0 = scan (stall_bytes ++ [0x00]) 5 1 0.
Proof.
  assert (Hinv : framer_inv busy_framer).
  { unfold framer_inv, framer_ok. vm_compute. repeat split; lia. }
  assert (Hv : all_valid (repeat frame_1004 70)).
  { apply Forall_forall. intros fr H. apply repeat_spec in H. subst fr.
    vm_compute. reflexivity. }
  assert (Hb : Forall (fun fr => block_size_ok (block_length fr 0) = true)
                      (repeat frame_1004 70)).
  { apply Forall_forall. intros fr H. apply repeat_spec in H. subst fr.
    vm_compute. reflexivity. }
  assert (H0 : resyncs busy_framer [] (repeat frame_1004 70)).
  { split; [vm_compute; reflexivity|]. right.
    split; [vm_compute; reflexivity | exact Hb]. }
  assert (H1 : resyncs busy_framer noise (repeat frame_1004 70)).
  { split; [vm_compute; reflexivity|]. right.
    split; [vm_compute; reflexivity | exact Hb]. }
  split; [vm_compute; lia|]. split; [vm_compute; reflexivity|].
  split; [vm_compute; lia|]. split.
  - exact (proj1 (framer_resync env0 busy_framer (new_core "X") noise
                                (repeat frame_1004 70) Hinv Hv H0 H1)).
  - apply (proj2 (framer_resync env0 busy_framer (new_core "X") noise
                                (repeat frame_1004 70) Hinv Hv H0 H1)).
    + lia.
    + vm_compute. reflexivity.
    + vm_compute. lia.
    + vm_compute. discriminate.
Defined.

(** C1 as stated fails.  Three bytes that hold no frame, a preamble and a
    length of 1023, in front of a valid frame: [Decode] keeps waiting for
    the rest of the announced block, and the frame behind is not yielded.
    And 2049 bytes that hold no frame, among them a preamble with the
    length 0 whose first five bytes end the first buffer load: the loop
    over the messages does not end, [Decode] does not return. *)
Lemma framer_resync_counterexample :
  valid_frame frame_1004 = true /\
  types_after (Decode env0 frame_1004 (new_framer stale_memory) (new_core "X"))
  = Some [1004] /\
  (no_frame_starts 3 (long_header ++ frame_1004) = true /\
   types_after (Decode env0 (long_header ++ frame_1004) (new_framer stale_memory)
                       (new_core "X"))
   = Some []) /\
  (skipped stall_prefix frame_1004 = true /\
   length stall_prefix = 2049%nat /\
   Decode env0 (stall_prefix ++ frame_1004) (new_framer stale_memory)
          (new_core "X")
   = None).
Proof. vm_compute. repeat split. Qed.

(** * Epochs and the synchronous flag *)








(** ** Does the loop over the messages end? *)


Lemma stall_forever env f :
  stalled f -> forall fuel c d, Decode_messages env fuel f c d = None.
Proof.
  intros [Hid Hf]. induction fuel as [|fuel IH]; intros c d; cbn [Decode_messages].
  - reflexivity.
  - destruct (GetMessage f) as [id f1] eqn:E. cbn [fst snd] in *. subst f1.
    destruct (Z.eqb_spec id 0) as [E0|E0]; [contradiction|].
    destruct (Decode_message env id (_Message f) (_BlockSize f) c) as [d1 c1].
    apply IH.
Qed.

Lemma scanw_need w : forall bs k n,
  scanw w bs = (k, n, ScanNeed) ->
  forall bs', scanw (skipn k w) bs' = (O, n, ScanNeed).
Proof.
  induction w as [|b tl IH]; intros bs k n H bs'.
  - cbn in H. discriminate.
  - cbn [scanw] in H.
    destruct (Nat.ltb_spec (length (b :: tl)) 3) as [H3|H3]; [discriminate|].
    destruct (b =? 211) eqn:Eb.
    + set (L := block_length (b :: tl) 0) in *.
      destruct (Nat.leb_spec (L + 6) (length (b :: tl))) as [HL|HL].
      * destruct (block_crc (b :: tl) 0 L =? CRC24 (L + 3) (b :: tl)); [discriminate|].
        destruct (scanw tl L) as [[k' n'] ex'] eqn:E.
        injection H as <- <- ->. cbn [skipn]. eapply IH; eauto.
      * injection H as <- <-. cbn [skipn scanw].
        replace (length (b :: tl) <? 3)%nat with false
          by (symmetry; apply Nat.ltb_ge, H3).
        rewrite Eb. fold L.
        replace (L + 6 <=? length (b :: tl))%nat with false
          by (symmetry; apply Nat.leb_gt, HL).
        reflexivity.
    + destruct (scanw tl bs) as [[k' n'] ex'] eqn:E.
      injection H as <- <- ->. cbn [skipn]. eapply IH; eauto.
Qed.

Lemma GetMessage_progress f :
  framer_ok f -> fst (GetMessage f) <> 0 ->
  (remaining (snd (GetMessage f)) < remaining f)%nat \/ stalled (snd (GetMessage f)).
Proof.
  intros Hok Hid.
  destruct (scanw (pending f) (_BlockSize f)) as [[k n] ex] eqn:Hs.
  pose proof (GetMessage_spec f Hok k n ex Hs) as (Hb & Hm & Hsk & Hbs & Hn & Hl & Hi).
  pose proof (scanw_bounds _ _ _ _ _ Hs) as [Hk Hex].
  pose proof (length_pending f Hok) as Hlen.
  pose proof (GetMessage_ok f Hok) as Hok'.
  set (f' := snd (GetMessage f)) in *.
  destruct ex.
  - left. unfold remaining. fold (remaining f) in Hlen. rewrite Hm, Hsk.
    unfold remaining in *. lia.
  - destruct n as [|n].
    + right.
      assert (Hp : pending f' = skipn k (pending f)).
      { unfold pending. rewrite Hsk. cbn [skipn]. exact Hb. }
      pose proof (scanw_need _ _ _ _ Hs (_BlockSize f')) as Hs'.
      rewrite <- Hp in Hs'.
      assert (Hfix : GetMessage f' = (msgid (_Message f'), f')).
      { clear Hi Hid. clearbody f'. destruct Hok' as [Ho1 Ho2].
        unfold GetMessage. rewrite scan_scanw by lia.
        rewrite <- pending_window, Hs'. cbv zeta.
        rewrite Hsk. cbn [Nat.add Nat.eqb negb andb].
        rewrite Nat.sub_0_r.
        replace (_MessageSize f' <? 3)%nat with false
          by (symmetry; apply Nat.ltb_ge; lia).
        cbn [Nat.eqb]. unfold msgid.
        destruct f' as [msg e nb sb bs]. cbn in *. subst. reflexivity. }
      rewrite Hn in Hi. cbn [Nat.eqb] in Hi.
      unfold stalled. rewrite Hfix. cbn [fst snd]. split; [congruence|reflexivity].
    + exfalso. apply Hid. rewrite Hi, Hn. reflexivity.
  - exfalso. apply Hid. rewrite Hi, Hn. reflexivity.
Qed.

Lemma framer_after_S n f :
  framer_after (S n) f = framer_after n (snd (GetMessage f)).
Proof. reflexivity. Qed.

Lemma Decode_messages_total env : forall fuel f c d,
  framer_ok f -> (remaining f < fuel)%nat ->
  (exists n c' d', Decode_messages env fuel f c d = Some (framer_after n f, c', d'))
  \/ (exists n, stalled (framer_after n f)).
Proof.
  induction fuel as [|fuel IH]; intros f c d Hok Hr; [lia|].
  cbn [Decode_messages].
  pose proof (GetMessage_progress f Hok) as Hp.
  pose proof (GetMessage_ok f Hok) as Hok'.
  destruct (GetMessage f) as [id f1] eqn:E. cbn [fst snd] in *.
  destruct (Z.eqb_spec id 0) as [E0|E0].
  - left. exists 1%nat, c, d. cbn [framer_after]. rewrite E. reflexivity.
  - destruct (Hp E0) as [Hlt|Hst].
    + destruct (Decode_message env id (_Message f1) (_BlockSize f1) c) as [d1 c1].
      destruct (IH f1 c1 (d || d1) Hok' ltac:(lia)) as [(n & c' & d' & H)|(n & H)].
      * left. exists (S n), c', d'. cbn [framer_after]. rewrite E. exact H.
      * right. exists (S n). cbn [framer_after]. rewrite E. exact H.
    + right. exists 1%nat. cbn [framer_after]. rewrite E. exact Hst.
Qed.


Lemma reaches_after n : forall f buf f1,
  reaches (framer_after n f) buf f1 -> reaches f buf f1.
Proof.
  induction n as [|n IH]; intros f buf f1 H; cbn [framer_after] in H.
  - exact H.
  - apply reaches_get, IH, H.
Qed.


Lemma framer_inv_GetMessage f : framer_inv f -> framer_inv (snd (GetMessage f)).
Proof.
  intros [Hok Hl]. split; [apply GetMessage_ok, Hok|].
  destruct (scanw (pending f) (_BlockSize f)) as [[k n] ex] eqn:Hs.
  pose proof (GetMessage_spec f Hok k n ex Hs) as (_ & _ & _ & _ & _ & Hl' & _).
  congruence.
Qed.

Lemma framer_inv_after n : forall f, framer_inv f -> framer_inv (framer_after n f).
Proof.
  induction n as [|n IH]; intros f H; cbn [framer_after]; auto using framer_inv_GetMessage.
Qed.

Lemma Decode_chunks_total env : forall fuel buffer f c d,
  framer_inv f -> (length buffer < fuel)%nat ->
  (exists r, Decode_chunks env fuel buffer f c d = Some r)
  \/ (exists f1, reaches f buffer f1 /\ stalled f1).
Proof.
  induction fuel as [|fuel IH]; intros buffer f c d Hinv Hf; [lia|].
  cbn [Decode_chunks].
  destruct (negb (length buffer =? 0)%nat && (_MessageSize f <? MESSAGE_BUFFER)%nat)
    eqn:Ec; [|left; eauto].
  apply andb_true_iff in Ec. destruct Ec as [Ec1 Ec2].
  apply negb_true_iff, Nat.eqb_neq in Ec1. apply Nat.ltb_lt in Ec2.
  set (l := Nat.min (MESSAGE_BUFFER - _MessageSize f) (length buffer)).
  assert (Hl : (1 <= l <= length buffer)%nat) by (subst l; lia).
  assert (Hinv2 : framer_inv (feed f buffer l)).
  { apply framer_inv_feed; [exact Hinv|lia|subst l; lia]. }
  set (f2 := feed f buffer l) in *.
  destruct (Decode_messages_total env (S (_MessageSize f2)) f2 c d)
    as [(n & c' & d' & E)|(n & Hst)].
  - apply Hinv2.
  - unfold remaining. lia.
  - rewrite E.
    destruct (IH (skipn l buffer) (framer_after n f2) c' d') as [Hr|(f1 & Hr & Hst)].
    + apply framer_inv_after, Hinv2.
    + rewrite length_skipn. lia.
    + left. exact Hr.
    + right. exists f1. split; [|exact Hst].
      apply (reaches_feed f buffer l); [lia|]. apply (reaches_after n). exact Hr.
  - right. exists (framer_after n f2). split; [|exact Hst].
    apply (reaches_feed f buffer l); [lia|]. apply (reaches_after n).
    apply reaches_here.
Qed.

Lemma Decode_total env buffer f c :
  framer_inv f ->
  (exists r, Decode env buffer f c = Some r)
  \/ (exists f1, reaches f buffer f1 /\ stalled f1).
Proof.
  intros Hinv. unfold Decode.
  destruct (Decode_chunks_total env (S (length buffer)) buffer f c false Hinv)
    as [([[f' c'] d'] & E)|H]; [lia| |right; exact H].
  left. rewrite E. eauto.
Qed.


Lemma stall_bytes_stalled : stalled (snd (GetMessage (feed (new_framer stale_memory) stall_bytes 5))).
Proof. split; vm_compute; [discriminate|reflexivity]. Qed.

Lemma stall_bytes_forever env fuel c d :
  Decode_messages env fuel (feed (new_framer stale_memory) stall_bytes 5) c d = None.
Proof.
  destruct fuel as [|fuel]; [reflexivity|].
  cbn [Decode_messages].
  pose proof stall_bytes_stalled as Hst.
  destruct (GetMessage (feed (new_framer stale_memory) stall_bytes 5)) as [id f1] eqn:E.
  assert (Hid : id = 1004).
  { change id with (fst (id, f1)). rewrite <- E. vm_compute. reflexivity. }
  cbn [snd] in Hst. subst id. cbn [Z.eqb Pos.eqb].
  destruct (Decode_message env 1004 (_Message f1) (_BlockSize f1) c) as [d1 c1].
  apply stall_forever, Hst.
Qed.

(** * The result of [Decode] *)


(** C3: the result of [Decode] after a flush.  The input is two valid 1004
    frames: the first, of the epoch 1000, stages a satellite and says that
    more of the epoch is to come; the second, of the epoch 2000, announces
    a satellite and stops behind its header.  The second frame makes the
    decoder move the staged epoch to [_obsList]; the read past its end then
    makes the decoder answer false.  The call has transferred an epoch of
    one satellite and returns failure. *)
Theorem Decode_failure_after_flush :
  valid_frame frame_1004_first = true /\
  valid_frame frame_1004_cut = true /\
  n_epochs (new_core "X") = 0%nat /\
  exists f' c',
    Decode env0 (frame_1004_first ++ frame_1004_cut) (new_framer stale_memory)
           (new_core "X")
    = Some (failure, f', c') /\
    _typeList c' = [1004; 1004] /\
    n_epochs c' = 1%nat /\
    map (@length _) (_obsList c') = [1%nat].
Proof.
  split; [vm_compute; reflexivity|]. split; [vm_compute; reflexivity|].
  split; [reflexivity|].
  destruct (Decode env0 (frame_1004_first ++ frame_1004_cut)
                   (new_framer stale_memory) (new_core "X"))
    as [[[r f'] c']|] eqn:E; [|vm_compute in E; discriminate].
  exists f', c'.
  assert (Ev : (r, _typeList c', map (@length _) (_obsList c'))
               = (failure, [1004; 1004], [1%nat])).
  { change (r, _typeList c', map (@length _) (_obsList c')) with
      (match Some (r, f', c') with
       | Some (r, _, c) => (r, _typeList c, map (@length _) (_obsList c))
       | None => (failure, [], [])
       end).
    rewrite <- E. vm_compute. reflexivity. }
  injection Ev as -> Ht Ho. split; [reflexivity|]. split; [exact Ht|].
  split; [|exact Ho].
  unfold n_epochs. rewrite <- (length_map (@length _)), Ho. reflexivity.
Qed.

(** * Staged satellites carry a band *)

(** C7: every satellite observation that an observation decoder (legacy
    GPS, legacy GLONASS, MSM) puts on the staged list holds at least one
    frequency observation, and each of these carries a two-character RINEX
    band code.  Stated as an invariant: if it holds of the staged list and
    of the flushed epoch lists before a frame is decoded, it holds of both
    afterwards, however the decoder leaves; and so it does after a whole
    call of [Decode].  A satellite for which no band was decoded is
    therefore never staged and never part of a flushed epoch. *)
Theorem staged_satellites_have_bands env k data size c :
  obs_wf c ->
  obs_wf (snd (obs_decoder env k data size c)) /\
  (forall buffer f r f' c',
      Decode env buffer f c = Some (r, f', c') -> obs_wf c').
Proof.
  intros H. split.
  - exact (obs_decoder_inv env (fun _ => obs_wf) k data size c obs_wf_invariant H).
  - intros buffer f r f' c' E. unfold Decode in E.
    destruct (Decode_chunks env (S (length buffer)) buffer f c false)
      as [[[f1 c1] d1]|] eqn:Ec; [|discriminate].
    injection E as _ _ <-.
    exact (Decode_chunks_wf env _ _ _ _ _ _ _ _ H Ec).
Qed.

Lemma staged_satellites_have_bands_witness :
  obs_wf (snd (obs_decoder env0 ObsGPS frame_1004_first (size_of frame_1004_first)
                           (new_core "X"))) /\
  (forall buffer f r f' c',
      Decode env0 buffer f (new_core "X") = Some (r, f', c') -> obs_wf c').
Proof.
  apply (staged_satellites_have_bands env0 ObsGPS frame_1004_first
           (size_of frame_1004_first) (new_core "X")).
  unfold obs_wf. simpl. split; apply Forall_nil.
Defined.

(** * Ephemeris frames and their size *)

Lemma length_bits_of n v : length (bits_of n v) = n.
Proof. induction n as [|n IH]; cbn [bits_of length]; congruence. Qed.

Lemma length_bits_of_bytes l : length (bits_of_bytes l) = (8 * length l)%nat.
Proof.
  unfold bits_of_bytes. induction l as [|b l IH]; [reflexivity|].
  cbn [flat_map]. rewrite length_app, length_bits_of, IH. cbn [length]. lia.
Qed.

Lemma length_payload_bits data size :
  size <= Z.of_nat (length data) ->
  length (payload_bits data size) = (8 * Z.to_nat (size - 6))%nat.
Proof.
  intros H. unfold payload_bits.
  rewrite length_bits_of_bytes, length_firstn, length_skipn. lia.
Qed.


Lemma DecodeGalileoEphemeris_rejects env data size c :
  size <= Z.of_nat (length data) ->
  accepted_size EphGalileo (field (payload_bits data size) 0 12) size = false ->
  DecodeGalileoEphemeris env data size c = (false, c).
Proof.
  intros Hs Ha. unfold DecodeGalileoEphemeris, run_body, DecodeGalileoEphemeris_body.
  pose proof (length_payload_bits data size Hs) as Hl.
  set (rd := payload_bits data size) in *.
  unfold bind at 1. unfold GETBITS at 1.
  destruct (Nat.ltb_spec (length rd) 12) as [H12|H12]; [reflexivity|].
  change (value_of (firstn 12 rd)) with (field rd 0 12).
  unfold bind at 1. unfold bytes_left at 1.
  assert (Eb : Z.of_nat (length (skipn 12 rd) / 8) = size - 8).
  { rewrite length_skipn, Hl.
    assert (H2 : (2 <= Z.to_nat (size - 6))%nat) by lia.
    replace (8 * Z.to_nat (size - 6) - 12)%nat
      with (4 + (Z.to_nat (size - 6) - 2) * 8)%nat by lia.
    rewrite Nat.div_add by lia.
    change (4 / 8)%nat with 0%nat. lia. }
  rewrite Eb. cbn [accepted_size] in Ha.
  replace (size - 8 =? 61) with (size =? 69)
    by (destruct (Z.eqb_spec size 69), (Z.eqb_spec (size - 8) 61); auto; lia).
  replace (size - 8 =? 60) with (size =? 68)
    by (destruct (Z.eqb_spec size 68), (Z.eqb_spec (size - 8) 60); auto; lia).
  rewrite Ha. reflexivity.
Qed.

Lemma eph_decoder_rejects env k data size c :
  size <= Z.of_nat (length data) ->
  accepted_size k (field (payload_bits data size) 0 12) size = false ->
  eph_decoder env k data size c = (false, c).
Proof.
  intros Hs Ha. destruct k; cbn [eph_decoder accepted_size] in *;
    try (unfold DecodeGPSEphemeris, DecodeGLONASSEphemeris, DecodeQZSSEphemeris,
           DecodeIRNSSEphemeris, DecodeSBASEphemeris, DecodeBDSEphemeris;
         rewrite Ha; reflexivity).
  apply DecodeGalileoEphemeris_rejects; assumption.
Qed.


(** C4 (amended): the size test of the ephemeris decoders, for a block that
    lies within the buffer.  [size] is the size of the block with header
    and CRC.  The decoders of GPS, QZSS and IRNSS go on only for 67, that
    of GLONASS for 51, of SBAS for 35, of BDS for 70; the Galileo decoder
    tests 61 (I/NAV) and 60 (F/NAV) against the bytes of the payload that
    are left once the message number is read, which is a block of 69 and
    68.  For any other size the decoder answers false and leaves the
    decoder object as it was.  An answer of true comes with an accepted
    size and one emitted ephemeris.  Whatever the answer, the framer has
    set [_SkipBytes] to the size of the block, so the next scan starts
    behind it. *)
Theorem ephemeris_size_check env k data size c :
  size <= Z.of_nat (length data) ->
  let type := field (payload_bits data size) 0 12 in
  let r := eph_decoder env k data size c in
  (accepted_size k type size = false -> r = (false, c)) /\
  (fst r = true -> accepted_size k type size = true /\ eph_emitted c (snd r)) /\
  (fst r = false -> snd r = c) /\
  (forall f, framer_ok f -> fst (GetMessage f) <> 0 ->
             _SkipBytes (snd (GetMessage f)) = _BlockSize (snd (GetMessage f))).
Proof.
  intros Hs type r.
  pose proof (eph_decoder_post env k data size c) as Hp. fold r in Hp.
  split; [|split; [|split]].
  - intros Ha. apply eph_decoder_rejects; assumption.
  - intros Hr. split.
    + destruct (accepted_size k type size) eqn:Ha; [reflexivity|].
      pose proof (eph_decoder_rejects env k data size c Hs Ha) as E.
      fold r in E. rewrite E in Hr. discriminate.
    + destruct Hp as [[Hb _]|[_ He]]; [congruence | exact He].
  - intros Hr. destruct Hp as [[_ Hc]|[Hb _]]; [exact Hc | congruence].
  - intros f Hok Hid. apply GetMessage_consumes; assumption.
Qed.

Lemma ephemeris_size_check_witness :
  let type := field (payload_bits frame_1046 69) 0 12 in
  let r := eph_decoder env0 EphGalileo frame_1046 69 (new_core "X") in
  (accepted_size EphGalileo type 69 = false -> r = (false, new_core "X")) /\
  (fst r = true ->
   accepted_size EphGalileo type 69 = true /\ eph_emitted (new_core "X") (snd r)) /\
  (fst r = false -> snd r = new_core "X") /\
  (forall f, framer_ok f -> fst (GetMessage f) <> 0 ->
             _SkipBytes (snd (GetMessage f)) = _BlockSize (snd (GetMessage f))).
Proof.
  apply (ephemeris_size_check env0 EphGalileo frame_1046 69 (new_core "X")).
  apply Z.leb_le. vm_compute. reflexivity.
Defined.

(** C4 as stated fails for Galileo.  A valid I/NAV frame of 69 bytes, 63 of
    them payload, is decoded and its ephemeris emitted; the same message
    cut to a frame of 61 bytes, or to a payload of 61 bytes, is turned
    away. *)
Lemma ephemeris_size_check_counterexample :
  (valid_frame frame_1046 = true /\ size_of frame_1046 = 69 /\
   fst (DecodeGalileoEphemeris env0 frame_1046 69 (new_core "X")) = true /\
   n_eph (snd (DecodeGalileoEphemeris env0 frame_1046 69 (new_core "X"))) = 1%nat) /\
  (size_of (frame_of (firstn 55 msg_1046)) = 61 /\
   DecodeGalileoEphemeris env0 (frame_of (firstn 55 msg_1046)) 61 (new_core "X")
   = (false, new_core "X")) /\
  (size_of (frame_of (firstn 61 msg_1046)) = 67 /\
   DecodeGalileoEphemeris env0 (frame_of (firstn 61 msg_1046)) 67 (new_core "X")
   = (false, new_core "X")).
Proof. vm_compute. repeat split. Qed.

(** ** Running a decoder function along its reads *)

Lemma run_bind_assoc {A B} (m : Dec A) (f : A -> Dec B) (k : B -> Dec bool) rd c :
  run_body (bind (bind m f) k) rd c
  = run_body (bind m (fun x => bind (f x) k)) rd c.
Proof. unfold run_body, bind. destruct (m rd c); reflexivity. Qed.

Lemma run_ret {A} (a : A) (k : A -> Dec bool) rd c :
  run_body (bind (ret a) k) rd c = run_body (k a) rd c.
Proof. reflexivity. Qed.

Lemma run_GETBITS n (k : Z -> Dec bool) rd c :
  run_body (bind (GETBITS n) k) rd c
  = if (length rd <? n)%nat then (false, c)
    else run_body (k (field rd 0 n)) (skipn n rd) c.
Proof.
  unfold run_body, bind, GETBITS, field.
  destruct (length rd <? n)%nat; reflexivity.
Qed.

Lemma run_SKIPBITS n (k : unit -> Dec bool) rd c :
  run_body (bind (SKIPBITS n) k) rd c
  = if (length rd <? n)%nat then (false, c)
    else run_body (k tt) (skipn n rd) c.
Proof.
  unfold SKIPBITS. rewrite run_bind_assoc, run_GETBITS. reflexivity.
Qed.

Lemma run_GETBITS64 n (k : Z -> Dec bool) rd c :
  run_body (bind (GETBITS64 n) k) rd c
  = if (length rd <? n)%nat then (false, c)
    else run_body (k (field rd 0 n mod 2 ^ 64)) (skipn n rd) c.
Proof.
  unfold GETBITS64. rewrite run_bind_assoc, run_GETBITS. reflexivity.
Qed.

Lemma run_modify f (k : unit -> Dec bool) rd c :
  run_body (bind (modify f) k) rd c = run_body (k tt) rd (f c).
Proof. reflexivity. Qed.

Lemma run_flush_on_new_epoch T (k : bool -> Dec bool) rd c :
  run_body (bind (flush_on_new_epoch T) k) rd c
  = run_body (k (new_epoch T c)) rd
      (if new_epoch T c
       then set_CurrentObsList (set_obsList c (_obsList c ++ [_CurrentObsList c])) []
       else c).
Proof. unfold run_body, bind at 1. rewrite flush_on_new_epoch_run. reflexivity. Qed.

Lemma run_flush_unless_sync syncf decoded rd c :
  run_body (flush_unless_sync syncf decoded) rd c
  = ((syncf =? 0) || decoded,
     if syncf =? 0
     then set_CurrentObsList
            (set_CurrentTime (set_obsList c (_obsList c ++ [_CurrentObsList c]))
                             time_reset) []
     else c).
Proof. unfold run_body. rewrite flush_unless_sync_run. reflexivity. Qed.

Lemma run_pure {A} (m : Dec A) Qv (k : A -> Dec bool) rd c :
  pure_read m Qv ->
  run_body (bind m k) rd c = (false, c)
  \/ exists a rd', Qv a /\ run_body (bind m k) rd c = run_body (k a) rd' c.
Proof.
  intros Hm. specialize (Hm rd c). unfold run_body, bind.
  destruct (m rd c) as [a rd' c'|b c'].
  - destruct Hm as [-> Ha]. right. eauto.
  - destruct Hm as [-> ->]. left. reflexivity.
Qed.

(** ** Frames over the cell limit *)


Lemma same_obs_refl c : same_obs c c.
Proof. split; reflexivity. Qed.

Lemma same_obs_new_epoch c c1 (b : bool) :
  same_obs c c1 ->
  same_obs c (if b
              then set_CurrentObsList (set_obsList c1 (_obsList c1 ++ [_CurrentObsList c1])) []
              else c1).
Proof.
  intros [H1 H2]. destruct b; [|split; assumption].
  split; [|exact H2]. rewrite <- H1. unfold all_obs. cbn.
  rewrite concat_app. cbn. rewrite !app_nil_r. reflexivity.
Qed.

Lemma same_obs_time c c1 T : same_obs c c1 -> same_obs c (set_CurrentTime c1 T).
Proof. intros [H1 H2]. split; assumption. Qed.

Lemma same_obs_sync c c1 (b : bool) :
  same_obs c c1 ->
  same_obs c (if b
              then set_CurrentObsList
                     (set_CurrentTime (set_obsList c1 (_obsList c1 ++ [_CurrentObsList c1]))
                                      time_reset) []
              else c1).
Proof.
  intros [H1 H2]. destruct b; [|split; assumption].
  split; [|exact H2]. rewrite <- H1. unfold all_obs. cbn.
  rewrite concat_app. cbn. rewrite !app_nil_r. reflexivity.
Qed.

Ltac run_read :=
  first [ rewrite run_GETBITS | rewrite run_SKIPBITS | rewrite run_GETBITS64 ];
  match goal with
  | |- context [if (?a <? ?b)%nat then _ else _] =>
      destruct (Nat.ltb_spec a b); [cbn [snd]; auto|]
  end.

Lemma popcount_mod n v : (n <= 64)%nat -> popcount n (v mod 2 ^ 64) = popcount n v.
Proof.
  induction n as [|n IH]; intros H; cbn [popcount]; [reflexivity|].
  rewrite IH by lia. rewrite Z.mod_pow2_bits_low by lia. reflexivity.
Qed.

Lemma msm_full_over_limit env type sys T syncf decoded rd c0 c :
  RTCM3_MSM_NUMCELLS < popcount 64 (field rd 18 64) * popcount 32 (field rd 82 32) ->
  same_obs c0 c ->
  same_obs c0 (snd (run_body (msm_full env type sys T ;;
                              flush_unless_sync syncf decoded) rd c)).
Proof.
  intros Hn Hc. unfold msm_full. cbn [Nat.add].
  rewrite run_bind_assoc. run_read.
  rewrite run_bind_assoc. run_read.
  rewrite run_bind_assoc. run_read.
  rewrite run_bind_assoc. run_read.
  rewrite !field_skipn in *. cbn [Nat.add] in *.
  rewrite popcount_mod in * by lia.
  rewrite run_bind_assoc.
  match goal with
  | |- context [run_body (bind ?m ?k) ?rd1 c] =>
      destruct (run_pure m _ k rd1 c (pure_msm_sat_data _ _))
        as [E|(a & rd' & _ & E)]; rewrite E; clear E
  end; [exact Hc|].
  replace (popcount 64 (field rd 18 64) * popcount 32 (field rd 82 32)
           <=? RTCM3_MSM_NUMCELLS) with false
    by (symmetry; apply Z.leb_gt; exact Hn).
  rewrite run_ret, run_flush_unless_sync. cbn [snd].
  apply same_obs_sync, Hc.
Qed.

Lemma run_bind_if {A} (b : bool) (m1 m2 : Dec A) (k : A -> Dec bool) rd c :
  run_body (bind (if b then m1 else m2) k) rd c
  = if b then run_body (bind m1 k) rd c else run_body (bind m2 k) rd c.
Proof. destruct b; reflexivity. Qed.

Lemma DecodeRTCM3MSM_over_limit env rd c :
  let type := field rd 0 12 in
  (type <=? 1137) && (4 <=? type mod 10) && (type mod 10 <=? 7) = true ->
  RTCM3_MSM_NUMCELLS < popcount 64 (field rd 73 64) * popcount 32 (field rd 137 32) ->
  same_obs c (snd (run_body (DecodeRTCM3MSM_body env) rd c)).
Proof.
  intros type Ht Hn. unfold DecodeRTCM3MSM_body.
  pose proof (same_obs_refl c) as Hc.
  run_read. fold type. run_read.
  destruct (msm_sys type) as [sys|]; [|exact Hc].
  rewrite Ht.
  assert (Hgo : forall T rd1,
             rd1 = skipn 54 rd ->
             same_obs c
               (snd (run_body
                       (decoded <- flush_on_new_epoch T ;;
                        modify (fun c => set_CurrentTime c T) ;;
                        syncf <- GETBITS 1 ;;
                        msm_full env type sys T ;;
                        flush_unless_sync syncf decoded) rd1 c))).
  { intros T rd1 ->. rewrite run_flush_on_new_epoch, run_modify. run_read.
    { apply same_obs_time, same_obs_new_epoch, Hc. }
    apply msm_full_over_limit.
    - rewrite !field_skipn. cbn [Nat.add]. exact Hn.
    - apply same_obs_time, same_obs_new_epoch, Hc. }
  rewrite run_bind_if.
  destruct (Ascii.eqb sys "C").
  { rewrite run_bind_assoc. run_read. rewrite run_ret.
    apply Hgo. rewrite !skipn_skipn. reflexivity. }
  rewrite run_bind_if.
  destruct (Ascii.eqb sys "R").
  { rewrite run_bind_assoc. run_read. rewrite run_bind_assoc. run_read.
    rewrite run_ret. apply Hgo. rewrite !skipn_skipn. reflexivity. }
  rewrite run_bind_assoc. run_read. rewrite run_ret.
  apply Hgo. rewrite !skipn_skipn. reflexivity.
Qed.


(** C6 (amended): an MSM frame of subtype 4 to 7 whose satellite mask and
    signal mask have population counts with a product above 96.  Decoding
    it adds no observation, neither to the staged list nor to a flushed
    epoch, and emits no signal: there is no diagnostic. *)
Theorem msm_cell_limit env data size c :
  let rd := payload_bits data size in
  let type := field rd 0 12 in
  (type <=? 1137) && (4 <=? type mod 10) && (type mod 10 <=? 7) = true ->
  RTCM3_MSM_NUMCELLS < popcount 64 (field rd 73 64) * popcount 32 (field rd 137 32) ->
  let c' := snd (DecodeRTCM3MSM env data size c) in
  all_obs c' = all_obs c /\ _signals c' = _signals c.
Proof.
  intros rd type Ht Hn. exact (DecodeRTCM3MSM_over_limit env rd c Ht Hn).
Qed.

Lemma msm_cell_limit_witness :
  let c := snd (DecodeRTCM3GPS env0 frame_1004_first (size_of frame_1004_first)
                               (new_core "X")) in
  let c' := snd (DecodeRTCM3MSM env0 frame_1074_wide (size_of frame_1074_wide) c) in
  all_obs c' = all_obs c /\ _signals c' = _signals c.
Proof.
  apply (msm_cell_limit env0 frame_1074_wide (size_of frame_1074_wide)).
  - vm_compute. reflexivity.
  - vm_compute. reflexivity.
Defined.

(** C6 as stated fails in its last part: the frame of one hundred cells is
    read to its end, nothing is staged, and no signal at all is emitted. *)
Lemma msm_cell_limit_counterexample :
  let rd := payload_bits frame_1074_wide (size_of frame_1074_wide) in
  let r := DecodeRTCM3MSM env0 frame_1074_wide (size_of frame_1074_wide)
                          (new_core "X") in
  valid_frame frame_1074_wide = true /\
  popcount 64 (field rd 73 64) * popcount 32 (field rd 137 32) = 100 /\
  completes (DecodeRTCM3MSM_body env0 rd (new_core "X")) = true /\
  _signals (snd r) = [] /\ all_obs (snd r) = [].
Proof. vm_compute. repeat split. Qed.

(** * The frequency table of GLONASS *)


(** C10: the stores into [GLOFreq].  The index [sv - 1] of the legacy
    GLONASS observations and of the GLONASS ephemeris lies in the table for
    the satellite numbers 1 to 63, and so does the index of the MSM
    decoder for every position of the satellite mask.  It does not for the
    satellite number 0: a valid 1012 frame and a valid 1020 frame with a
    satellite field of 0 are decoded to the end, and each stores its
    frequency number at the index -1, in front of the table. *)
Theorem GLOFreq_store_below_table :
  forallb (fun sv => in_table (sv - 1)) (map Z.of_nat (seq 1 63)) = true /\
  forallb (fun i => in_table (RTCM3_MSM_NUMSAT - i - 1)) (map Z.of_nat (seq 0 64))
  = true /\
  in_table (0 - 1) = false /\
  (valid_frame frame_1012_sv0 = true /\
   field (payload_bits frame_1012_sv0 (size_of frame_1012_sv0)) 61 6 = 0 /\
   let r := DecodeRTCM3GLONASS env0 frame_1012_sv0 (size_of frame_1012_sv0)
                               (new_core "X") in
   fst r = true /\ GLOFreq_wild (snd r) = [(-1, 102)]) /\
  (valid_frame frame_1020_sv0 = true /\
   field (payload_bits frame_1020_sv0 (size_of frame_1020_sv0)) 12 6 = 0 /\
   let r := DecodeGLONASSEphemeris env0 frame_1020_sv0 (size_of frame_1020_sv0)
                                   (new_core "X") in
   fst r = true /\ GLOFreq_wild (snd r) = [(-1, 102)]).
Proof. vm_compute. repeat split. Qed.

(** * Ambiguity and signal strength of the legacy messages *)









(** * Satellite numbers of SBAS *)









(** * The wavelength of GLONASS in MSM *)



(** ** Counting the bits of a mask *)





(** ** One cell *)





(** ** The walk over the cells *)



Section Walk.

Variable env : Env.
Variables (type : Z) (T : bncTime) (satmask sigmask cellmask : Z).
Variables (a : msm_arrays) (c0 : Core) (ext : Z -> Z).


Hypothesis Hsub : 4 <= type mod 10 <= 7.
Hypothesis Hext : forall i,
  0 <= i < 64 -> Z.testbit satmask i = true ->
  ext_at a (popcount (Z.to_nat i) satmask) = ext i.






End Walk.

(** ** Reading the arrays *)

(** A step that reads: its result does not depend on the decoder
    object. *)
Definition core_free {A} (m : Dec A) : Prop :=
  forall rd c1 c2,
    m rd c2 = match m rd c1 with
              | Next x r _ => Next x r c2
              | Return b _ => Return b c2
              end.

Lemma core_free_ret {A} (x : A) : core_free (ret x).
Proof. intros rd c1 c2. reflexivity. Qed.

Lemma core_free_bind {A B} (m : Dec A) (k : A -> Dec B) :
  core_free m -> (forall x, core_free (k x)) -> core_free (bind m k).
Proof.
  intros Hm Hk rd c1 c2. unfold bind. rewrite (Hm rd c1 c2).
  destruct (m rd c1) as [x r c|b c]; [apply Hk | reflexivity].
Qed.

Lemma core_free_GETBITS n : core_free (GETBITS n).
Proof.
  intros rd c1 c2. unfold GETBITS. destruct (length rd <? n)%nat; reflexivity.
Qed.

Create HintDb free_db.
#[export] Hint Resolve core_free_ret core_free_GETBITS : free_db.

Ltac free_macro c :=
  intros; unfold c;
  apply core_free_bind; [solve [eauto with free_db] | intros; apply core_free_ret].

Lemma core_free_GETBITS64 n : core_free (GETBITS64 n).
Proof. free_macro GETBITS64. Qed.
Lemma core_free_SKIPBITS n : core_free (SKIPBITS n).
Proof. free_macro SKIPBITS. Qed.
Lemma core_free_GETBITSSIGN n : core_free (GETBITSSIGN n).
Proof. free_macro GETBITSSIGN. Qed.
#[export] Hint Resolve core_free_GETBITS64 core_free_SKIPBITS core_free_GETBITSSIGN
  : free_db.
Lemma core_free_GETBITS_double n : core_free (GETBITS_double n).
Proof. free_macro GETBITS_double. Qed.
Lemma core_free_GETFLOAT n s : core_free (GETFLOAT n s).
Proof. free_macro GETFLOAT. Qed.
Lemma core_free_GETFLOATSIGN n s : core_free (GETFLOATSIGN n s).
Proof. free_macro GETFLOATSIGN. Qed.

Lemma core_free_read_down {A} n (m : Dec A) :
  core_free m -> core_free (read_down n m).
Proof.
  intros H. induction n as [|n IH]; cbn [read_down].
  - apply core_free_ret.
  - apply core_free_bind; [exact H|]. intros.
    apply core_free_bind; [exact IH|]. intros. apply core_free_ret.
Qed.

Lemma core_free_read_cells {A} (d : A) mask n (m : Dec A) :
  core_free m -> core_free (read_cells d mask n m).
Proof.
  intros H. induction n as [|n IH]; cbn [read_cells].
  - apply core_free_ret.
  - apply core_free_bind.
    + destruct (Z.testbit mask (Z.of_nat n mod 64));
        [exact H | apply core_free_ret].
    + intros. apply core_free_bind; [exact IH|]. intros. apply core_free_ret.
Qed.

#[export] Hint Resolve core_free_GETBITS_double core_free_GETFLOAT
  core_free_GETFLOATSIGN core_free_read_down core_free_read_cells : free_db.









(** ** The frame *)









